(** * WebAuthn example backend: challenge lifecycle and ceremony engine

    A shallow embedding of [backend/src/auth/auth.service.ts] (both
    revisions: the one keeping challenges in an in-process [Map] swept by a
    timer, and the one keeping them in Redis with a TTL),
    [backend/src/redis/redis.service.ts] and the two TypeORM entities.

    Conventions
    - JavaScript strings are [string]; [number]s that hold counters and
      clocks are [Z].
    - An [async] method is a value of [Async]: a tree whose [Await] nodes are
      the [await] points of the source and whose [Sync] nodes are reads and
      writes of in-process state done without yielding.
    - A thrown NestJS exception is the [Throw] leaf; state changes made
      before the throw stay, as in the source.
    - The libraries the service imports (@simplewebauthn/server, bcrypt,
      Buffer) are methods of the class [Libraries]; nothing is assumed about
      them. Where a property needs the counter rule of the verifier, the
      rule is a hypothesis ([counter_rule]).
    - The database is PostgreSQL behind TypeORM: [uuid] columns compare ids
      as uuids and refuse a parameter that is no uuid, the [integer] column
      of the counter refuses a value outside 32 bits; a refused query
      surfaces as TypeORM's [QueryFailedError]. *)

From Stdlib Require Import ZArith Lia List Bool Strings.Byte Ascii String
  DecimalString.
From stdpp Require Import base option strings list gmap fin_maps.
Import ListNotations.

Local Open Scope string_scope.
Local Open Scope Z_scope.
Local Open Scope list_scope.

(** ** Entities *)

(** [entities/user.entity.ts] *)
Record User := mkUser {
  user_id : string;
  firstName : string;
  lastName : string;
  email : string;
  password : string;
  user_createdAt : Z
}.

(** [entities/credential.entity.ts]; [backedUp] is a nullable column. *)
Record Credential := mkCredential {
  id : string;
  credentialId : string;
  publicKey : string;
  counter : Z;
  deviceType : string;
  backedUp : option bool;
  userId : string;
  createdAt : Z
}.

(** What [findOne({ ..., relations: ["credentials"] })] hands back: the row
    and the credentials whose [userId] is the row's id. *)
Record LoadedUser := mkLoaded {
  row : User;
  credentials : list Credential
}.

(** ** Exceptions and outcomes *)

(** Why PostgreSQL refused a query: "invalid input syntax for type uuid"
    for the text of a parameter, "value out of range for type integer" for
    a number. *)
Inductive QueryFailure :=
| invalid_uuid (text : string)
| integer_out_of_range (value : Z).

(** The two NestJS exceptions the service throws, the error ioredis rejects
    with when Redis refuses a command, and the error TypeORM rejects with
    when PostgreSQL refuses a query. The service catches neither of the
    last two. *)
Inductive Exception :=
| BadRequestException (message : string)
| UnauthorizedException (message : string)
| ReplyError (message : string)
| QueryFailedError (cause : QueryFailure).

Inductive Outcome (A : Type) :=
| Returned (a : A)
| Thrown (e : Exception).
Arguments Returned {A} a.
Arguments Thrown {A} e.

(** ** JavaScript truthiness of the values the service tests with [!] and [||] *)

(** [!s] for [s : string]: only the empty string is falsy. *)
Definition falsy_string (s : string) : bool :=
  match s with EmptyString => true | String _ _ => false end.

(** [!v] for [v : string | null] (also [string | undefined]). *)
Definition falsy (v : option string) : bool :=
  match v with None => true | Some s => falsy_string s end.

(** [v || d] for [v : string | undefined]. *)
Definition or_default (v : option string) (d : string) : string :=
  match v with
  | None => d
  | Some s => if falsy_string s then d else s
  end.

(** ** Asynchronous methods *)

Section Async.
Context {St : Type}.

(** [Sync act k]: touch in-process state and go on without yielding.
    [Await act k]: hand [act] to a collaborator (database, Redis, the
    verifier), yield to the event loop, resume with its answer. *)
Inductive Async (A : Type) : Type :=
| Return (a : A)
| Throw (e : Exception)
| Sync {X : Type} (act : St → X * St) (k : X → Async A)
| Await {X : Type} (act : St → X * St) (k : X → Async A).

Global Arguments Return {A} a.
Global Arguments Throw {A} e.
Global Arguments Sync {A X} act k.
Global Arguments Await {A X} act k.

Fixpoint async_bind {A B} (f : A → Async B) (m : Async A) : Async B :=
  match m with
  | Return a => f a
  | Throw e => Throw e
  | Sync act k => Sync act (λ x, async_bind f (k x))
  | Await act k => Await act (λ x, async_bind f (k x))
  end.

(** One request served alone: every action runs to completion in order. *)
Fixpoint run {A} (m : Async A) (s : St) : Outcome A * St :=
  match m with
  | Return a => (Returned a, s)
  | Throw e => (Thrown e, s)
  | Sync act k => let '(x, s') := act s in run (k x) s'
  | Await act k => let '(x, s') := act s in run (k x) s'
  end.

(** Run the synchronous prefix, up to the next [await] or the end. *)
Fixpoint settle {A} (m : Async A) (s : St) : Async A * St :=
  match m with
  | Sync act k => let '(x, s') := act s in settle (k x) s'
  | _ => (m, s)
  end.

(** The event loop resumes a suspended request: the awaited action takes
    effect and the request runs on to its next [await]. A finished request
    stays as it is. *)
Definition resume {A} (m : Async A) (s : St) : Async A * St :=
  match m with
  | Await act k => let '(x, s') := act s in settle (k x) s'
  | _ => (m, s)
  end.

(** Two requests in flight; [sched] says whose turn each resumption is
    ([false]: the first, [true]: the second). Both handlers are entered
    (their synchronous prefix runs) before the first resumption. *)
Fixpoint interleave {A B} (sched : list bool)
    (p : Async A) (q : Async B) (s : St) : Async A * Async B * St :=
  match sched with
  | [] => (p, q, s)
  | false :: rest => let '(p', s') := resume p s in interleave rest p' q s'
  | true :: rest => let '(q', s') := resume q s in interleave rest p q' s'
  end.

Definition race {A B} (sched : list bool)
    (p : Async A) (q : Async B) (s : St) : Async A * Async B * St :=
  let '(p0, s0) := settle p s in
  let '(q0, s1) := settle q s0 in
  interleave sched p0 q0 s1.

(** What a request has answered, if it has finished. *)
Definition answer {A} (m : Async A) : option (Outcome A) :=
  match m with
  | Return a => Some (Returned a)
  | Throw e => Some (Thrown e)
  | _ => None
  end.

(** [await f(...)] where [f] only reads or writes collaborator state. *)
Definition await {X} (act : St → X * St) : Async X := Await act Return.
Definition sync {X} (act : St → X * St) : Async X := Sync act Return.

(** [await p] outside any [try], for a promise [p] that may reject: the
    rejection is thrown at the [await]. *)
Definition attempt {X} (act : St → Outcome X * St) : Async X :=
  Await act (λ settled, match settled with
                        | Returned x => Return x
                        | Thrown e => Throw e
                        end).
End Async.
Arguments Async St A : clear implicits.

#[global] Instance async_mret {St} : MRet (Async St) := λ A, Return.
#[global] Instance async_mbind {St} : MBind (Async St) := λ A B, async_bind.

(** ** The persistence collaborator (TypeORM repositories over PostgreSQL) *)

Record Db := mkDb {
  users : list User;
  creds : list Credential
}.

(** The state a request can see: the database, the challenge store (an
    in-process map in the first revision, Redis in the second) and the
    clock, in milliseconds. *)
Record World (C : Type) := mkWorld {
  db : Db;
  store : C;
  now : Z
}.
Arguments mkWorld {C} db store now.
Arguments db {C} w.
Arguments store {C} w.
Arguments now {C} w.

Definition with_db {C} (d : Db) (w : World C) : World C :=
  mkWorld d (store w) (now w).
Definition with_store {C} (c : C) (w : World C) : World C :=
  mkWorld (db w) c (now w).
(** Time passes between events. *)
Definition tick {C} (d : Z) (w : World C) : World C :=
  mkWorld (db w) (store w) (now w + d).

(** ** PostgreSQL's column types, as far as the entities use them *)

Module Postgres.

(** [isxdigit] and the digit's value. *)
Definition hex (c : Ascii.ascii) : option N :=
  let n := Ascii.N_of_ascii c in
  if (48 <=? n)%N && (n <=? 57)%N then Some (n - 48)%N
  else if (97 <=? n)%N && (n <=? 102)%N then Some (n - 87)%N
  else if (65 <=? n)%N && (n <=? 70)%N then Some (n - 55)%N
  else None.

(** The loop of [string_to_uuid]: [n] bytes are still to be read, the next
    one is byte [i]; each is two hexadecimal digits, and a hyphen is
    skipped after a byte of odd index other than the last. *)
Fixpoint uuid_bytes (n : nat) (i : N) (src : string)
    : option (list N * string) :=
  match n with
  | O => Some ([], src)
  | S n' =>
      match src with
      | String a (String b rest) =>
          match hex a, hex b with
          | Some x, Some y =>
              let rest' :=
                match rest with
                | String c after =>
                    if Ascii.eqb c "-"%char && N.odd i && (i <? 15)%N
                    then after else rest
                | EmptyString => rest
                end in
              match uuid_bytes n' (i + 1)%N rest' with
              | Some (bytes, tail) => Some ((16 * x + y)%N :: bytes, tail)
              | None => None
              end
          | _, _ => None
          end
      | _ => None
      end
  end.

(** [uuid_in]: the sixteen bytes a text denotes, if it is the text of a
    uuid: 32 hexadecimal digits of either case, optionally with a hyphen
    after each group of four and optionally within braces. *)
Definition uuid_in (text : string) : option (list N) :=
  let '(braces, src) :=
    match text with
    | String c rest => if Ascii.eqb c "{"%char then (true, rest) else (false, text)
    | EmptyString => (false, text)
    end in
  match uuid_bytes 16 0%N src with
  | Some (bytes, tail) =>
      if braces : bool
      then match tail with
           | String c EmptyString => if Ascii.eqb c "}"%char then Some bytes else None
           | _ => None
           end
      else match tail with
           | EmptyString => Some bytes
           | _ => None
           end
  | None => None
  end.

Definition is_uuid (text : string) : bool :=
  match uuid_in text with Some _ => true | None => false end.

(** What a [uuid] column or parameter holds for an id the model keeps as
    text: the uuid the text denotes. (A text that denotes none, which such
    a column cannot hold, stands for itself.) *)
Definition uuid_value (text : string) : list N + string :=
  match uuid_in text with
  | Some bytes => inl bytes
  | None => inr text
  end.

(** The range of an [integer] column. *)
Definition int4 (n : Z) : bool :=
  (-2147483648 <=? n) && (n <=? 2147483647).

End Postgres.

Module Repository.

(** [column = $1] for a [uuid] column and a parameter PostgreSQL accepts:
    the row holds the uuid the parameter denotes. *)
Definition same_id (stored parameter : string) : bool :=
  match Postgres.uuid_in parameter with
  | Some uuid => bool_decide (Postgres.uuid_in stored = Some uuid)
  | None => false
  end.

Definition credentials_of (d : Db) (u : User) : list Credential :=
  filter (λ c, Postgres.uuid_value (userId c) = Postgres.uuid_value (user_id u))
         (creds d).

Definition load (d : Db) (u : User) : LoadedUser :=
  mkLoaded u (credentials_of d u).

(** [userRepository.findOne({ where: { id }, relations: ["credentials"] })],
    for an [id] PostgreSQL accepts. *)
Definition findUserById (uid : string) (d : Db) : option LoadedUser :=
  load d <$> List.find (λ u, same_id (user_id u) uid) (users d).

(** [userRepository.findOne({ where: { email }, relations: ["credentials"] })] *)
Definition findUserByEmail (mail : string) (d : Db) : option LoadedUser :=
  load d <$> List.find (λ u, String.eqb (email u) mail) (users d).

(** [credentialRepository.findOne({ where: { id, userId } })], for ids
    PostgreSQL accepts. *)
Definition findCredential (cid uid : string) (d : Db) : option Credential :=
  List.find (λ c, same_id (id c) cid && same_id (userId c) uid) (creds d).

(** [userRepository.save(user)] for an entity made by [create]: a row is
    inserted under the primary key [uuid] PostgreSQL generates. *)
Definition insertUser (u : User) (d : Db) : Db :=
  mkDb (users d ++ [u]) (creds d).

(** [credentialRepository.save(credential)] for an entity made by [create]. *)
Definition insertCredential (c : Credential) (d : Db) : Db :=
  mkDb (users d) (creds d ++ [c]).

(** [credentialRepository.save(credential)] for a loaded entity: the row
    with its primary key is written anew. PostgreSQL writes the new version
    of the row behind the rows of the table, and the service's queries,
    which have no [ORDER BY], list it there. *)
Definition updateCredential (c : Credential) (d : Db) : Db :=
  mkDb (users d)
       (filter (λ r, Postgres.uuid_value (id r) ≠ Postgres.uuid_value (id c))
               (creds d)
        ++ [c]).

(** [credentialRepository.remove(credential)]: the row with its primary
    key is deleted. *)
Definition removeCredential (c : Credential) (d : Db) : Db :=
  mkDb (users d)
       (filter (λ r, Postgres.uuid_value (id r) ≠ Postgres.uuid_value (id c))
               (creds d)).
End Repository.

(** [credential.counter = n] on a loaded entity. *)
Definition set_counter (n : Z) (c : Credential) : Credential :=
  mkCredential (id c) (credentialId c) (publicKey c) n (deviceType c)
               (backedUp c) (userId c) (createdAt c).

(** ** The imported libraries *)

(** A promise of a library call: resolved with a value or rejected with an
    error whose [message] the service reads. *)
Inductive Settled (A : Type) :=
| Resolved (a : A)
| Rejected (message : string).
Arguments Resolved {A} a.
Arguments Rejected {A} message.

(** The browser's answer; [response_id] is its [id] field, the rest is
    opaque to the service. *)
Record AuthenticatorResponse := mkResponse {
  response_id : string;
  response_body : string
}.

Record RegistrationInfo := mkRegistrationInfo {
  credentialID : list Byte.byte;
  credentialPublicKey : list Byte.byte;
  info_counter : Z;
  credentialBackedUp : option bool
}.

Record VerifiedRegistrationResponse := mkVerifiedRegistration {
  reg_verified : bool;
  registrationInfo : option RegistrationInfo
}.

Record VerifyRegistrationOpts := mkVerifyRegistrationOpts {
  reg_response : AuthenticatorResponse;
  reg_expectedChallenge : string;
  reg_expectedOrigin : string;
  reg_expectedRPID : string;
  reg_requireUserVerification : bool
}.

Record AuthenticatorDevice := mkAuthenticatorDevice {
  device_credentialID : list Byte.byte;
  device_credentialPublicKey : list Byte.byte;
  device_counter : Z
}.

Record AuthenticationInfo := mkAuthenticationInfo {
  newCounter : Z
}.

Record VerifiedAuthenticationResponse := mkVerifiedAuthentication {
  auth_verified : bool;
  authenticationInfo : AuthenticationInfo
}.

Record VerifyAuthenticationOpts := mkVerifyAuthenticationOpts {
  auth_response : AuthenticatorResponse;
  auth_expectedChallenge : string;
  auth_expectedOrigin : string;
  auth_expectedRPID : string;
  authenticator : AuthenticatorDevice;
  auth_requireUserVerification : bool
}.

Class Libraries := {
  (** @simplewebauthn/server *)
  verifyRegistrationResponse :
    VerifyRegistrationOpts → Settled VerifiedRegistrationResponse;
  verifyAuthenticationResponse :
    VerifyAuthenticationOpts → Settled VerifiedAuthenticationResponse;
  (** bcrypt *)
  bcrypt_hash : string → Z → string;
  bcrypt_compare : string → string → bool;
  (** Buffer: [Buffer.from(s, enc)] and [buf.toString(enc)] *)
  from_base64url : string → list Byte.byte;
  from_base64 : string → list Byte.byte;
  from_utf8 : string → list Byte.byte;
  to_base64url : list Byte.byte → string;
  to_base64 : list Byte.byte → string;
  (** [String.prototype.trim] *)
  trim : string → string;
  (** [process.env.ORIGIN] *)
  env_ORIGIN : option string
}.

(** ** Values the service returns *)

Record PublicUser := mkPublicUser {
  pu_id : string;
  pu_email : string;
  pu_firstName : string;
  pu_lastName : string
}.

Record CredentialView := mkCredentialView {
  cv_id : string;
  cv_deviceType : string;
  cv_createdAt : Z
}.

Record UserView := mkUserView {
  uv_id : string;
  uv_email : string;
  uv_firstName : string;
  uv_lastName : string;
  uv_credentials : list CredentialView
}.

Record Verified := mkVerified { verified : bool }.

Record VerifiedLogin := mkVerifiedLogin {
  vl_verified : bool;
  vl_user : PublicUser
}.

Record Deleted := mkDeleted { success : bool }.

Record RegisterDto := mkRegisterDto {
  dto_email : string;
  dto_password : string;
  dto_firstName : string;
  dto_lastName : string
}.

Record LoginDto := mkLoginDto {
  login_email : string;
  login_password : string
}.

Record PublicKeyCredentialDescriptor := mkDescriptor {
  descriptor_id : list Byte.byte;
  descriptor_type : string
}.

(** The options of [generateRegistrationOptions]. *)
Record RegistrationOptions := mkRegistrationOptions {
  ro_challenge : string;
  ro_rpName : string;
  ro_rpID : string;
  ro_userName : string;
  ro_userDisplayName : string;
  ro_userID : string;
  ro_timeout : Z;
  ro_attestationType : string;
  ro_excludeCredentials : list PublicKeyCredentialDescriptor
}.

(** The options of [generateAuthenticationOptions]. *)
Record AuthenticationOptions := mkAuthenticationOptions {
  ao_challenge : string;
  ao_rpID : string;
  ao_allowCredentials : list PublicKeyCredentialDescriptor;
  ao_userVerification : string;
  ao_timeout : Z
}.

(** ** AuthService: what both revisions share

    [rpName], [rpID], [origin], and the methods that never touch the
    challenge store: [register], [login], [getUser], [deleteCredential].
    Their text is the same in both revisions of the file. *)

Section Service.
Context `{Libraries} {C : Type}.

Definition rpName : string := "WebAuthn Example".
Definition rpID : string := "localhost".
Definition origin : string := or_default env_ORIGIN "http://localhost:5173".

(** A query: the database is read, nothing changes. *)
Definition query {X} (f : Db → X) : World C → X * World C :=
  λ w, (f (db w), w).

(** A query with the parameters [ids] for [uuid] columns: PostgreSQL
    refuses it when one of them is not the text of a uuid (the first such
    parameter is the one it complains about). *)
Definition query_by_uuid {X} (ids : list string) (f : Db → X)
    : World C → Outcome X * World C :=
  λ w, match List.find (λ text, negb (Postgres.is_uuid text)) ids with
       | Some text => (Thrown (QueryFailedError (invalid_uuid text)), w)
       | None => (Returned (f (db w)), w)
       end.

(** A library call that touches no shared state. *)
Definition call {X} (x : X) : World C → X * World C :=
  λ w, (x, w).

(** [save] of a fresh user entity: PostgreSQL fills in the primary key
    ([uuid]) and [createdAt]; the saved entity comes back. *)
Definition saveNewUser (uuid mail hashed first last : string)
    : World C → User * World C :=
  λ w, let u := mkUser uuid first last mail hashed (now w) in
       (u, with_db (Repository.insertUser u (db w)) w).

(** [save] of a fresh credential entity owned by [owner]: refused when the
    counter does not fit the [integer] column. *)
Definition saveNewCredential (uuid : string) (owner : User)
    (credId pubKey : string) (count : Z) (device : string) (backup : bool)
    : World C → Outcome Credential * World C :=
  λ w, let c := mkCredential uuid credId pubKey count device (Some backup)
                             (user_id owner) (now w) in
       if Postgres.int4 count
       then (Returned c, with_db (Repository.insertCredential c (db w)) w)
       else (Thrown (QueryFailedError (integer_out_of_range count)), w).

(** [save] of a loaded credential: refused when the counter does not fit
    the [integer] column. *)
Definition saveCredential (c : Credential)
    : World C → Outcome Credential * World C :=
  λ w, if Postgres.int4 (counter c)
       then (Returned c, with_db (Repository.updateCredential c (db w)) w)
       else (Thrown (QueryFailedError (integer_out_of_range (counter c))), w).

Definition removeCredential (c : Credential) : World C → unit * World C :=
  λ w, (tt, with_db (Repository.removeCredential c (db w)) w).

Definition publicUser (u : User) : PublicUser :=
  mkPublicUser (user_id u) (email u) (firstName u) (lastName u).

(** [register(registerDto)]; [uuid] is the key the database will generate. *)
Definition register (uuid : string) (registerDto : RegisterDto)
    : Async (World C) PublicUser :=
  existingUser ←
    await (query (Repository.findUserByEmail (dto_email registerDto)));
  match existingUser with
  | Some _ => Throw (BadRequestException "User already exists")
  | None =>
      hashedPassword ←
        await (call (bcrypt_hash (dto_password registerDto) 10));
      user ← await (saveNewUser uuid (dto_email registerDto) hashedPassword
                      (dto_firstName registerDto) (dto_lastName registerDto));
      Return (mkPublicUser (user_id user) (email user)
                           (firstName user) (lastName user))
  end.

(** [login(loginDto)] *)
Definition login (loginDto : LoginDto) : Async (World C) PublicUser :=
  found ← await (query (Repository.findUserByEmail (login_email loginDto)));
  match found with
  | None => Throw (UnauthorizedException "Invalid credentials")
  | Some loaded =>
      let user := row loaded in
      isPasswordValid ←
        await (call (bcrypt_compare (login_password loginDto) (password user)));
      if isPasswordValid : bool
      then Return (mkPublicUser (user_id user) (email user)
                                (firstName user) (lastName user))
      else Throw (UnauthorizedException "Invalid credentials")
  end.

(** [getUser(userId)] *)
Definition getUser (userId : string) : Async (World C) UserView :=
  if falsy_string userId || String.eqb userId "undefined"
     || String.eqb (trim userId) EmptyString
  then Throw (BadRequestException "Invalid user ID")
  else
    found ← attempt (query_by_uuid [userId]
                       (Repository.findUserById userId));
    match found with
    | None => Throw (UnauthorizedException "User not found")
    | Some loaded =>
        let user := row loaded in
        Return (mkUserView (user_id user) (email user) (firstName user)
                  (lastName user)
                  (map (λ cred, mkCredentialView (id cred) (deviceType cred)
                                                 (createdAt cred))
                       (credentials loaded)))
    end.

(** [deleteCredential(userId, credentialId)] *)
Definition deleteCredential (userId credentialId : string)
    : Async (World C) Deleted :=
  credential ← attempt (query_by_uuid [credentialId; userId]
                          (Repository.findCredential credentialId userId));
  match credential with
  | None => Throw (BadRequestException "Credential not found")
  | Some credential =>
      _ ← await (removeCredential credential);
      Return (mkDeleted true)
  end.

(** [user.credentials.find((c) => c.credentialId === credentialId)] *)
Definition find_credential (credId : string) (user : LoadedUser)
    : option Credential :=
  List.find (λ c, String.eqb (credentialId c) credId) (credentials user).

(** [Buffer.from(assertionResponse.id, "base64url").toString("base64url")] *)
Definition claimed_credentialId (assertionResponse : AuthenticatorResponse)
    : string :=
  to_base64url (from_base64url (response_id assertionResponse)).

(** The argument both revisions pass to [verifyRegistrationResponse]. *)
Definition registrationOpts (attestationResponse : AuthenticatorResponse)
    (expectedChallenge : string) : VerifyRegistrationOpts :=
  mkVerifyRegistrationOpts attestationResponse expectedChallenge origin rpID false.

(** The argument both revisions pass to [verifyAuthenticationResponse]. *)
Definition authenticationOpts (assertionResponse : AuthenticatorResponse)
    (expectedChallenge : string) (credential : Credential)
    : VerifyAuthenticationOpts :=
  mkVerifyAuthenticationOpts assertionResponse expectedChallenge origin rpID
    (mkAuthenticatorDevice (from_base64url (credentialId credential))
                           (from_base64 (publicKey credential))
                           (counter credential))
    false.

(** The descriptor list both option generators build from the passkeys. *)
Definition descriptors (l : list Credential)
    : list PublicKeyCredentialDescriptor :=
  map (λ cred, mkDescriptor (from_base64url (credentialId cred)) "public-key") l.

(** The library's [generateRegistrationOptions]; [challenge] is the random
    challenge it mints. *)
Definition lib_generateRegistrationOptions (challenge : string)
    (user : LoadedUser) : RegistrationOptions :=
  mkRegistrationOptions challenge rpName rpID (email (row user))
    (firstName (row user) +:+ " " +:+ lastName (row user))
    (to_base64url (from_utf8 (user_id (row user))))
    60000 "none" (descriptors (credentials user)).

(** The library's [generateAuthenticationOptions]. *)
Definition lib_generateAuthenticationOptions (challenge : string)
    (user : LoadedUser) : AuthenticationOptions :=
  mkAuthenticationOptions challenge rpID (descriptors (credentials user))
    "preferred" 60000.

End Service.
Global Arguments query_by_uuid : simpl never.

(** The [type] argument of [getExpectedChallenge]: ["reg" | "auth"]. *)
Inductive ChallengeType := reg | auth.

Definition type_string (t : ChallengeType) : string :=
  match t with reg => "reg" | auth => "auth" end.

(** The key [`${type}-${userId}`] of [getExpectedChallenge]. *)
Definition key_of (userId : string) (type : ChallengeType) : string :=
  type_string type +:+ "-" +:+ userId.
Global Arguments key_of : simpl never.

(** ** First revision: challenges in an in-process [Map], swept by a timer *)

Module InMemory.

(** A value of [this.challenges]. *)
Record ChallengeEntry := mkEntry {
  challenge : string;
  timestamp : Z;
  entry_userId : option string
}.

Abbreviation W := (World (gmap string ChallengeEntry)).

Definition expirationTime : Z := 300000.

(** The callback the constructor hands to [setInterval]: every entry with
    [now - value.timestamp > expirationTime] is deleted, that is, the
    entries with [now - value.timestamp <= expirationTime] are kept. *)
Definition sweep (w : W) : W :=
  with_store
    (filter (λ kv : string * ChallengeEntry,
               now w - timestamp kv.2 ≤ expirationTime) (store w))
    w.

(** [this.challenges.set(key, { challenge, timestamp: Date.now(), userId })] *)
Definition challenges_set (key c : string) (uid : option string)
    : W → unit * W :=
  λ w, (tt, with_store (<[key := mkEntry c (now w) uid]> (store w)) w).

(** [this.challenges.get(key)] *)
Definition challenges_get (key : string) : W → option ChallengeEntry * W :=
  λ w, (store w !! key, w).

(** [this.challenges.delete(key)] *)
Definition challenges_delete (key : string) : W → unit * W :=
  λ w, (tt, with_store (delete key (store w)) w).

(** [getExpectedChallenge(userId, type)]: not [async], no [await] inside. *)
Definition getExpectedChallenge (userId : string) (type : ChallengeType)
    : Async W string :=
  let key := key_of userId type in
  stored ← sync (challenges_get key);
  match stored with
  | None =>
      Throw (BadRequestException
               "Challenge not found. Please request new options.")
  | Some stored =>
      _ ← sync (challenges_delete key);
      Return (challenge stored)
  end.
Global Arguments getExpectedChallenge : simpl never.

Section Methods.
Context `{Libraries}.

(** [generateRegistrationOptions(userId)] *)
Definition generateRegistrationOptions (fresh userId : string)
    : Async W RegistrationOptions :=
  user ← attempt (query_by_uuid [userId] (Repository.findUserById userId));
  match user with
  | None => Throw (UnauthorizedException "User not found")
  | Some user =>
      options ← await (call (lib_generateRegistrationOptions fresh user));
      _ ← sync (challenges_set ("reg-" +:+ userId) (ro_challenge options) None);
      Return options
  end.

(** [verifyRegistration(userId, attestationResponse, deviceType)] *)
Definition verifyRegistration (uuid userId : string)
    (attestationResponse : AuthenticatorResponse) (deviceType : option string)
    : Async W Verified :=
  user ← attempt (query_by_uuid [userId] (Repository.findUserById userId));
  match user with
  | None => Throw (UnauthorizedException "User not found")
  | Some user =>
      expectedChallenge ← getExpectedChallenge userId reg;
      verification ←
        await (call (verifyRegistrationResponse
                       (registrationOpts attestationResponse expectedChallenge)));
      match verification with
      | Rejected message =>
          Throw (BadRequestException ("Verification failed: " +:+ message))
      | Resolved verification =>
          match reg_verified verification, registrationInfo verification with
          | true, Some registrationInfo =>
              _ ← attempt (saveNewCredential uuid (row user)
                           (to_base64url (credentialID registrationInfo))
                           (to_base64 (credentialPublicKey registrationInfo))
                           (info_counter registrationInfo)
                           (or_default deviceType "Unknown")
                           (default false (credentialBackedUp registrationInfo)));
              Return (mkVerified true)
          | _, _ =>
              Throw (BadRequestException "Registration verification failed")
          end
      end
  end.

(** [generateAuthenticationOptions(userId)] *)
Definition generateAuthenticationOptions (fresh userId : string)
    : Async W AuthenticationOptions :=
  user ← attempt (query_by_uuid [userId] (Repository.findUserById userId));
  match user with
  | Some user =>
      match credentials user with
      | [] => Throw (BadRequestException "No credentials found for user")
      | _ :: _ =>
          options ← await (call (lib_generateAuthenticationOptions fresh user));
          _ ← sync (challenges_set ("auth-" +:+ userId) (ao_challenge options) None);
          Return options
      end
  | None => Throw (BadRequestException "No credentials found for user")
  end.

(** [generateAuthenticationOptionsByEmail(email)] *)
Definition generateAuthenticationOptionsByEmail (fresh mail : string)
    : Async W AuthenticationOptions :=
  user ← await (query (Repository.findUserByEmail mail));
  match user with
  | None => Throw (UnauthorizedException "User not found")
  | Some user =>
      match credentials user with
      | [] => Throw (BadRequestException "No passkeys found for this user")
      | _ :: _ =>
          options ← await (call (lib_generateAuthenticationOptions fresh user));
          _ ← sync (challenges_set ("auth-email-" +:+ mail) (ao_challenge options)
                      (Some (user_id (row user))));
          Return options
      end
  end.

(** [verifyAuthentication(userId, assertionResponse)] *)
Definition verifyAuthentication (userId : string)
    (assertionResponse : AuthenticatorResponse) : Async W Verified :=
  user ← attempt (query_by_uuid [userId] (Repository.findUserById userId));
  match user with
  | None => Throw (UnauthorizedException "User not found")
  | Some user =>
      let credentialId := claimed_credentialId assertionResponse in
      match find_credential credentialId user with
      | None => Throw (BadRequestException "Credential not found")
      | Some credential =>
          expectedChallenge ← getExpectedChallenge userId auth;
          verification ←
            await (call (verifyAuthenticationResponse
                           (authenticationOpts assertionResponse expectedChallenge
                                               credential)));
          match verification with
          | Rejected message =>
              Throw (BadRequestException ("Authentication failed: " +:+ message))
          | Resolved verification =>
              if auth_verified verification
              then
                let credential :=
                  set_counter (newCounter (authenticationInfo verification))
                              credential in
                _ ← attempt (saveCredential credential);
                Return (mkVerified true)
              else
                Throw (BadRequestException "Authentication verification failed")
          end
      end
  end.

(** [verifyAuthenticationByEmail(email, assertionResponse)] *)
Definition verifyAuthenticationByEmail (mail : string)
    (assertionResponse : AuthenticatorResponse) : Async W VerifiedLogin :=
  user ← await (query (Repository.findUserByEmail mail));
  match user with
  | None => Throw (UnauthorizedException "User not found")
  | Some user =>
      let credentialId := claimed_credentialId assertionResponse in
      match find_credential credentialId user with
      | None => Throw (BadRequestException "Credential not found")
      | Some credential =>
          let challengeKey := "auth-email-" +:+ mail in
          stored ← sync (challenges_get challengeKey);
          match stored with
          | None =>
              Throw (BadRequestException
                       "Challenge not found. Please request new options.")
          | Some stored =>
              let expectedChallenge := challenge stored in
              _ ← sync (challenges_delete challengeKey);
              verification ←
                await (call (verifyAuthenticationResponse
                               (authenticationOpts assertionResponse expectedChallenge
                                                   credential)));
              match verification with
              | Rejected message =>
                  Throw (BadRequestException ("Authentication failed: " +:+ message))
              | Resolved verification =>
                  if auth_verified verification
                  then
                    let credential :=
                      set_counter (newCounter (authenticationInfo verification))
                                  credential in
                    _ ← attempt (saveCredential credential);
                    Return (mkVerifiedLogin true
                              (mkPublicUser (user_id (row user)) (email (row user))
                                 (firstName (row user)) (lastName (row user))))
                  else
                    Throw (BadRequestException "Authentication verification failed")
              end
          end
      end
  end.

End Methods.
End InMemory.

(** ** Second revision: challenges in Redis, expired by TTL *)

(** [redis/redis.service.ts] over the three Redis commands it sends. *)
Module RedisService.

(** A string key of the Redis keyspace: its value and the instant (in
    milliseconds) at which it expires. *)
Record RedisEntry := mkRedisEntry {
  value : string;
  expireAt : Z
}.

Abbreviation W := (World (gmap string RedisEntry)).

(** [SETEX key seconds value]: refused unless [seconds] is positive;
    otherwise the key is (over)written and expires [seconds] later. *)
Definition SETEX (key : string) (seconds : Z) (v : string)
    : W → Settled unit * W :=
  λ w, if seconds <=? 0
       then (Rejected "ERR invalid expire time in 'setex' command", w)
       else (Resolved tt,
             with_store
               (<[key := mkRedisEntry v (now w + seconds * 1000)]> (store w)) w).

(** A key is there until its expiry instant has passed (Redis tests
    [now > when]). *)
Definition live (w : W) (key : string) : option string :=
  match store w !! key with
  | Some e => if now w <=? expireAt e then Some (value e) else None
  | None => None
  end.

(** [GET key] *)
Definition GET (key : string) : W → option string * W :=
  λ w, (live w key, w).

(** [DEL key]: the number of keys removed. *)
Definition DEL (key : string) : W → Z * W :=
  λ w, (match live w key with Some _ => 1 | None => 0 end,
        with_store (delete key (store w)) w).

(** [setChallenge(key, challenge, ttlSeconds = 300)] *)
Definition setChallenge (key challenge : string) (ttlSeconds : option Z)
    : Async W unit :=
  reply ← await (SETEX key (default 300 ttlSeconds) challenge);
  match reply with
  | Resolved _ => Return tt
  | Rejected message => Throw (ReplyError message)
  end.

(** [getChallenge(key)] *)
Definition getChallenge (key : string) : Async W (option string) :=
  await (GET key).

(** [deleteChallenge(key)] *)
Definition deleteChallenge (key : string) : Async W unit :=
  _ ← await (DEL key);
  Return tt.

End RedisService.

Module RedisBacked.

Abbreviation W := (World (gmap string RedisService.RedisEntry)).

Definition challengeTTL : Z := 300.

(** [getExpectedChallenge(userId, type)]: [async], two [await]s. *)
Definition getExpectedChallenge (userId : string) (type : ChallengeType)
    : Async W string :=
  let key := key_of userId type in
  challenge ← RedisService.getChallenge key;
  if falsy challenge
  then Throw (BadRequestException
                "Challenge not found or expired. Please request new options.")
  else
    _ ← RedisService.deleteChallenge key;
    Return (default EmptyString challenge).
Global Arguments getExpectedChallenge : simpl never.

Section Methods.
Context `{Libraries}.

(** [generateRegistrationOptions(userId)] *)
Definition generateRegistrationOptions (fresh userId : string)
    : Async W RegistrationOptions :=
  user ← attempt (query_by_uuid [userId] (Repository.findUserById userId));
  match user with
  | None => Throw (UnauthorizedException "User not found")
  | Some user =>
      options ← await (call (lib_generateRegistrationOptions fresh user));
      let challengeKey := "reg-" +:+ userId in
      _ ← RedisService.setChallenge challengeKey (ro_challenge options)
            (Some challengeTTL);
      Return options
  end.

(** [verifyRegistration(userId, attestationResponse, deviceType)] *)
Definition verifyRegistration (uuid userId : string)
    (attestationResponse : AuthenticatorResponse) (deviceType : option string)
    : Async W Verified :=
  user ← attempt (query_by_uuid [userId] (Repository.findUserById userId));
  match user with
  | None => Throw (UnauthorizedException "User not found")
  | Some user =>
      expectedChallenge ← getExpectedChallenge userId reg;
      verification ←
        await (call (verifyRegistrationResponse
                       (registrationOpts attestationResponse expectedChallenge)));
      match verification with
      | Rejected message =>
          Throw (BadRequestException ("Verification failed: " +:+ message))
      | Resolved verification =>
          match reg_verified verification, registrationInfo verification with
          | true, Some registrationInfo =>
              _ ← attempt (saveNewCredential uuid (row user)
                           (to_base64url (credentialID registrationInfo))
                           (to_base64 (credentialPublicKey registrationInfo))
                           (info_counter registrationInfo)
                           (or_default deviceType "Unknown")
                           (default false (credentialBackedUp registrationInfo)));
              Return (mkVerified true)
          | _, _ =>
              Throw (BadRequestException "Registration verification failed")
          end
      end
  end.

(** [generateAuthenticationOptions(userId)] *)
Definition generateAuthenticationOptions (fresh userId : string)
    : Async W AuthenticationOptions :=
  user ← attempt (query_by_uuid [userId] (Repository.findUserById userId));
  match user with
  | Some user =>
      match credentials user with
      | [] => Throw (BadRequestException "No credentials found for user")
      | _ :: _ =>
          options ← await (call (lib_generateAuthenticationOptions fresh user));
          let challengeKey := "auth-" +:+ userId in
          _ ← RedisService.setChallenge challengeKey (ao_challenge options)
                (Some challengeTTL);
          Return options
      end
  | None => Throw (BadRequestException "No credentials found for user")
  end.

(** [generateAuthenticationOptionsByEmail(email)] *)
Definition generateAuthenticationOptionsByEmail (fresh mail : string)
    : Async W AuthenticationOptions :=
  user ← await (query (Repository.findUserByEmail mail));
  match user with
  | None => Throw (UnauthorizedException "User not found")
  | Some user =>
      match credentials user with
      | [] => Throw (BadRequestException "No passkeys found for this user")
      | _ :: _ =>
          options ← await (call (lib_generateAuthenticationOptions fresh user));
          let challengeKey := "auth-email-" +:+ mail in
          _ ← RedisService.setChallenge challengeKey (ao_challenge options)
                (Some challengeTTL);
          Return options
      end
  end.

(** [verifyAuthentication(userId, assertionResponse)] *)
Definition verifyAuthentication (userId : string)
    (assertionResponse : AuthenticatorResponse) : Async W Verified :=
  user ← attempt (query_by_uuid [userId] (Repository.findUserById userId));
  match user with
  | None => Throw (UnauthorizedException "User not found")
  | Some user =>
      let credentialId := claimed_credentialId assertionResponse in
      match find_credential credentialId user with
      | None => Throw (BadRequestException "Credential not found")
      | Some credential =>
          expectedChallenge ← getExpectedChallenge userId auth;
          verification ←
            await (call (verifyAuthenticationResponse
                           (authenticationOpts assertionResponse expectedChallenge
                                               credential)));
          match verification with
          | Rejected message =>
              Throw (BadRequestException ("Authentication failed: " +:+ message))
          | Resolved verification =>
              if auth_verified verification
              then
                let credential :=
                  set_counter (newCounter (authenticationInfo verification))
                              credential in
                _ ← attempt (saveCredential credential);
                Return (mkVerified true)
              else
                Throw (BadRequestException "Authentication verification failed")
          end
      end
  end.

(** [verifyAuthenticationByEmail(email, assertionResponse)] *)
Definition verifyAuthenticationByEmail (mail : string)
    (assertionResponse : AuthenticatorResponse) : Async W VerifiedLogin :=
  user ← await (query (Repository.findUserByEmail mail));
  match user with
  | None => Throw (UnauthorizedException "User not found")
  | Some user =>
      let credentialId := claimed_credentialId assertionResponse in
      match find_credential credentialId user with
      | None => Throw (BadRequestException "Credential not found")
      | Some credential =>
          let challengeKey := "auth-email-" +:+ mail in
          expectedChallenge ← RedisService.getChallenge challengeKey;
          if falsy expectedChallenge
          then Throw (BadRequestException
                        "Challenge not found or expired. Please request new options.")
          else
            let expectedChallenge := default EmptyString expectedChallenge in
            _ ← RedisService.deleteChallenge challengeKey;
            verification ←
              await (call (verifyAuthenticationResponse
                             (authenticationOpts assertionResponse expectedChallenge
                                                 credential)));
            match verification with
            | Rejected message =>
                Throw (BadRequestException ("Authentication failed: " +:+ message))
            | Resolved verification =>
                if auth_verified verification
                then
                  let credential :=
                    set_counter (newCounter (authenticationInfo verification))
                                credential in
                  _ ← attempt (saveCredential credential);
                  Return (mkVerifiedLogin true
                            (mkPublicUser (user_id (row user)) (email (row user))
                               (firstName (row user)) (lastName (row user))))
                else
                  Throw (BadRequestException "Authentication verification failed")
            end
      end
  end.

End Methods.
End RedisBacked.

(** ** Histories of the challenge store

    What can happen to a challenge store between two moments: challenges are
    put, challenges are taken, time passes and, in the first revision, the
    sweep timer fires. [play] runs a history and logs what every take
    answered. *)

Module InMemoryHistory.
Import InMemory.

Inductive Event :=
| Put (key c : string) (uid : option string)
| Take (userId : string) (type : ChallengeType)
| Sweep
| Tick (d : N).

Definition TakeLog := list (string * ChallengeType * Outcome string).

Definition play1 (e : Event) (w : W) : TakeLog * W :=
  match e with
  | Put key c uid => ([], (challenges_set key c uid w).2)
  | Take userId type =>
      let '(r, w') := run (getExpectedChallenge userId type) w in
      ([(userId, type, r)], w')
  | Sweep => ([], sweep w)
  | Tick d => ([], tick (Z.of_N d) w)
  end.

Fixpoint play (evs : list Event) (w : W) : TakeLog * W :=
  match evs with
  | [] => ([], w)
  | e :: rest =>
      let '(l1, w1) := play1 e w in
      let '(l2, w2) := play rest w1 in
      (l1 ++ l2, w2)
  end.

Definition puts_on (k : string) (e : Event) : Prop :=
  match e with Put key _ _ => key = k | _ => False end.

Definition takes_on (k : string) (e : Event) : Prop :=
  match e with Take userId type => key_of userId type = k | _ => False end.

(** Milliseconds that pass during a history. *)
Fixpoint elapsed (evs : list Event) : Z :=
  match evs with
  | [] => 0
  | Tick d :: rest => Z.of_N d + elapsed rest
  | _ :: rest => elapsed rest
  end.

End InMemoryHistory.

Module RedisHistory.
Import RedisService RedisBacked.

Inductive Event :=
| Put (key c : string) (ttlSeconds : option Z)
| Take (userId : string) (type : ChallengeType)
| Tick (d : N).

Definition TakeLog := list (string * ChallengeType * Outcome string).

Definition play1 (e : Event) (w : W) : TakeLog * W :=
  match e with
  | Put key c ttl => ([], (run (setChallenge key c ttl) w).2)
  | Take userId type =>
      let '(r, w') := run (getExpectedChallenge userId type) w in
      ([(userId, type, r)], w')
  | Tick d => ([], tick (Z.of_N d) w)
  end.

Fixpoint play (evs : list Event) (w : W) : TakeLog * W :=
  match evs with
  | [] => ([], w)
  | e :: rest =>
      let '(l1, w1) := play1 e w in
      let '(l2, w2) := play rest w1 in
      (l1 ++ l2, w2)
  end.

Definition puts_on (k : string) (e : Event) : Prop :=
  match e with Put key _ _ => key = k | _ => False end.

Definition takes_on (k : string) (e : Event) : Prop :=
  match e with Take userId type => key_of userId type = k | _ => False end.

(** Milliseconds that pass during a history. *)
Fixpoint elapsed (evs : list Event) : Z :=
  match evs with
  | [] => 0
  | Tick d :: rest => Z.of_N d + elapsed rest
  | _ :: rest => elapsed rest
  end.

End RedisHistory.

(** ** The errors of the ceremony, as the exceptions the service throws *)

Definition not_found_InMemory : Exception :=
  BadRequestException "Challenge not found. Please request new options.".

Definition not_found_Redis : Exception :=
  BadRequestException
    "Challenge not found or expired. Please request new options.".

Definition credential_not_found : Exception :=
  BadRequestException "Credential not found".

(** Registration stopped at the verification step: the verifier threw, or
    it answered without [verified] and [registrationInfo]. *)
Definition registration_verification_failed (e : Exception) : Prop :=
  e = BadRequestException "Registration verification failed"
  ∨ ∃ message, e = BadRequestException ("Verification failed: " +:+ message).

(** ** The signature counter *)

(** The counter rule of @simplewebauthn/server: the counter of a response
    is an unsigned 32-bit field, and [verifyAuthenticationResponse] throws
    "Response counter value ... was lower than expected ..." when
    [(counter > 0 || authenticator.counter > 0) && counter <=
    authenticator.counter]; what it resolves with carries that counter as
    [newCounter]. *)
Definition counter_rule `{Libraries} : Prop :=
  ∀ opts verification,
    verifyAuthenticationResponse opts = Resolved verification →
    let counter := newCounter (authenticationInfo verification) in
    let stored := device_counter (authenticator opts) in
    0 ≤ counter ∧ ¬ ((0 < counter ∨ 0 < stored) ∧ counter ≤ stored).

(** Credential ids are a primary key: no two rows hold the same uuid. *)
Definition primary_key (d : Db) : Prop :=
  NoDup ((λ c, Postgres.uuid_value (id c)) <$> creds d).

(** Two credential rows that differ in the counter at most. *)
Definition same_but_counter (a b : Credential) : Prop :=
  id a = id b ∧ credentialId a = credentialId b ∧ publicKey a = publicKey b
  ∧ deviceType a = deviceType b ∧ backedUp a = backedUp b
  ∧ userId a = userId b ∧ createdAt a = createdAt b.

(** The database once the row of [credential] was saved with the counter
    [n]: the users are as before and the table holds that row with the new
    counter next to the rows of the other credentials. The tables are
    compared as multisets, the order in which PostgreSQL lists an updated
    table being its own. *)
Definition counter_saved (credential : Credential) (n : Z)
    (before after : Db) : Prop :=
  users after = users before
  ∧ creds after
    ≡ₚ set_counter n credential
       :: filter (λ row, Postgres.uuid_value (id row)
                         ≠ Postgres.uuid_value (id credential))
                 (creds before).

(** Every credential is still there, with a counter that is not lower. *)
Definition counters_not_lowered (before after : Db) : Prop :=
  ∀ c, c ∈ creds before →
    ∃ c', c' ∈ creds after ∧ same_but_counter c c' ∧ counter c ≤ counter c'.

(** What can happen, one thing after the other, around authentication: the
    four authentication methods are called, time passes, the cleanup timer
    of the first revision fires. *)
Inductive AuthenticationEvent :=
| OptionsById (fresh userId : string)
| OptionsByEmail (fresh mail : string)
| VerifyById (userId : string) (assertionResponse : AuthenticatorResponse)
| VerifyByEmail (mail : string) (assertionResponse : AuthenticatorResponse)
| TimePasses (d : N)
| TimerFires.

Definition InMemory_happens `{Libraries} (e : AuthenticationEvent)
    (w : InMemory.W) : InMemory.W :=
  match e with
  | OptionsById fresh userId =>
      (run (InMemory.generateAuthenticationOptions fresh userId) w).2
  | OptionsByEmail fresh mail =>
      (run (InMemory.generateAuthenticationOptionsByEmail fresh mail) w).2
  | VerifyById userId assertionResponse =>
      (run (InMemory.verifyAuthentication userId assertionResponse) w).2
  | VerifyByEmail mail assertionResponse =>
      (run (InMemory.verifyAuthenticationByEmail mail assertionResponse) w).2
  | TimePasses d => tick (Z.of_N d) w
  | TimerFires => InMemory.sweep w
  end.

(** The second revision has no timer. *)
Definition Redis_happens `{Libraries} (e : AuthenticationEvent)
    (w : RedisBacked.W) : RedisBacked.W :=
  match e with
  | OptionsById fresh userId =>
      (run (RedisBacked.generateAuthenticationOptions fresh userId) w).2
  | OptionsByEmail fresh mail =>
      (run (RedisBacked.generateAuthenticationOptionsByEmail fresh mail) w).2
  | VerifyById userId assertionResponse =>
      (run (RedisBacked.verifyAuthentication userId assertionResponse) w).2
  | VerifyByEmail mail assertionResponse =>
      (run (RedisBacked.verifyAuthenticationByEmail mail assertionResponse) w).2
  | TimePasses d => tick (Z.of_N d) w
  | TimerFires => w
  end.

(** ** Databases that differ in password hashes only *)

Definition forget_password (u : User) : User :=
  mkUser (user_id u) (firstName u) (lastName u) (email u) EmptyString
         (user_createdAt u).

Definition same_but_passwords (d d' : Db) : Prop :=
  map forget_password (users d) = map forget_password (users d')
  ∧ creds d = creds d'.

(** Two loaded users that differ in the password hash at most. *)
Definition alike (a b : option LoadedUser) : Prop :=
  match a, b with
  | Some a, Some b =>
      forget_password (row a) = forget_password (row b)
      ∧ credentials a = credentials b
  | None, None => True
  | _, _ => False
  end.

(** ** Two requests at once

    The schedule in which the event loop resumes two requests in turn: each
    [await] of the first is followed by the same [await] of the second. *)
Definition alternate : list bool :=
  [false; true; false; true; false; true; false; true; false; true].

(** A request that no longer touches the challenge store, whatever its
    collaborators answer. *)
Fixpoint store_free {V A} (m : Async (World (gmap string V)) A) : Prop :=
  match m with
  | Return _ | Throw _ => True
  | Sync act k | Await act k =>
      (∀ s, store (act s).2 = store s) ∧ ∀ x, store_free (k x)
  end.

(** A request that has thrown. *)
Definition dead {St A} (m : Async St A) : Prop :=
  match m with Throw _ => True | _ => False end.

(** A request whose first resumption either throws, leaving the store as it
    is, or finds a record under [k] and deletes it, and which leaves the
    store alone from then on. *)
Definition takes_first {V A} (k : string)
    (m : Async (World (gmap string V)) A) : Prop :=
  answer m = None
  ∧ ∀ s, store_free (resume m s).1
         ∧ ((dead (resume m s).1 ∧ store (resume m s).2 = store s)
            ∨ (is_Some (store s !! k) ∧ store (resume m s).2 !! k = None)).

Definition returned {A} (o : option (Outcome A)) : bool :=
  match o with Some (Returned _) => true | _ => false end.

(** ** A small deployment to run the service on *)

Module Demo.

(** *** Buffer's base64 codecs

    [Buffer.from(s, "base64")] and [Buffer.from(s, "base64url")] read both
    alphabets, skip what belongs to neither and stop at the first [=];
    bits left over at the end are dropped. *)
Definition sextet (c : Ascii.ascii) : option N :=
  let n := Ascii.N_of_ascii c in
  if (65 <=? n)%N && (n <=? 90)%N then Some (n - 65)%N
  else if (97 <=? n)%N && (n <=? 122)%N then Some (n - 71)%N
  else if (48 <=? n)%N && (n <=? 57)%N then Some (n + 4)%N
  else if (n =? 45)%N || (n =? 43)%N then Some 62%N
  else if (n =? 95)%N || (n =? 47)%N then Some 63%N
  else None.

Fixpoint sextets (s : string) : list N :=
  match s with
  | EmptyString => []
  | String c rest =>
      if Ascii.eqb c "="%char then []
      else match sextet c with
           | Some n => n :: sextets rest
           | None => sextets rest
           end
  end.

Fixpoint octets (l : list N) : list N :=
  match l with
  | a :: b :: c :: d :: rest =>
      (a * 4 + b / 16)%N :: ((b mod 16) * 16 + c / 4)%N
      :: ((c mod 4) * 64 + d)%N :: octets rest
  | [a; b; c] => [(a * 4 + b / 16)%N; ((b mod 16) * 16 + c / 4)%N]
  | [a; b] => [(a * 4 + b / 16)%N]
  | _ => []
  end.

Definition byte_of (n : N) : Byte.byte := default Byte.x00 (Byte.of_N n).

Definition decode (s : string) : list Byte.byte :=
  byte_of <$> octets (sextets s).

Definition digit (url : bool) (i : N) : Ascii.ascii :=
  if (i <? 26)%N then Ascii.ascii_of_N (i + 65)
  else if (i <? 52)%N then Ascii.ascii_of_N (i + 71)
  else if (i <? 62)%N then Ascii.ascii_of_N (i - 4)
  else if (i =? 62)%N then (if url then "-"%char else "+"%char)
  else (if url then "_"%char else "/"%char).

(** [buf.toString("base64url")] ([url], no padding) and
    [buf.toString("base64")]. *)
Fixpoint encode_octets (url : bool) (l : list N) : string :=
  match l with
  | a :: b :: c :: rest =>
      String (digit url (a / 4))
        (String (digit url ((a mod 4) * 16 + b / 16))
           (String (digit url ((b mod 16) * 4 + c / 64))
              (String (digit url (c mod 64)) (encode_octets url rest))))
  | [a; b] =>
      String (digit url (a / 4))
        (String (digit url ((a mod 4) * 16 + b / 16))
           (String (digit url ((b mod 16) * 4))
              (if url then EmptyString else "=")))
  | [a] =>
      String (digit url (a / 4))
        (String (digit url ((a mod 4) * 16))
           (if url then EmptyString else "=="))
  | [] => EmptyString
  end.

Definition encode (url : bool) (l : list Byte.byte) : string :=
  encode_octets url (Byte.to_N <$> l).

(** *** [String.prototype.trim] on the white space of ASCII *)
Definition white (c : Ascii.ascii) : bool :=
  let n := Ascii.N_of_ascii c in
  ((9 <=? n)%N && (n <=? 13)%N) || (n =? 32)%N.

Fixpoint trim_start (s : list Ascii.ascii) : list Ascii.ascii :=
  match s with
  | c :: rest => if white c then trim_start rest else s
  | [] => []
  end.

Definition trim_ascii (s : string) : string :=
  string_of_list_ascii
    (rev (trim_start (rev (trim_start (list_ascii_of_string s))))).

Definition quoted (s : string) : string :=
  String (Ascii.ascii_of_nat 34) s +:+ String (Ascii.ascii_of_nat 34) EmptyString.

Definition decimal (n : Z) : string := NilZero.string_of_int (Z.to_int n).

(** Stand-ins for the libraries. A response is the credential id and the
    challenge it was signed over, [reported] is the counter the
    authenticator signed (an unsigned 32-bit field). The verifier checks
    the challenge, then the counter by its rule, and accepts the signature;
    at registration it hands the credential id of the response back as
    bytes. bcrypt's hash is a prefix. Buffer and [trim] are as above. *)
Definition libraries (reported : Z) : Libraries := {|
  verifyRegistrationResponse opts :=
    if String.eqb (response_body (reg_response opts)) (reg_expectedChallenge opts)
    then Resolved (mkVerifiedRegistration true
           (Some (mkRegistrationInfo
                    (decode (response_id (reg_response opts)))
                    (list_byte_of_string "pk-new")
                    (reported mod 4294967296) None)))
    else Rejected ("Unexpected registration response challenge "
                   +:+ quoted (response_body (reg_response opts))
                   +:+ ", expected " +:+ quoted (reg_expectedChallenge opts));
  verifyAuthenticationResponse opts :=
    let counter := reported mod 4294967296 in
    let stored := device_counter (authenticator opts) in
    if negb (String.eqb (response_body (auth_response opts))
                        (auth_expectedChallenge opts))
    then Rejected ("Unexpected authentication response challenge "
                   +:+ quoted (response_body (auth_response opts))
                   +:+ ", expected " +:+ quoted (auth_expectedChallenge opts))
    else if ((0 <? counter) || (0 <? stored)) && (counter <=? stored)
    then Rejected ("Response counter value " +:+ decimal counter
                   +:+ " was lower than expected " +:+ decimal stored)
    else Resolved (mkVerifiedAuthentication true (mkAuthenticationInfo counter));
  bcrypt_hash p rounds := "hash:" +:+ p;
  bcrypt_compare p h := String.eqb ("hash:" +:+ p) h;
  from_base64url := decode;
  from_base64 := decode;
  from_utf8 := list_byte_of_string;
  to_base64url := encode true;
  to_base64 := encode false;
  trim := trim_ascii;
  env_ORIGIN := None
|}.

(** The ids PostgreSQL generated. *)
Definition u1 : string := "11111111-1111-4111-8111-111111111111".
Definition u2 : string := "22222222-2222-4222-8222-222222222222".
Definition u3 : string := "33333333-3333-4333-8333-333333333333".
Definition k1 : string := "aaaaaaaa-aaaa-4aaa-8aaa-aaaaaaaaaaa1".
Definition k2 : string := "aaaaaaaa-aaaa-4aaa-8aaa-aaaaaaaaaaa2".
Definition k8 : string := "aaaaaaaa-aaaa-4aaa-8aaa-aaaaaaaaaaa8".
Definition k9 : string := "aaaaaaaa-aaaa-4aaa-8aaa-aaaaaaaaaaa9".
(** A uuid no row has. *)
Definition u404 : string := "40440440-4404-4404-8404-404404404404".

(** Credential ids, as base64url. *)
Definition cred1 : string := "Y3JlZC0x".
Definition cred2 : string := "Y3JlZC0y".
Definition cred9 : string := "Y3JlZC05".

Definition alice : User :=
  mkUser u1 "Alice" "Liddell" "alice@example.com" "hash:rabbit" 0.

Definition bob : User :=
  mkUser u2 "Bob" "Builder" "bob@example.com" "hash:hammer" 0.

(** Alice's passkey, with [stored] as its counter. *)
Definition passkey (stored : Z) : Credential :=
  mkCredential k1 cred1 "cGstMQ==" stored "Desktop" (Some false) u1 0.

(** Bob's passkey. *)
Definition passkey_of_bob : Credential :=
  mkCredential k2 cred2 "cGstMg==" 7 "iOS Device" (Some true) u2 0.

Definition database (stored : Z) : Db :=
  mkDb [alice; bob] [passkey stored; passkey_of_bob].

(** The same database after Alice changed her password. *)
Definition database_rehashed (stored : Z) : Db :=
  mkDb [mkUser u1 "Alice" "Liddell" "alice@example.com" "hash:queen" 0; bob]
       [passkey stored; passkey_of_bob].

Definition memory (stored : Z) : InMemory.W := mkWorld (database stored) ∅ 0.

Definition redis (stored : Z) : RedisBacked.W := mkWorld (database stored) ∅ 0.

(** The counter stored in the row with primary key [cid]. *)
Definition counter_of (cid : string) (d : Db) : option Z :=
  counter <$> List.find (λ c, Repository.same_id (id c) cid) (creds d).

(** The answer of the authenticator holding [credId], signed over
    [challenge]. *)
Definition signed (credId challenge : string) : AuthenticatorResponse :=
  mkResponse credId challenge.

End Demo.

(** ** The rest of [redis/redis.service.ts] *)

Module RedisClient.
Import RedisService.

(** The [retryStrategy] the constructor gives ioredis:
    [Math.min(times * 50, 2000)], in milliseconds. *)
Definition retryStrategy (times : Z) : Z := Z.min (times * 50) 2000.

(** [EXISTS key] *)
Definition EXISTS (key : string) : W → Z * W :=
  λ w, (match live w key with Some _ => 1 | None => 0 end, w).

(** [exists(key)] *)
Definition exists_ (key : string) : Async W bool :=
  result ← await (EXISTS key);
  Return (result =? 1).

End RedisClient.

(** ** [frontend/src/pages/Dashboard.tsx]: the device label sent along with
    a registration *)

Module Dashboard.

(** [hay.includes(needle)] *)
Fixpoint includes (needle hay : string) : bool :=
  String.prefix needle hay
  || match hay with
     | EmptyString => false
     | String _ rest => includes needle rest
     end.

(** The [deviceType] computed in [handleAddPasskey] from
    [navigator.userAgent]. *)
Definition deviceType (userAgent : string) : string :=
  if includes "iPhone" userAgent || includes "iPad" userAgent
  then "iOS Device"
  else if includes "Android" userAgent
       then "Android Device"
       else "Desktop".

End Dashboard.

(** ** What a request leaves alone *)

(** Every action of the request, whatever the collaborators answer, takes a
    state to one related to it by [I]. *)
Fixpoint preserves {St A} (I : St → St → Prop) (m : Async St A) : Prop :=
  match m with
  | Return _ | Throw _ => True
  | Sync act k | Await act k =>
      (∀ s, I s (act s).2) ∧ ∀ x, preserves I (k x)
  end.

(** The users table is the same. *)
Definition same_users {C} (w w' : World C) : Prop :=
  users (db w') = users (db w).

(** The database is the same. *)
Definition same_db {C} (w w' : World C) : Prop := db w' = db w.

(** The challenge store holds the same under every key but [k]. *)
Definition same_store_but {V} (k : string) (w w' : World (gmap string V))
    : Prop :=
  ∀ k', k' ≠ k → store w' !! k' = store w !! k'.

(** Every row that was there is still there, unchanged and in place; rows
    may have been appended. *)
Definition rows_kept {C} (w w' : World C) : Prop :=
  users (db w') = users (db w)
  ∧ ∃ added, creds (db w') = creds (db w) ++ added.

(** ** What the methods compute, step by step

    The outcome and world of the part of [verifyAuthentication] and
    [verifyAuthenticationByEmail] that follows the taking of the challenge:
    [w1] is the world once the challenge [c] is taken, [ret] the value
    returned on success. *)
Definition authentication_result `{Libraries} {C A : Type}
    (assertionResponse : AuthenticatorResponse) (c : string)
    (credential : Credential) (ret : A) (w1 : World C)
    : Outcome A * World C :=
  match verifyAuthenticationResponse
          (authenticationOpts assertionResponse c credential) with
  | Rejected message =>
      (Thrown (BadRequestException ("Authentication failed: " +:+ message)),
       w1)
  | Resolved verification =>
      if auth_verified verification
      then
        let reported := newCounter (authenticationInfo verification) in
        if Postgres.int4 reported
        then (Returned ret,
              with_db (Repository.updateCredential
                         (set_counter reported credential) (db w1)) w1)
        else (Thrown (QueryFailedError (integer_out_of_range reported)), w1)
      else (Thrown (BadRequestException "Authentication verification failed"),
            w1)
  end.

(** The same for [verifyRegistration]. *)
Definition registration_result `{Libraries} {C : Type}
    (uuid : string) (owner : User)
    (attestationResponse : AuthenticatorResponse) (c : string)
    (deviceType : option string) (w1 : World C)
    : Outcome Verified * World C :=
  match verifyRegistrationResponse
          (registrationOpts attestationResponse c) with
  | Rejected message =>
      (Thrown (BadRequestException ("Verification failed: " +:+ message)), w1)
  | Resolved verification =>
      match reg_verified verification, registrationInfo verification with
      | true, Some info =>
          if Postgres.int4 (info_counter info)
          then
            (Returned (mkVerified true),
             with_db (Repository.insertCredential
                        (mkCredential uuid (to_base64url (credentialID info))
                           (to_base64 (credentialPublicKey info))
                           (info_counter info)
                           (or_default deviceType "Unknown")
                           (Some (default false (credentialBackedUp info)))
                           (user_id owner) (now w1))
                        (db w1)) w1)
          else (Thrown (QueryFailedError
                          (integer_out_of_range (info_counter info))), w1)
      | _, _ =>
          (Thrown (BadRequestException "Registration verification failed"),
           w1)
      end
  end.

(** Authentication stopped at the verification step: the verifier threw, or
    it answered without [verified]. *)
Definition authentication_verification_failed (e : Exception) : Prop :=
  e = BadRequestException "Authentication verification failed"
  ∨ ∃ message, e = BadRequestException ("Authentication failed: " +:+ message).

(** What a completed authentication ceremony leaves behind, [w] being the
    world it started in and [r] its result. The challenge under [key] is
    gone. When the counter [reported] by the verifier fits the [integer]
    column, [ret] is returned and the row of [credential] carries
    [reported]; when it does not fit, the update fails with
    [QueryFailedError] and the database is as before. *)
Definition authenticated {V A} (key : string) (credential : Credential)
    (reported : Z) (ret : A) (w : World (gmap string V))
    (r : Outcome A * World (gmap string V)) : Prop :=
  store r.2 = delete key (store w)
  ∧ now r.2 = now w
  ∧ if Postgres.int4 reported
    then r.1 = Returned ret
         ∧ counter_saved credential reported (db w) (db r.2)
    else r.1 = Thrown (QueryFailedError (integer_out_of_range reported))
         ∧ db r.2 = db w.

(** ** The two revisions side by side *)

(** The in-process map and Redis hold the same challenges at the instant
    [t]: under every key both hold nothing, or both hold the same non-empty
    challenge and the Redis key has not expired. *)
Definition same_challenges (t : Z)
    (m : gmap string InMemory.ChallengeEntry)
    (r : gmap string RedisService.RedisEntry) : Prop :=
  ∀ k, match m !! k, r !! k with
       | Some e, Some x =>
           InMemory.challenge e = RedisService.value x
           ∧ t ≤ RedisService.expireAt x
           ∧ falsy_string (RedisService.value x) = false
       | None, None => True
       | _, _ => False
       end.

(** A deployment of the first revision and one of the second in the same
    situation. *)
Definition agree (m : InMemory.W) (r : RedisBacked.W) : Prop :=
  db m = db r ∧ now m = now r ∧ same_challenges (now r) (store m) (store r).

(** The same answer, up to the wording of the challenge-not-found message,
    which differs between the revisions. *)
Definition same_answer {A} (o1 o2 : Outcome A) : Prop :=
  match o1, o2 with
  | Returned a, Returned b => a = b
  | Thrown e1, Thrown e2 =>
      e1 = e2 ∨ (e1 = not_found_InMemory ∧ e2 = not_found_Redis)
  | _, _ => False
  end.

(** * Properties *)

(** ** Running asynchronous methods *)

Lemma run_bind {St A B} (m : Async St A) (f : A → Async St B) (s : St) :
  run (m ≫= f) s =
  match run m s with
  | (Returned a, s') => run (f a) s'
  | (Thrown e, s') => (Thrown e, s')
  end.
Proof.
  revert s. induction m as [a|e|X act k IH|X act k IH]; intros s; cbn;
    try reflexivity.
  - destruct (act s) as [x s']. apply IH.
  - destruct (act s) as [x s']. apply IH.
Qed.

(** ** The in-process challenge map *)

Module InMemoryFacts.
Import InMemory InMemoryHistory.

Lemma mem_take_found (w : W) userId type e :
  store w !! key_of userId type = Some e →
  run (getExpectedChallenge userId type) w
  = (Returned (challenge e),
     with_store (delete (key_of userId type) (store w)) w).
Proof. intros E. unfold getExpectedChallenge. cbn. rewrite E. reflexivity. Qed.

Lemma mem_take_missing (w : W) userId type :
  store w !! key_of userId type = None →
  run (getExpectedChallenge userId type) w = (Thrown not_found_InMemory, w).
Proof. intros E. unfold getExpectedChallenge. cbn. rewrite E. reflexivity. Qed.

(** A take answers with the stored challenge or with the not-found error,
    and touches no key but its own. *)
Lemma mem_take_other (w : W) userId type k :
  key_of userId type ≠ k →
  store (run (getExpectedChallenge userId type) w).2 !! k = store w !! k.
Proof.
  intros Hk. destruct (store w !! key_of userId type) as [e|] eqn:E.
  - rewrite (mem_take_found _ _ _ _ E). cbn. by rewrite lookup_delete_ne.
  - by rewrite (mem_take_missing _ _ _ E).
Qed.

Lemma mem_take_now (w : W) userId type :
  now (run (getExpectedChallenge userId type) w).2 = now w.
Proof.
  destruct (store w !! key_of userId type) as [e|] eqn:E.
  - by rewrite (mem_take_found _ _ _ _ E).
  - by rewrite (mem_take_missing _ _ _ E).
Qed.

Lemma mem_take_keeps_missing (w : W) userId type k :
  store w !! k = None →
  store (run (getExpectedChallenge userId type) w).2 !! k = None.
Proof.
  intros Hk. destruct (store w !! key_of userId type) as [e|] eqn:E.
  - rewrite (mem_take_found _ _ _ _ E). cbn.
    rewrite lookup_delete. case_decide; done.
  - by rewrite (mem_take_missing _ _ _ E).
Qed.

Lemma mem_sweep_lookup (w : W) k :
  store (sweep w) !! k
  = match store w !! k with
    | Some e => if decide (now w - timestamp e ≤ expirationTime)
                then Some e else None
    | None => None
    end.
Proof.
  unfold sweep. cbn. destruct (store w !! k) as [e|] eqn:E.
  - case_decide as D.
    + apply map_lookup_filter_Some. done.
    + apply map_lookup_filter_None. right. intros e' E'.
      rewrite E in E'. injection E' as <-. done.
  - apply map_lookup_filter_None. left. done.
Qed.

Lemma mem_elapsed_nonneg evs : 0 ≤ elapsed evs.
Proof. induction evs as [|[] ? IH]; cbn; lia. Qed.

Lemma mem_play_cons e evs (w : W) :
  play (e :: evs) w
  = ((play1 e w).1 ++ (play evs (play1 e w).2).1, (play evs (play1 e w).2).2).
Proof.
  cbn [play]. destruct (play1 e w) as [l1 w1]. cbn.
  destruct (play evs w1) as [l2 w2]. reflexivity.
Qed.

(** While nobody puts or takes on [k] and less than the expiration time has
    passed since the record was written, the record stays. *)
Lemma mem_play_keeps k evs : ∀ (w : W) e,
  Forall (λ ev, ¬ puts_on k ev ∧ ¬ takes_on k ev) evs →
  store w !! k = Some e →
  now w - timestamp e + elapsed evs ≤ expirationTime →
  store (play evs w).2 !! k = Some e.
Proof.
  induction evs as [|ev evs IH]; intros w e Hq Hs Ht; [done|].
  apply Forall_cons in Hq as [[Hp Hk] Hq].
  rewrite mem_play_cons. cbn [snd].
  pose proof (mem_elapsed_nonneg evs) as Hn.
  destruct ev as [key c uid|userId type| |d]; cbn [play1 elapsed] in *.
  - apply IH; [done| |done]. cbn. by rewrite lookup_insert_ne.
  - destruct (run (getExpectedChallenge userId type) w) as [r w'] eqn:R.
    cbn [snd]. apply IH; [done| |].
    + change w' with (r, w').2. rewrite <- R. by rewrite mem_take_other.
    + change w' with (r, w').2. rewrite <- R. by rewrite mem_take_now.
  - apply IH; [done| |done]. cbn [snd].
    rewrite mem_sweep_lookup, Hs. rewrite decide_True; [done|lia].
  - apply IH; [done|done|]. cbn. lia.
Qed.

(** A take logged during a history none of whose takes is on [k] is not
    on [k]. *)
Lemma mem_play_log_quiet k evs : ∀ (w : W),
  Forall (λ ev, ¬ takes_on k ev) evs →
  Forall (λ '(u, t, _), key_of u t ≠ k) (play evs w).1.
Proof.
  induction evs as [|ev evs IH]; intros w Hq; [by constructor|].
  apply Forall_cons in Hq as [Hk Hq].
  rewrite mem_play_cons. cbn [fst]. apply Forall_app. split; [|by apply IH].
  destruct ev as [key c uid|userId type| |d]; cbn [play1]; try by constructor.
  destruct (run (getExpectedChallenge userId type) w) as [r w'].
  repeat constructor. exact Hk.
Qed.

(** Once the record of [k] is gone it stays gone until somebody puts on [k],
    and every take on [k] meanwhile fails with the not-found error. *)
Lemma mem_play_missing k evs : ∀ (w : W),
  Forall (λ ev, ¬ puts_on k ev) evs →
  store w !! k = None →
  store (play evs w).2 !! k = None
  ∧ Forall (λ '(u, t, r), key_of u t = k → r = Thrown not_found_InMemory)
           (play evs w).1.
Proof.
  induction evs as [|ev evs IH]; intros w Hq Hs; [by split; [|constructor]|].
  apply Forall_cons in Hq as [Hp Hq].
  rewrite mem_play_cons. cbn [fst snd].
  assert (store (play1 ev w).2 !! k = None
          ∧ Forall (λ '(u, t, r), key_of u t = k → r = Thrown not_found_InMemory)
                   (play1 ev w).1) as [Hs1 Hl1].
  { destruct ev as [key c uid|userId type| |d]; cbn [play1] in *.
    - split; [|by constructor]. cbn. by rewrite lookup_insert_ne.
    - destruct (run (getExpectedChallenge userId type) w) as [r w'] eqn:R.
      split.
      + cbn [snd]. change w' with (r, w').2. rewrite <- R.
        by apply mem_take_keeps_missing.
      + repeat constructor. intros Hk. rewrite <- Hk in Hs.
        rewrite (mem_take_missing _ _ _ Hs) in R. congruence.
    - split; [|by constructor]. cbn [snd]. by rewrite mem_sweep_lookup, Hs.
    - by split; [|constructor]. }
  destruct (IH _ Hq Hs1) as [Hs2 Hl2].
  split; [done|]. by apply Forall_app.
Qed.

(** Whatever time passes, a record nobody puts or takes on is still the
    same record, or gone. *)
Lemma mem_play_keeps_or_drops k evs : ∀ (w : W) e,
  Forall (λ ev, ¬ puts_on k ev ∧ ¬ takes_on k ev) evs →
  store w !! k = Some e →
  store (play evs w).2 !! k = Some e ∨ store (play evs w).2 !! k = None.
Proof.
  induction evs as [|ev evs IH]; intros w e Hq Hs; [by left|].
  apply Forall_cons in Hq as [[Hp Hk] Hq].
  rewrite mem_play_cons. cbn [snd].
  destruct ev as [key c uid|userId type| |d]; cbn [play1] in *.
  - apply IH; [done|]. cbn. by rewrite lookup_insert_ne.
  - destruct (run (getExpectedChallenge userId type) w) as [r w'] eqn:R.
    cbn [snd]. apply IH; [done|].
    change w' with (r, w').2. rewrite <- R. by rewrite mem_take_other.
  - cbn [snd]. pose proof (mem_sweep_lookup w k) as S. rewrite Hs in S.
    case_decide.
    + by apply IH.
    + right. apply mem_play_missing; [|done].
      eapply Forall_impl; [exact Hq|]. by intros ? [? _].
  - by apply IH.
Qed.

(** After [put], with less than the expiration time gone and nobody else
    putting or taking on the key, the take answers with the challenge put
    and removes the record. *)
Lemma mem_take_after_put (w : W) userId type c uid evs :
  let k := key_of userId type in
  let w2 := (play evs (challenges_set k c uid w).2).2 in
  Forall (λ ev, ¬ puts_on k ev ∧ ¬ takes_on k ev) evs →
  elapsed evs ≤ expirationTime →
  run (getExpectedChallenge userId type) w2
  = (Returned c, with_store (delete k (store w2)) w2).
Proof.
  intros k w2 Hq Ht.
  assert (store w2 !! k = Some (mkEntry c (now w) uid)) as E.
  { apply mem_play_keeps; [done| |].
    - cbn. by rewrite lookup_insert_eq.
    - cbn. lia. }
  exact (mem_take_found w2 userId type _ E).
Qed.

(** Whenever it is made, the take after [put] answers with the challenge
    put or with the not-found error. *)
Lemma mem_take_after_put_any_time (w : W) userId type c uid evs :
  let k := key_of userId type in
  let w2 := (play evs (challenges_set k c uid w).2).2 in
  Forall (λ ev, ¬ puts_on k ev ∧ ¬ takes_on k ev) evs →
  (run (getExpectedChallenge userId type) w2).1 = Returned c
  ∨ (run (getExpectedChallenge userId type) w2).1 = Thrown not_found_InMemory.
Proof.
  intros k w2 Hq.
  destruct (mem_play_keeps_or_drops k evs (challenges_set k c uid w).2
              (mkEntry c (now w) uid) Hq) as [E|E].
  - cbn. by rewrite lookup_insert_eq.
  - left. exact (f_equal fst (mem_take_found w2 userId type _ E)).
  - right. exact (f_equal fst (mem_take_missing w2 userId type E)).
Qed.

Lemma mem_play_app evs1 evs2 (w : W) :
  play (evs1 ++ evs2) w
  = ((play evs1 w).1 ++ (play evs2 (play evs1 w).2).1,
     (play evs2 (play evs1 w).2).2).
Proof.
  revert w. induction evs1 as [|ev evs1 IH]; intros w.
  - cbn. by destruct (play evs2 w).
  - rewrite <- app_comm_cons, !mem_play_cons, IH. cbn [fst snd].
    by rewrite app_assoc.
Qed.

(** One put, one successful take: in a history where [k] is put once, left
    alone for no longer than the expiration time, taken, and not put again,
    the first take on [k] answers with the challenge put and every later
    take on [k] fails with the not-found error. *)
Lemma mem_take_once (w : W) userId type c uid before after :
  let k := key_of userId type in
  Forall (λ ev, ¬ puts_on k ev ∧ ¬ takes_on k ev) before →
  elapsed before ≤ expirationTime →
  Forall (λ ev, ¬ puts_on k ev) after →
  ∃ log1 log2,
    (play (Put k c uid :: before ++ Take userId type :: after) w).1
    = log1 ++ (userId, type, Returned c) :: log2
    ∧ Forall (λ '(u, t, _), key_of u t ≠ k) log1
    ∧ Forall (λ '(u, t, r), key_of u t = k → r = Thrown not_found_InMemory)
             log2.
Proof.
  intros k Hq Ht Ha.
  pose proof (mem_take_after_put w userId type c uid before Hq Ht) as R.
  cbn zeta in R. fold k in R.
  set (w1 := (challenges_set k c uid w).2) in *.
  set (w2 := (play before w1).2) in *.
  exists (play before w1).1, (play after (with_store (delete k (store w2)) w2)).1.
  split; [|split].
  - rewrite mem_play_cons. cbn [play1 fst snd app]. fold w1.
    rewrite mem_play_app. cbn [fst]. f_equal.
    rewrite mem_play_cons. cbn [play1 fst snd]. fold w2. rewrite R. reflexivity.
  - apply mem_play_log_quiet. eapply Forall_impl; [exact Hq|]. by intros ? [_ ?].
  - apply mem_play_missing; [done|]. cbn. apply lookup_delete_eq.
Qed.

End InMemoryFacts.

(** ** The Redis challenge store *)

Module RedisFacts.
Import RedisService RedisBacked RedisHistory.

Lemma redis_put_accepted (w : W) key c ttl :
  0 < default 300 ttl →
  run (setChallenge key c ttl) w
  = (Returned tt,
     with_store
       (<[key := mkRedisEntry c (now w + default 300 ttl * 1000)]> (store w)) w).
Proof.
  intros Hp. unfold setChallenge, SETEX. cbn.
  destruct (Z.leb_spec (default 300 ttl) 0); [lia|reflexivity].
Qed.

Lemma redis_put_refused (w : W) key c ttl :
  default 300 ttl ≤ 0 →
  run (setChallenge key c ttl) w
  = (Thrown (ReplyError "ERR invalid expire time in 'setex' command"), w).
Proof.
  intros Hp. unfold setChallenge, SETEX. cbn.
  destruct (Z.leb_spec (default 300 ttl) 0); [reflexivity|lia].
Qed.

Lemma redis_take_live (w : W) userId type c :
  live w (key_of userId type) = Some c →
  falsy_string c = false →
  run (getExpectedChallenge userId type) w
  = (Returned c, with_store (delete (key_of userId type) (store w)) w).
Proof.
  intros E F. unfold getExpectedChallenge. cbn. rewrite E. cbn.
  rewrite F. reflexivity.
Qed.

Lemma redis_take_dead (w : W) userId type :
  live w (key_of userId type) = None →
  run (getExpectedChallenge userId type) w = (Thrown not_found_Redis, w).
Proof. intros E. unfold getExpectedChallenge. cbn. rewrite E. reflexivity. Qed.

Lemma redis_take_empty (w : W) userId type c :
  live w (key_of userId type) = Some c →
  falsy_string c = true →
  run (getExpectedChallenge userId type) w = (Thrown not_found_Redis, w).
Proof.
  intros E F. unfold getExpectedChallenge. cbn. rewrite E. cbn.
  rewrite F. reflexivity.
Qed.

(** The three ways a take can go. *)
Lemma redis_take_cases (w : W) userId type :
  (∃ c, live w (key_of userId type) = Some c ∧ falsy_string c = false
        ∧ run (getExpectedChallenge userId type) w
          = (Returned c, with_store (delete (key_of userId type) (store w)) w))
  ∨ run (getExpectedChallenge userId type) w = (Thrown not_found_Redis, w).
Proof.
  destruct (live w (key_of userId type)) as [c|] eqn:E.
  - destruct (falsy_string c) eqn:F.
    + right. by eapply redis_take_empty.
    + left. exists c. by rewrite (redis_take_live _ _ _ _ E F).
  - right. by apply redis_take_dead.
Qed.

Lemma redis_take_other (w : W) userId type k :
  key_of userId type ≠ k →
  store (run (getExpectedChallenge userId type) w).2 !! k = store w !! k.
Proof.
  intros Hk. destruct (redis_take_cases w userId type) as [(c & _ & _ & R)|R];
    rewrite R; cbn; [by rewrite lookup_delete_ne|done].
Qed.

Lemma redis_take_now (w : W) userId type :
  now (run (getExpectedChallenge userId type) w).2 = now w.
Proof.
  destruct (redis_take_cases w userId type) as [(c & _ & _ & R)|R]; by rewrite R.
Qed.

Lemma redis_take_keeps_missing (w : W) userId type k :
  store w !! k = None →
  store (run (getExpectedChallenge userId type) w).2 !! k = None.
Proof.
  intros Hk. destruct (redis_take_cases w userId type) as [(c & _ & _ & R)|R];
    rewrite R; cbn; [|done].
  rewrite lookup_delete. case_decide; done.
Qed.

Lemma redis_put_other (w : W) key c ttl k :
  key ≠ k →
  store (run (setChallenge key c ttl) w).2 !! k = store w !! k.
Proof.
  intros Hk. destruct (Z.lt_ge_cases 0 (default 300 ttl)) as [Hp|Hp].
  - rewrite redis_put_accepted by done. cbn. by rewrite lookup_insert_ne.
  - by rewrite redis_put_refused.
Qed.

Lemma redis_put_now (w : W) key c ttl :
  now (run (setChallenge key c ttl) w).2 = now w.
Proof.
  destruct (Z.lt_ge_cases 0 (default 300 ttl)) as [Hp|Hp].
  - by rewrite redis_put_accepted.
  - by rewrite redis_put_refused.
Qed.

Lemma redis_elapsed_nonneg evs : 0 ≤ elapsed evs.
Proof. induction evs as [|[] ? IH]; cbn; lia. Qed.

Lemma redis_play_cons e evs (w : W) :
  play (e :: evs) w
  = ((play1 e w).1 ++ (play evs (play1 e w).2).1, (play evs (play1 e w).2).2).
Proof.
  cbn [play]. destruct (play1 e w) as [l1 w1]. cbn.
  destruct (play evs w1) as [l2 w2]. reflexivity.
Qed.

(** The clock only moves with the ticks. *)
Lemma redis_play_now evs : ∀ (w : W), now (play evs w).2 = now w + elapsed evs.
Proof.
  induction evs as [|ev evs IH]; intros w; [cbn; lia|].
  rewrite redis_play_cons. cbn [snd]. rewrite IH.
  destruct ev as [key c ttl|userId type|d]; cbn [play1 elapsed].
  - cbn [snd]. by rewrite redis_put_now.
  - destruct (run (getExpectedChallenge userId type) w) as [r w'] eqn:R.
    cbn [snd]. change w' with (r, w').2. rewrite <- R. by rewrite redis_take_now.
  - cbn. lia.
Qed.

(** Nothing but a put or a take on [k] touches the entry of [k]. *)
Lemma redis_play_keeps k evs : ∀ (w : W),
  Forall (λ ev, ¬ puts_on k ev ∧ ¬ takes_on k ev) evs →
  store (play evs w).2 !! k = store w !! k.
Proof.
  induction evs as [|ev evs IH]; intros w Hq; [done|].
  apply Forall_cons in Hq as [[Hp Hk] Hq].
  rewrite redis_play_cons. cbn [snd]. rewrite IH by done.
  destruct ev as [key c ttl|userId type|d]; cbn [play1] in *.
  - cbn [snd]. by apply redis_put_other.
  - destruct (run (getExpectedChallenge userId type) w) as [r w'] eqn:R.
    cbn [snd]. change w' with (r, w').2. rewrite <- R. by apply redis_take_other.
  - done.
Qed.

Lemma redis_play_log_quiet k evs : ∀ (w : W),
  Forall (λ ev, ¬ takes_on k ev) evs →
  Forall (λ '(u, t, _), key_of u t ≠ k) (play evs w).1.
Proof.
  induction evs as [|ev evs IH]; intros w Hq; [by constructor|].
  apply Forall_cons in Hq as [Hk Hq].
  rewrite redis_play_cons. cbn [fst]. apply Forall_app. split; [|by apply IH].
  destruct ev as [key c ttl|userId type|d]; cbn [play1]; try by constructor.
  destruct (run (getExpectedChallenge userId type) w) as [r w'].
  repeat constructor. exact Hk.
Qed.

(** Once the entry of [k] is deleted it stays absent until somebody puts on
    [k], and every take on [k] meanwhile fails with the not-found error. *)
Lemma redis_play_missing k evs : ∀ (w : W),
  Forall (λ ev, ¬ puts_on k ev) evs →
  store w !! k = None →
  store (play evs w).2 !! k = None
  ∧ Forall (λ '(u, t, r), key_of u t = k → r = Thrown not_found_Redis)
           (play evs w).1.
Proof.
  induction evs as [|ev evs IH]; intros w Hq Hs; [by split; [|constructor]|].
  apply Forall_cons in Hq as [Hp Hq].
  rewrite redis_play_cons. cbn [fst snd].
  assert (store (play1 ev w).2 !! k = None
          ∧ Forall (λ '(u, t, r), key_of u t = k → r = Thrown not_found_Redis)
                   (play1 ev w).1) as [Hs1 Hl1].
  { destruct ev as [key c ttl|userId type|d]; cbn [play1] in *.
    - split; [|by constructor]. cbn [snd]. by rewrite redis_put_other.
    - destruct (run (getExpectedChallenge userId type) w) as [r w'] eqn:R.
      split.
      + cbn [snd]. change w' with (r, w').2. rewrite <- R.
        by apply redis_take_keeps_missing.
      + repeat constructor. intros Hk. rewrite <- Hk in Hs.
        rewrite redis_take_dead in R; [congruence|].
        unfold live. by rewrite Hs.
    - by split; [|constructor]. }
  destruct (IH _ Hq Hs1) as [Hs2 Hl2].
  split; [done|]. by apply Forall_app.
Qed.

(** The world a take on the key finds after [put] and a history that
    leaves the key alone. *)
Lemma redis_entry_after_put (w : W) k c ttl evs :
  let w2 := (play evs (run (setChallenge k c ttl) w).2).2 in
  0 < default 300 ttl →
  Forall (λ ev, ¬ puts_on k ev ∧ ¬ takes_on k ev) evs →
  store w2 !! k = Some (mkRedisEntry c (now w + default 300 ttl * 1000))
  ∧ now w2 = now w + elapsed evs.
Proof.
  intros w2 Hp Hq. subst w2. rewrite redis_play_keeps by done. rewrite redis_play_now.
  rewrite redis_put_accepted by done. cbn. by rewrite lookup_insert_eq.
Qed.

(** After an accepted [put] of a non-empty challenge, with less than the
    TTL gone and nobody else putting or taking on the key, the take
    answers with the challenge put and deletes the key. *)
Lemma redis_take_after_put (w : W) userId type c ttl evs :
  let k := key_of userId type in
  let w2 := (play evs (run (setChallenge k c ttl) w).2).2 in
  0 < default 300 ttl →
  falsy_string c = false →
  Forall (λ ev, ¬ puts_on k ev ∧ ¬ takes_on k ev) evs →
  elapsed evs < default 300 ttl * 1000 →
  run (getExpectedChallenge userId type) w2
  = (Returned c, with_store (delete k (store w2)) w2).
Proof.
  intros k w2 Hp Hc Hq Ht.
  destruct (redis_entry_after_put w k c ttl evs Hp Hq) as [E N].
  subst k w2. apply redis_take_live; [|done]. unfold live. rewrite E, N. cbn.
  destruct (Z.leb_spec (now w + elapsed evs)
              (now w + default 300 ttl * 1000)); [done|lia].
Qed.

(** Once the TTL has gone by, the take fails with the not-found error. *)
Lemma redis_take_after_expiry (w : W) userId type c ttl evs :
  let k := key_of userId type in
  let w2 := (play evs (run (setChallenge k c ttl) w).2).2 in
  0 < default 300 ttl →
  Forall (λ ev, ¬ puts_on k ev ∧ ¬ takes_on k ev) evs →
  default 300 ttl * 1000 < elapsed evs →
  run (getExpectedChallenge userId type) w2 = (Thrown not_found_Redis, w2).
Proof.
  intros k w2 Hp Hq Ht.
  destruct (redis_entry_after_put w k c ttl evs Hp Hq) as [E N].
  subst k w2. apply redis_take_dead. unfold live. rewrite E, N. cbn.
  destruct (Z.leb_spec (now w + elapsed evs)
              (now w + default 300 ttl * 1000)); [lia|done].
Qed.

(** Whenever it is made, the take after an accepted [put] answers with the
    challenge put or with the not-found error. *)
Lemma redis_take_after_put_any_time (w : W) userId type c ttl evs :
  let k := key_of userId type in
  let w2 := (play evs (run (setChallenge k c ttl) w).2).2 in
  0 < default 300 ttl →
  Forall (λ ev, ¬ puts_on k ev ∧ ¬ takes_on k ev) evs →
  (run (getExpectedChallenge userId type) w2).1 = Returned c
  ∨ (run (getExpectedChallenge userId type) w2).1 = Thrown not_found_Redis.
Proof.
  intros k w2 Hp Hq.
  destruct (redis_entry_after_put w k c ttl evs Hp Hq) as [E N].
  subst k w2.
  destruct (redis_take_cases (play evs (run (setChallenge (key_of userId type) c ttl)
                                      w).2).2 userId type)
    as [(c' & L & _ & R)|R].
  - left. rewrite R. cbn. unfold live in L. rewrite E in L.
    cbn in L. destruct (_ <=? _); congruence.
  - right. by rewrite R.
Qed.

Lemma redis_play_app evs1 evs2 (w : W) :
  play (evs1 ++ evs2) w
  = ((play evs1 w).1 ++ (play evs2 (play evs1 w).2).1,
     (play evs2 (play evs1 w).2).2).
Proof.
  revert w. induction evs1 as [|ev evs1 IH]; intros w.
  - cbn. by destruct (play evs2 w).
  - rewrite <- app_comm_cons, !redis_play_cons, IH. cbn [fst snd].
    by rewrite app_assoc.
Qed.

(** One put, one successful take: in a history where a non-empty challenge
    is put on [k] with a positive TTL, left alone for less than the TTL,
    taken, and not put again, the first take on [k] answers with the
    challenge put and every later take on [k] fails with the not-found
    error. *)
Lemma redis_take_once (w : W) userId type c ttl before after :
  let k := key_of userId type in
  0 < default 300 ttl →
  falsy_string c = false →
  Forall (λ ev, ¬ puts_on k ev ∧ ¬ takes_on k ev) before →
  elapsed before < default 300 ttl * 1000 →
  Forall (λ ev, ¬ puts_on k ev) after →
  ∃ log1 log2,
    (play (Put k c ttl :: before ++ Take userId type :: after) w).1
    = log1 ++ (userId, type, Returned c) :: log2
    ∧ Forall (λ '(u, t, _), key_of u t ≠ k) log1
    ∧ Forall (λ '(u, t, r), key_of u t = k → r = Thrown not_found_Redis) log2.
Proof.
  intros k Hp Hc Hq Ht Ha.
  pose proof (redis_take_after_put w userId type c ttl before Hp Hc Hq Ht) as R.
  cbn zeta in R. fold k in R.
  set (w1 := (run (setChallenge k c ttl) w).2) in *.
  set (w2 := (play before w1).2) in *.
  exists (play before w1).1, (play after (with_store (delete k (store w2)) w2)).1.
  split; [|split].
  - rewrite redis_play_cons. cbn [play1 fst snd app]. fold w1.
    rewrite redis_play_app. cbn [fst]. f_equal.
    rewrite redis_play_cons. cbn [play1 fst snd]. fold w2. rewrite R. reflexivity.
  - apply redis_play_log_quiet. eapply Forall_impl; [exact Hq|]. by intros ? [_ ?].
  - apply redis_play_missing; [done|]. cbn. apply lookup_delete_eq.
Qed.

End RedisFacts.

(** [verifyAuthenticationByEmail] takes its challenge exactly as
    [getExpectedChallenge("email-" + email, "auth")] would: same key, same
    test, same deletion, same exception; what it does with the challenge
    afterwards is [rest]. *)
Lemma login_takes_like_getExpectedChallenge `{Libraries} :
  (∀ (w : InMemory.W) mail assertionResponse user credential,
     let rest (expectedChallenge : string) : Async InMemory.W VerifiedLogin :=
       verification ←
         await (call (verifyAuthenticationResponse
                        (authenticationOpts assertionResponse expectedChallenge
                                            credential)));
       match verification with
       | Rejected message =>
           Throw (BadRequestException ("Authentication failed: " +:+ message))
       | Resolved verification =>
           if auth_verified verification
           then
             _ ← attempt (saveCredential
                          (set_counter
                             (newCounter (authenticationInfo verification))
                             credential));
             Return (mkVerifiedLogin true (publicUser (row user)))
           else
             Throw (BadRequestException "Authentication verification failed")
       end in
     Repository.findUserByEmail mail (db w) = Some user →
     find_credential (claimed_credentialId assertionResponse) user
     = Some credential →
     run (InMemory.verifyAuthenticationByEmail mail assertionResponse) w
     = run (InMemory.getExpectedChallenge ("email-" +:+ mail) auth ≫= rest) w)
  ∧ (∀ (w : RedisBacked.W) mail assertionResponse user credential,
       let rest (expectedChallenge : string)
           : Async RedisBacked.W VerifiedLogin :=
         verification ←
           await (call (verifyAuthenticationResponse
                          (authenticationOpts assertionResponse
                                              expectedChallenge credential)));
         match verification with
         | Rejected message =>
             Throw (BadRequestException ("Authentication failed: " +:+ message))
         | Resolved verification =>
             if auth_verified verification
             then
               _ ← attempt (saveCredential
                            (set_counter
                               (newCounter (authenticationInfo verification))
                               credential));
               Return (mkVerifiedLogin true (publicUser (row user)))
             else
               Throw (BadRequestException "Authentication verification failed")
         end in
       Repository.findUserByEmail mail (db w) = Some user →
       find_credential (claimed_credentialId assertionResponse) user
       = Some credential →
       run (RedisBacked.verifyAuthenticationByEmail mail assertionResponse) w
       = run (RedisBacked.getExpectedChallenge ("email-" +:+ mail) auth
                ≫= rest) w).
Proof.
  split; intros w mail assertionResponse user credential rest Hu Hc.
  - unfold InMemory.verifyAuthenticationByEmail, InMemory.getExpectedChallenge.
    cbn. rewrite Hu. cbn. rewrite Hc. cbn.
    change (key_of ("email-" +:+ mail) auth) with ("auth-email-" +:+ mail).
    by destruct (store w !! _).
  - unfold RedisBacked.verifyAuthenticationByEmail,
      RedisBacked.getExpectedChallenge.
    cbn. rewrite Hu. cbn. rewrite Hc. cbn.
    change (key_of ("email-" +:+ mail) auth) with ("auth-email-" +:+ mail).
    destruct (RedisService.live w _) as [c|]; cbn; [|done].
    by destruct (falsy_string c).
Qed.

(** ** Claims about the challenge store *)

(** C2, as stated, fails: a challenge put and never taken is not handed out
    by the first take once its TTL has gone by (Redis), once the sweep has
    removed it (in-process map), or when it is the empty string (Redis,
    whose reply is tested with [!challenge]). *)
Lemma first_take_can_fail :
  (RedisHistory.play
     [RedisHistory.Put "reg-u1" "c1" (Some 300); RedisHistory.Tick 300001;
      RedisHistory.Take "u1" reg] (Demo.redis 0)).1
  = [("u1", reg, Thrown not_found_Redis)]
  ∧ (RedisHistory.play
       [RedisHistory.Put "reg-u1" EmptyString (Some 300);
        RedisHistory.Take "u1" reg] (Demo.redis 0)).1
    = [("u1", reg, Thrown not_found_Redis)]
  ∧ (InMemoryHistory.play
       [InMemoryHistory.Put "reg-u1" "c1" None; InMemoryHistory.Tick 300001;
        InMemoryHistory.Sweep; InMemoryHistory.Take "u1" reg] (Demo.memory 0)).1
    = [("u1", reg, Thrown not_found_InMemory)].
Proof. repeat split; vm_compute; reflexivity. Qed.

(** C2, amended: after [put(k, c, ttl)] and before any new put for [k], the
    first [takeOnce(k)] made while the record has not expired (and, in the
    Redis revision, for a non-empty [c] put with a positive TTL) answers
    exactly [c], and every later [takeOnce(k)] fails with the
    challenge-not-found error. *)
Theorem take_once_while_live :
  (∀ (w : InMemory.W) userId type c uid before after,
     let k := key_of userId type in
     Forall (λ ev, ¬ InMemoryHistory.puts_on k ev
                   ∧ ¬ InMemoryHistory.takes_on k ev) before →
     InMemoryHistory.elapsed before ≤ InMemory.expirationTime →
     Forall (λ ev, ¬ InMemoryHistory.puts_on k ev) after →
     ∃ log1 log2,
       (InMemoryHistory.play
          (InMemoryHistory.Put k c uid
             :: before ++ InMemoryHistory.Take userId type :: after) w).1
       = log1 ++ (userId, type, Returned c) :: log2
       ∧ Forall (λ '(u, t, _), key_of u t ≠ k) log1
       ∧ Forall (λ '(u, t, r), key_of u t = k → r = Thrown not_found_InMemory)
                log2)
  ∧ (∀ (w : RedisBacked.W) userId type c ttl before after,
       let k := key_of userId type in
       0 < default 300 ttl →
       falsy_string c = false →
       Forall (λ ev, ¬ RedisHistory.puts_on k ev
                     ∧ ¬ RedisHistory.takes_on k ev) before →
       RedisHistory.elapsed before < default 300 ttl * 1000 →
       Forall (λ ev, ¬ RedisHistory.puts_on k ev) after →
       ∃ log1 log2,
         (RedisHistory.play
            (RedisHistory.Put k c ttl
               :: before ++ RedisHistory.Take userId type :: after) w).1
         = log1 ++ (userId, type, Returned c) :: log2
         ∧ Forall (λ '(u, t, _), key_of u t ≠ k) log1
         ∧ Forall (λ '(u, t, r), key_of u t = k → r = Thrown not_found_Redis)
                  log2).
Proof.
  split.
  - intros. by apply InMemoryFacts.mem_take_once.
  - intros. by apply RedisFacts.redis_take_once.
Qed.

(** A challenge put for Alice, taken a second later, and asked for again. *)
Lemma take_once_while_live_witness :
  (∃ log1 log2,
     (InMemoryHistory.play
        (InMemoryHistory.Put (key_of "u1" reg) "c1" None
           :: [InMemoryHistory.Tick 1000]
              ++ InMemoryHistory.Take "u1" reg
                 :: [InMemoryHistory.Sweep; InMemoryHistory.Take "u1" reg])
        (Demo.memory 0)).1
     = log1 ++ ("u1", reg, Returned "c1") :: log2
     ∧ Forall (λ '(u, t, _), key_of u t ≠ key_of "u1" reg) log1
     ∧ Forall (λ '(u, t, r),
                 key_of u t = key_of "u1" reg → r = Thrown not_found_InMemory)
              log2)
  ∧ (∃ log1 log2,
       (RedisHistory.play
          (RedisHistory.Put (key_of "u1" reg) "c1" (Some 300)
             :: [RedisHistory.Tick 1000]
                ++ RedisHistory.Take "u1" reg :: [RedisHistory.Take "u1" reg])
          (Demo.redis 0)).1
       = log1 ++ ("u1", reg, Returned "c1") :: log2
       ∧ Forall (λ '(u, t, _), key_of u t ≠ key_of "u1" reg) log1
       ∧ Forall (λ '(u, t, r),
                   key_of u t = key_of "u1" reg → r = Thrown not_found_Redis)
                log2).
Proof.
  split.
  - apply (proj1 take_once_while_live (Demo.memory 0) "u1" reg "c1" None
             [InMemoryHistory.Tick 1000]
             [InMemoryHistory.Sweep; InMemoryHistory.Take "u1" reg]).
    + repeat constructor; cbn; tauto.
    + vm_compute. discriminate.
    + repeat constructor; cbn; tauto.
  - apply (proj2 take_once_while_live (Demo.redis 0) "u1" reg "c1" (Some 300)
             [RedisHistory.Tick 1000] [RedisHistory.Take "u1" reg]).
    + reflexivity.
    + reflexivity.
    + repeat constructor; cbn; tauto.
    + reflexivity.
    + repeat constructor; cbn; tauto.
Defined.

(** C7, as stated, fails for the same reasons as C2: after two puts the
    take can answer not-found instead of the second challenge. *)
Lemma second_challenge_can_be_withheld :
  (RedisHistory.play
     [RedisHistory.Put "reg-u1" "c1" (Some 300);
      RedisHistory.Put "reg-u1" EmptyString (Some 300);
      RedisHistory.Take "u1" reg] (Demo.redis 0)).1
  = [("u1", reg, Thrown not_found_Redis)]
  ∧ (RedisHistory.play
       [RedisHistory.Put "reg-u1" "c1" (Some 300);
        RedisHistory.Put "reg-u1" "c2" (Some 300);
        RedisHistory.Tick 300001; RedisHistory.Take "u1" reg] (Demo.redis 0)).1
    = [("u1", reg, Thrown not_found_Redis)]
  ∧ (InMemoryHistory.play
       [InMemoryHistory.Put "reg-u1" "c1" None;
        InMemoryHistory.Put "reg-u1" "c2" None;
        InMemoryHistory.Tick 300001; InMemoryHistory.Sweep;
        InMemoryHistory.Take "u1" reg] (Demo.memory 0)).1
    = [("u1", reg, Thrown not_found_InMemory)].
Proof. repeat split; vm_compute; reflexivity. Qed.

(** C7, amended: after [put(k, c1)] then [put(k, c2)] the one record under
    [k] holds [c2] for as long as it lives; a take made meanwhile (in the
    Redis revision: for a non-empty [c2]) answers [c2], and a take made at
    any later time never answers [c1]. *)
Theorem last_put_wins :
  (∀ (w : InMemory.W) userId type c1 c2 uid1 uid2 between before,
     let k := key_of userId type in
     let w2 := (InMemoryHistory.play
                  (InMemoryHistory.Put k c1 uid1
                     :: between ++ InMemoryHistory.Put k c2 uid2 :: before)
                  w).2 in
     Forall (λ ev, ¬ InMemoryHistory.puts_on k ev
                   ∧ ¬ InMemoryHistory.takes_on k ev) before →
     (InMemoryHistory.elapsed before ≤ InMemory.expirationTime →
      InMemory.challenge <$> store w2 !! k = Some c2
      ∧ (run (InMemory.getExpectedChallenge userId type) w2).1 = Returned c2)
     ∧ (c1 ≠ c2 →
        (run (InMemory.getExpectedChallenge userId type) w2).1 ≠ Returned c1))
  ∧ (∀ (w : RedisBacked.W) userId type c1 c2 ttl1 ttl2 between before,
       let k := key_of userId type in
       let w2 := (RedisHistory.play
                    (RedisHistory.Put k c1 ttl1
                       :: between ++ RedisHistory.Put k c2 ttl2 :: before)
                    w).2 in
       0 < default 300 ttl2 →
       Forall (λ ev, ¬ RedisHistory.puts_on k ev
                     ∧ ¬ RedisHistory.takes_on k ev) before →
       (RedisHistory.elapsed before < default 300 ttl2 * 1000 →
        RedisService.live w2 k = Some c2
        ∧ (falsy_string c2 = false →
           (run (RedisBacked.getExpectedChallenge userId type) w2).1
           = Returned c2))
       ∧ (c1 ≠ c2 →
          (run (RedisBacked.getExpectedChallenge userId type) w2).1
          ≠ Returned c1)).
Proof.
  split.
  - intros w userId type c1 c2 uid1 uid2 between before k w2 Hq.
    set (w0 := (InMemoryHistory.play
                  (InMemoryHistory.Put k c1 uid1 :: between) w).2).
    assert (w2 = (InMemoryHistory.play before
                    (InMemory.challenges_set k c2 uid2 w0).2).2) as ->.
    { subst w2 w0. rewrite app_comm_cons, InMemoryFacts.mem_play_app.
      cbn [snd]. by rewrite InMemoryFacts.mem_play_cons. }
    split.
    + intros Ht.
      pose proof (InMemoryFacts.mem_take_after_put w0 userId type c2 uid2 before
                    Hq Ht) as R. cbn zeta in R. fold k in R.
      split; [|by rewrite R].
      rewrite (InMemoryFacts.mem_play_keeps k before _
                 (InMemory.mkEntry c2 (now w0) uid2)); [done|done| |].
      * cbn. by rewrite lookup_insert_eq.
      * cbn. lia.
    + intros Hne.
      destruct (InMemoryFacts.mem_take_after_put_any_time w0 userId type c2 uid2
                  before Hq) as [R|R]; fold k in R; rewrite R; congruence.
  - intros w userId type c1 c2 ttl1 ttl2 between before k w2 Hp Hq.
    set (w0 := (RedisHistory.play
                  (RedisHistory.Put k c1 ttl1 :: between) w).2).
    assert (w2 = (RedisHistory.play before
                    (run (RedisService.setChallenge k c2 ttl2) w0).2).2) as ->.
    { subst w2 w0. rewrite app_comm_cons, RedisFacts.redis_play_app.
      cbn [snd]. by rewrite RedisFacts.redis_play_cons. }
    split.
    + intros Ht.
      destruct (RedisFacts.redis_entry_after_put w0 k c2 ttl2 before Hp Hq) as [E N].
      assert (RedisService.live
                (RedisHistory.play before
                   (run (RedisService.setChallenge k c2 ttl2) w0).2).2 k
              = Some c2) as L.
      { unfold RedisService.live. rewrite E, N. cbn.
        destruct (Z.leb_spec (now w0 + RedisHistory.elapsed before)
                    (now w0 + default 300 ttl2 * 1000)); [done|lia]. }
      split; [done|]. intros Hc.
      by rewrite (RedisFacts.redis_take_live _ userId type c2 L Hc).
    + intros Hne.
      destruct (RedisFacts.redis_take_after_put_any_time w0 userId type c2 ttl2
                  before Hp Hq) as [R|R]; fold k in R; rewrite R; congruence.
Qed.

(** Two challenges put five milliseconds apart, the key taken a second later. *)
Lemma last_put_wins_witness :
  (let w2 := (InMemoryHistory.play
                (InMemoryHistory.Put (key_of "u1" auth) "c1" None
                   :: [InMemoryHistory.Tick 5]
                      ++ InMemoryHistory.Put (key_of "u1" auth) "c2" None
                         :: [InMemoryHistory.Tick 1000; InMemoryHistory.Sweep])
                (Demo.memory 0)).2 in
   InMemory.challenge <$> store w2 !! key_of "u1" auth = Some "c2"
   ∧ (run (InMemory.getExpectedChallenge "u1" auth) w2).1 = Returned "c2")
  ∧ (let w2 := (RedisHistory.play
                  (RedisHistory.Put (key_of "u1" auth) "c1" (Some 300)
                     :: [RedisHistory.Tick 5]
                        ++ RedisHistory.Put (key_of "u1" auth) "c2" (Some 300)
                           :: [RedisHistory.Tick 1000])
                  (Demo.redis 0)).2 in
     (run (RedisBacked.getExpectedChallenge "u1" auth) w2).1 = Returned "c2"
     ∧ (run (RedisBacked.getExpectedChallenge "u1" auth) w2).1 ≠ Returned "c1").
Proof.
  split.
  - cbn zeta.
    refine (proj1 (proj1 last_put_wins (Demo.memory 0) "u1" auth "c1" "c2"
                     None None [InMemoryHistory.Tick 5]
                     [InMemoryHistory.Tick 1000; InMemoryHistory.Sweep] _) _).
    + repeat constructor; cbn; tauto.
    + vm_compute. discriminate.
  - cbn zeta.
    pose proof (proj2 last_put_wins (Demo.redis 0) "u1" auth "c1" "c2"
                  (Some 300) (Some 300) [RedisHistory.Tick 5]
                  [RedisHistory.Tick 1000]) as T.
    cbn zeta in T. split.
    + refine (proj2 (proj1 (T _ _) _) _).
      * reflexivity.
      * repeat constructor; cbn; tauto.
      * reflexivity.
      * reflexivity.
    + refine (proj2 (T _ _) _).
      * reflexivity.
      * repeat constructor; cbn; tauto.
      * discriminate.
Defined.

(** C4 on the first revision: [getExpectedChallenge] never looks at the
    timestamp, so a challenge is handed out however long after it was
    stored, as long as no sweep has removed it; and a sweep removes it only
    if it fires more than five minutes after the challenge was stored. Here
    the service starts at 0, the timer fires at 300000, the challenge is
    stored at 1 and taken at 400000. *)
Theorem InMemory_take_after_ttl :
  (∀ (w : InMemory.W) userId type c uid (d : N),
     (InMemoryHistory.play
        [InMemoryHistory.Put (key_of userId type) c uid;
         InMemoryHistory.Tick d;
         InMemoryHistory.Take userId type] w).1
     = [(userId, type, Returned c)])
  ∧ (InMemoryHistory.play
       [InMemoryHistory.Tick 1;
        InMemoryHistory.Put "reg-u1" "c1" None;
        InMemoryHistory.Tick 299999;
        InMemoryHistory.Sweep;
        InMemoryHistory.Tick 100000;
        InMemoryHistory.Take "u1" reg] (Demo.memory 0)).1
    = [("u1", reg, Returned "c1")].
Proof.
  split; [|vm_compute; reflexivity].
  intros w userId type c uid d.
  rewrite !InMemoryFacts.mem_play_cons. cbn [InMemoryHistory.play1 fst snd app].
  rewrite (InMemoryFacts.mem_take_found _ userId type
             (InMemory.mkEntry c (now w) uid)).
  - reflexivity.
  - cbn. by rewrite lookup_insert_eq.
Qed.

(** ** Claims about the ceremonies *)

(** What a lookup by id tells about the id: PostgreSQL accepted it, and the
    row found holds the uuid it denotes. *)
Lemma same_id_true stored parameter :
  Repository.same_id stored parameter = true →
  Postgres.is_uuid parameter = true
  ∧ Postgres.uuid_value stored = Postgres.uuid_value parameter.
Proof.
  unfold Repository.same_id, Postgres.is_uuid, Postgres.uuid_value.
  destruct (Postgres.uuid_in parameter) as [u|]; [|done].
  intros E%bool_decide_eq_true. by rewrite E.
Qed.

Lemma findUserById_id uid d user :
  Repository.findUserById uid d = Some user →
  Postgres.uuid_value (user_id (row user)) = Postgres.uuid_value uid.
Proof.
  unfold Repository.findUserById. intros E.
  destruct (List.find _ (users d)) as [u|] eqn:F; [|done].
  injection E as <-. apply find_some in F as [_ F]. cbn.
  by apply same_id_true in F as [_ F].
Qed.

Lemma findUserById_is_uuid uid d user :
  Repository.findUserById uid d = Some user → Postgres.is_uuid uid = true.
Proof.
  unfold Repository.findUserById. intros E.
  destruct (List.find _ (users d)) as [u|] eqn:F; [|done].
  apply find_some in F as [_ F]. by apply same_id_true in F as [F _].
Qed.

(** The first await of the methods that look a user up by id. *)
Lemma query_by_uuid_found {C X} uid (f : Db → X) (w : World C) :
  Postgres.is_uuid uid = true →
  query_by_uuid [uid] f w = (Returned (f (db w)), w).
Proof. unfold query_by_uuid. cbn. by intros ->. Qed.

Lemma query_by_uuid_refused {C X} uid (f : Db → X) (w : World C) :
  Postgres.is_uuid uid = false →
  query_by_uuid [uid] f w = (Thrown (QueryFailedError (invalid_uuid uid)), w).
Proof. unfold query_by_uuid. cbn. by intros ->. Qed.

(** A method that starts by looking a row up by id. *)
Lemma run_by_uuid {C X A} uid (f : Db → X) (k : X → Async (World C) A) w :
  run (attempt (query_by_uuid [uid] f) ≫= k) w
  = if Postgres.is_uuid uid then run (k (f (db w))) w
    else (Thrown (QueryFailedError (invalid_uuid uid)), w).
Proof.
  cbn. unfold query_by_uuid. cbn. by destruct (Postgres.is_uuid uid).
Qed.

(** The same when the row is found. *)
Lemma run_found {C A} uid (k : option LoadedUser → Async (World C) A) w user :
  Repository.findUserById uid (db w) = Some user →
  run (attempt (query_by_uuid [uid] (Repository.findUserById uid)) ≫= k) w
  = run (k (Some user)) w.
Proof.
  intros Hu. by rewrite run_by_uuid, (findUserById_is_uuid _ _ _ Hu), Hu.
Qed.

(** C6. In [verifyAuthentication] and [verifyAuthenticationByEmail], of both
    revisions, when the credential id the response claims matches none of
    the resolved user's credentials the call throws "Credential not found"
    and leaves the world as it was: in particular the challenge stored for
    the ceremony key is still there for a later call. *)
Theorem unknown_credential_keeps_challenge `{Libraries} :
  (∀ (w : InMemory.W) userId assertionResponse user,
     Repository.findUserById userId (db w) = Some user →
     find_credential (claimed_credentialId assertionResponse) user = None →
     run (InMemory.verifyAuthentication userId assertionResponse) w
     = (Thrown credential_not_found, w))
  ∧ (∀ (w : InMemory.W) mail assertionResponse user,
       Repository.findUserByEmail mail (db w) = Some user →
       find_credential (claimed_credentialId assertionResponse) user = None →
       run (InMemory.verifyAuthenticationByEmail mail assertionResponse) w
       = (Thrown credential_not_found, w))
  ∧ (∀ (w : RedisBacked.W) userId assertionResponse user,
       Repository.findUserById userId (db w) = Some user →
       find_credential (claimed_credentialId assertionResponse) user = None →
       run (RedisBacked.verifyAuthentication userId assertionResponse) w
       = (Thrown credential_not_found, w))
  ∧ (∀ (w : RedisBacked.W) mail assertionResponse user,
       Repository.findUserByEmail mail (db w) = Some user →
       find_credential (claimed_credentialId assertionResponse) user = None →
       run (RedisBacked.verifyAuthenticationByEmail mail assertionResponse) w
       = (Thrown credential_not_found, w)).
Proof.
  repeat split; intros w x assertionResponse user Hu Hc.
  - unfold InMemory.verifyAuthentication. cbn.
    rewrite (query_by_uuid_found _ _ _ (findUserById_is_uuid _ _ _ Hu)).
    cbn. rewrite Hu. cbn. by rewrite Hc.
  - unfold InMemory.verifyAuthenticationByEmail. cbn. rewrite Hu. cbn.
    by rewrite Hc.
  - unfold RedisBacked.verifyAuthentication. cbn.
    rewrite (query_by_uuid_found _ _ _ (findUserById_is_uuid _ _ _ Hu)).
    cbn. rewrite Hu. cbn. by rewrite Hc.
  - unfold RedisBacked.verifyAuthenticationByEmail. cbn. rewrite Hu. cbn.
    by rewrite Hc.
Qed.

(** Alice answers with Bob's credential id while her challenge is stored. *)
Lemma unknown_credential_keeps_challenge_witness :
  let H := Demo.libraries 6 in
  let mem := (run (InMemory.generateAuthenticationOptions "c1" Demo.u1)
                (Demo.memory 5)).2 in
  let red := (run (RedisBacked.generateAuthenticationOptionsByEmail "c1"
                     "alice@example.com") (Demo.redis 5)).2 in
  run (InMemory.verifyAuthentication Demo.u1 (Demo.signed Demo.cred2 "c1")) mem
  = (Thrown credential_not_found, mem)
  ∧ run (RedisBacked.verifyAuthenticationByEmail "alice@example.com"
           (Demo.signed Demo.cred2 "c1")) red
    = (Thrown credential_not_found, red).
Proof.
  cbn zeta. split.
  - refine (proj1 (@unknown_credential_keeps_challenge (Demo.libraries 6))
              _ Demo.u1 (Demo.signed Demo.cred2 "c1")
              (Repository.load (Demo.database 5) Demo.alice) _ _);
      reflexivity.
  - refine (proj2 (proj2 (proj2
              (@unknown_credential_keeps_challenge (Demo.libraries 6))))
              _ "alice@example.com" (Demo.signed Demo.cred2 "c1")
              (Repository.load (Demo.database 5) Demo.alice) _ _);
      reflexivity.
Defined.

(** C3. When [verifyRegistration] stops at the verification step (the
    verifier throws, or answers without [verified] and [registrationInfo]),
    the database is as before (no credential was created), yet the
    challenge stored under [reg-{userId}] is gone: the same call made again
    at once throws the challenge-not-found error. Both revisions. *)
Theorem failed_registration_consumes_challenge `{Libraries} :
  (∀ (w w' : InMemory.W) uuid userId attestationResponse deviceType e,
     run (InMemory.verifyRegistration uuid userId attestationResponse
            deviceType) w = (Thrown e, w') →
     registration_verification_failed e →
     db w' = db w
     ∧ store w' !! key_of userId reg = None
     ∧ ∀ uuid',
         run (InMemory.verifyRegistration uuid' userId attestationResponse
                deviceType) w' = (Thrown not_found_InMemory, w'))
  ∧ (∀ (w w' : RedisBacked.W) uuid userId attestationResponse deviceType e,
       run (RedisBacked.verifyRegistration uuid userId attestationResponse
              deviceType) w = (Thrown e, w') →
       registration_verification_failed e →
       db w' = db w
       ∧ store w' !! key_of userId reg = None
       ∧ ∀ uuid',
           run (RedisBacked.verifyRegistration uuid' userId attestationResponse
                  deviceType) w' = (Thrown not_found_Redis, w')).
Proof.
  split.
  - intros w w' uuid userId attestationResponse deviceType e R F.
    unfold InMemory.verifyRegistration in R. rewrite run_by_uuid in R.
    destruct (Postgres.is_uuid userId) eqn:Hv.
    2:{ injection R as <- <-. destruct F as [F|[m F]]; discriminate F. }
    destruct (Repository.findUserById userId (db w)) as [user|] eqn:Hu;
      cbn in R.
    2:{ injection R as <- <-. destruct F as [F|[m F]]; discriminate F. }
    rewrite run_bind in R.
    destruct (store w !! key_of userId reg) as [stored|] eqn:Hs.
    2:{ rewrite (InMemoryFacts.mem_take_missing _ _ _ Hs) in R.
        injection R as <- <-. destruct F as [F|[m F]]; discriminate F. }
    rewrite (InMemoryFacts.mem_take_found _ _ _ _ Hs) in R. cbn in R.
    assert (∀ w1 : InMemory.W,
              w1 = with_store (delete (key_of userId reg) (store w)) w →
              db w1 = db w
              ∧ store w1 !! key_of userId reg = None
              ∧ ∀ uuid',
                  run (InMemory.verifyRegistration uuid' userId
                         attestationResponse deviceType) w1
                  = (Thrown not_found_InMemory, w1)) as Done.
    { intros w1 ->. split; [done|]. split; [apply lookup_delete_eq|].
      intros uuid'. unfold InMemory.verifyRegistration.
      rewrite (run_found _ _ _ user) by done. cbn.
      rewrite run_bind, InMemoryFacts.mem_take_missing; [done|].
      apply lookup_delete_eq. }
    destruct (verifyRegistrationResponse _) as [v|m]; cbn in R.
    + destruct (reg_verified v), (registrationInfo v) as [info|]; cbn in R;
        try (injection R as <- <-; by apply Done).
      unfold saveNewCredential in R.
      destruct (Postgres.int4 (info_counter info)); cbn in R;
        [discriminate R|].
      injection R as <- <-. destruct F as [F|[m F]]; discriminate F.
    + injection R as <- <-. by apply Done.
  - intros w w' uuid userId attestationResponse deviceType e R F.
    unfold RedisBacked.verifyRegistration in R. rewrite run_by_uuid in R.
    destruct (Postgres.is_uuid userId) eqn:Hv.
    2:{ injection R as <- <-. destruct F as [F|[m F]]; discriminate F. }
    destruct (Repository.findUserById userId (db w)) as [user|] eqn:Hu;
      cbn in R.
    2:{ injection R as <- <-. destruct F as [F|[m F]]; discriminate F. }
    rewrite run_bind in R.
    destruct (RedisFacts.redis_take_cases w userId reg)
      as [(c & L & Fc & T)|T]; rewrite T in R.
    2:{ injection R as <- <-. destruct F as [F|[m F]]; discriminate F. }
    cbn in R.
    assert (∀ w1 : RedisBacked.W,
              w1 = with_store (delete (key_of userId reg) (store w)) w →
              db w1 = db w
              ∧ store w1 !! key_of userId reg = None
              ∧ ∀ uuid',
                  run (RedisBacked.verifyRegistration uuid' userId
                         attestationResponse deviceType) w1
                  = (Thrown not_found_Redis, w1)) as Done.
    { intros w1 ->. split; [done|]. split; [apply lookup_delete_eq|].
      intros uuid'. unfold RedisBacked.verifyRegistration.
      rewrite (run_found _ _ _ user) by done.
      cbn. rewrite run_bind, RedisFacts.redis_take_dead; [done|].
      unfold RedisService.live. cbn. by rewrite lookup_delete_eq. }
    destruct (verifyRegistrationResponse _) as [v|m]; cbn in R.
    + destruct (reg_verified v), (registrationInfo v) as [info|]; cbn in R;
        try (injection R as <- <-; by apply Done).
      unfold saveNewCredential in R.
      destruct (Postgres.int4 (info_counter info)); cbn in R;
        [discriminate R|].
      injection R as <- <-. destruct F as [F|[m F]]; discriminate F.
    + injection R as <- <-. by apply Done.
Qed.

(** Challenge c1 is issued, the response was signed over c2, and the call is
    made twice. *)
Lemma failed_registration_consumes_challenge_witness :
  let H := Demo.libraries 0 in
  let resp := Demo.signed Demo.cred9 "c2" in
  (let w1 := (run (InMemory.generateRegistrationOptions "c1" Demo.u1)
                (Demo.memory 5)).2 in
   let w2 := (run (InMemory.verifyRegistration Demo.k9 Demo.u1 resp (Some "Desktop"))
                w1).2 in
   db w2 = db w1
   ∧ store w2 !! key_of Demo.u1 reg = None
   ∧ ∀ uuid',
       run (InMemory.verifyRegistration uuid' Demo.u1 resp (Some "Desktop")) w2
       = (Thrown not_found_InMemory, w2))
  ∧ (let w1 := (run (RedisBacked.generateRegistrationOptions "c1" Demo.u1)
                  (Demo.redis 5)).2 in
     let w2 := (run (RedisBacked.verifyRegistration Demo.k9 Demo.u1 resp
                       (Some "Desktop")) w1).2 in
     db w2 = db w1
     ∧ store w2 !! key_of Demo.u1 reg = None
     ∧ ∀ uuid',
         run (RedisBacked.verifyRegistration uuid' Demo.u1 resp (Some "Desktop")) w2
         = (Thrown not_found_Redis, w2)).
Proof.
  cbn zeta. split.
  - refine (proj1 (@failed_registration_consumes_challenge (Demo.libraries 0))
              _ _ Demo.k9 Demo.u1 (Demo.signed Demo.cred9 "c2") (Some "Desktop")
              (BadRequestException
                 ("Verification failed: "
                  +:+ ("Unexpected registration response challenge "
                       +:+ Demo.quoted "c2" +:+ ", expected "
                       +:+ Demo.quoted "c1")))
              _ _).
    + vm_compute. reflexivity.
    + right. eexists. reflexivity.
  - refine (proj2 (@failed_registration_consumes_challenge (Demo.libraries 0))
              _ _ Demo.k9 Demo.u1 (Demo.signed Demo.cred9 "c2") (Some "Desktop")
              (BadRequestException
                 ("Verification failed: "
                  +:+ ("Unexpected registration response challenge "
                       +:+ Demo.quoted "c2" +:+ ", expected "
                       +:+ Demo.quoted "c1")))
              _ _).
    + vm_compute. reflexivity.
    + right. eexists. reflexivity.
Defined.

(** It fails in a second way: the counter of an authenticator is an
    unsigned 32-bit number and the [counter] column a signed one. With the
    user found, the challenge stored and the attestation verified, a
    counter of 2^31 makes [save] reject: no credential is persisted, the
    call throws, and the challenge is spent. *)
Lemma large_counter_is_refused :
  let H := Demo.libraries 2147483648 in
  let w1 := (run (InMemory.generateRegistrationOptions "c1" Demo.u1)
               (Demo.memory 5)).2 in
  let done := run (InMemory.verifyRegistration Demo.k9 Demo.u1
                     (Demo.signed Demo.cred9 "c1") (Some "Desktop")) w1 in
  done.1 = Thrown (QueryFailedError (integer_out_of_range 2147483648))
  ∧ db done.2 = db w1
  ∧ store done.2 !! key_of Demo.u1 reg = None.
Proof. vm_compute. repeat split; reflexivity. Qed.



(** ** The methods, unfolded *)

Section Unfolded.
Context `{Libraries}.

Lemma mem_generateRegistrationOptions_run (w : InMemory.W) fresh uid :
  run (InMemory.generateRegistrationOptions fresh uid) w
  = if Postgres.is_uuid uid
    then
      match Repository.findUserById uid (db w) with
      | None => (Thrown (UnauthorizedException "User not found"), w)
      | Some user =>
          (Returned (lib_generateRegistrationOptions fresh user),
           with_store (<[key_of uid reg := InMemory.mkEntry fresh (now w) None]>
                         (store w)) w)
      end
    else (Thrown (QueryFailedError (invalid_uuid uid)), w).
Proof.
  unfold InMemory.generateRegistrationOptions.
  rewrite run_by_uuid. destruct (Postgres.is_uuid uid); [|done].
  by destruct (Repository.findUserById uid (db w)).
Qed.

Lemma redis_generateRegistrationOptions_run (w : RedisBacked.W) fresh uid :
  run (RedisBacked.generateRegistrationOptions fresh uid) w
  = if Postgres.is_uuid uid
    then
      match Repository.findUserById uid (db w) with
      | None => (Thrown (UnauthorizedException "User not found"), w)
      | Some user =>
          (Returned (lib_generateRegistrationOptions fresh user),
           with_store
             (<[key_of uid reg
                := RedisService.mkRedisEntry fresh (now w + 300 * 1000)]>
                (store w)) w)
      end
    else (Thrown (QueryFailedError (invalid_uuid uid)), w).
Proof.
  unfold RedisBacked.generateRegistrationOptions.
  rewrite run_by_uuid. destruct (Postgres.is_uuid uid); [|done].
  by destruct (Repository.findUserById uid (db w)).
Qed.

Lemma mem_generateAuthenticationOptions_run (w : InMemory.W) fresh uid :
  run (InMemory.generateAuthenticationOptions fresh uid) w
  = if Postgres.is_uuid uid
    then
      match Repository.findUserById uid (db w) with
      | Some user =>
          match credentials user with
          | [] => (Thrown (BadRequestException "No credentials found for user"),
                   w)
          | _ :: _ =>
              (Returned (lib_generateAuthenticationOptions fresh user),
               with_store
                 (<[key_of uid auth := InMemory.mkEntry fresh (now w) None]>
                    (store w)) w)
          end
      | None => (Thrown (BadRequestException "No credentials found for user"), w)
      end
    else (Thrown (QueryFailedError (invalid_uuid uid)), w).
Proof.
  unfold InMemory.generateAuthenticationOptions.
  rewrite run_by_uuid. destruct (Postgres.is_uuid uid); [|done].
  destruct (Repository.findUserById uid (db w)) as [user|]; [|done]. cbn.
  by destruct (credentials user).
Qed.

Lemma redis_generateAuthenticationOptions_run (w : RedisBacked.W) fresh uid :
  run (RedisBacked.generateAuthenticationOptions fresh uid) w
  = if Postgres.is_uuid uid
    then
      match Repository.findUserById uid (db w) with
      | Some user =>
          match credentials user with
          | [] => (Thrown (BadRequestException "No credentials found for user"),
                   w)
          | _ :: _ =>
              (Returned (lib_generateAuthenticationOptions fresh user),
               with_store
                 (<[key_of uid auth
                    := RedisService.mkRedisEntry fresh (now w + 300 * 1000)]>
                    (store w)) w)
          end
      | None => (Thrown (BadRequestException "No credentials found for user"), w)
      end
    else (Thrown (QueryFailedError (invalid_uuid uid)), w).
Proof.
  unfold RedisBacked.generateAuthenticationOptions.
  rewrite run_by_uuid. destruct (Postgres.is_uuid uid); [|done].
  destruct (Repository.findUserById uid (db w)) as [user|]; [|done]. cbn.
  by destruct (credentials user).
Qed.

Lemma mem_generateAuthenticationOptionsByEmail_run (w : InMemory.W)
    fresh mail :
  run (InMemory.generateAuthenticationOptionsByEmail fresh mail) w
  = match Repository.findUserByEmail mail (db w) with
    | None => (Thrown (UnauthorizedException "User not found"), w)
    | Some user =>
        match credentials user with
        | [] =>
            (Thrown (BadRequestException "No passkeys found for this user"), w)
        | _ :: _ =>
            (Returned (lib_generateAuthenticationOptions fresh user),
             with_store
               (<["auth-email-" +:+ mail
                  := InMemory.mkEntry fresh (now w)
                       (Some (user_id (row user)))]> (store w)) w)
        end
    end.
Proof.
  unfold InMemory.generateAuthenticationOptionsByEmail. cbn.
  destruct (Repository.findUserByEmail mail (db w)) as [user|]; [|done]. cbn.
  by destruct (credentials user).
Qed.

Lemma redis_generateAuthenticationOptionsByEmail_run (w : RedisBacked.W)
    fresh mail :
  run (RedisBacked.generateAuthenticationOptionsByEmail fresh mail) w
  = match Repository.findUserByEmail mail (db w) with
    | None => (Thrown (UnauthorizedException "User not found"), w)
    | Some user =>
        match credentials user with
        | [] =>
            (Thrown (BadRequestException "No passkeys found for this user"), w)
        | _ :: _ =>
            (Returned (lib_generateAuthenticationOptions fresh user),
             with_store
               (<["auth-email-" +:+ mail
                  := RedisService.mkRedisEntry fresh (now w + 300 * 1000)]>
                  (store w)) w)
        end
    end.
Proof.
  unfold RedisBacked.generateAuthenticationOptionsByEmail. cbn.
  destruct (Repository.findUserByEmail mail (db w)) as [user|]; [|done]. cbn.
  by destruct (credentials user).
Qed.

Lemma mem_verifyRegistration_run (w : InMemory.W) uuid uid
    attestationResponse deviceType :
  run (InMemory.verifyRegistration uuid uid attestationResponse deviceType) w
  = if Postgres.is_uuid uid
    then
      match Repository.findUserById uid (db w) with
      | None => (Thrown (UnauthorizedException "User not found"), w)
      | Some user =>
          match store w !! key_of uid reg with
          | None => (Thrown not_found_InMemory, w)
          | Some stored =>
              registration_result uuid (row user) attestationResponse
                (InMemory.challenge stored) deviceType
                (with_store (delete (key_of uid reg) (store w)) w)
          end
      end
    else (Thrown (QueryFailedError (invalid_uuid uid)), w).
Proof.
  unfold InMemory.verifyRegistration, registration_result.
  rewrite run_by_uuid. destruct (Postgres.is_uuid uid); [|done].
  destruct (Repository.findUserById uid (db w)) as [user|]; [|done]. cbn.
  rewrite run_bind.
  destruct (store w !! key_of uid reg) as [stored|] eqn:Hs.
  - rewrite (InMemoryFacts.mem_take_found _ _ _ _ Hs). cbn.
    destruct (verifyRegistrationResponse _) as [[[] [info|]]|m]; try done.
    cbn. unfold saveNewCredential.
    by destruct (Postgres.int4 (info_counter info)).
  - by rewrite (InMemoryFacts.mem_take_missing _ _ _ Hs).
Qed.

Lemma redis_verifyRegistration_run (w : RedisBacked.W) uuid uid
    attestationResponse deviceType :
  run (RedisBacked.verifyRegistration uuid uid attestationResponse deviceType) w
  = if Postgres.is_uuid uid
    then
      match Repository.findUserById uid (db w) with
      | None => (Thrown (UnauthorizedException "User not found"), w)
      | Some user =>
          match RedisService.live w (key_of uid reg) with
          | None => (Thrown not_found_Redis, w)
          | Some c =>
              if falsy_string c then (Thrown not_found_Redis, w)
              else registration_result uuid (row user) attestationResponse c
                     deviceType
                     (with_store (delete (key_of uid reg) (store w)) w)
          end
      end
    else (Thrown (QueryFailedError (invalid_uuid uid)), w).
Proof.
  unfold RedisBacked.verifyRegistration, registration_result.
  rewrite run_by_uuid. destruct (Postgres.is_uuid uid); [|done].
  destruct (Repository.findUserById uid (db w)) as [user|]; [|done]. cbn.
  rewrite run_bind.
  destruct (RedisService.live w (key_of uid reg)) as [c|] eqn:Hl.
  - destruct (falsy_string c) eqn:Hf.
    + by rewrite (RedisFacts.redis_take_empty _ _ _ _ Hl Hf).
    + rewrite (RedisFacts.redis_take_live _ _ _ _ Hl Hf). cbn.
      destruct (verifyRegistrationResponse _) as [[[] [info|]]|m]; try done.
      cbn. unfold saveNewCredential.
      by destruct (Postgres.int4 (info_counter info)).
  - by rewrite (RedisFacts.redis_take_dead _ _ _ Hl).
Qed.

Lemma mem_verifyAuthentication_run (w : InMemory.W) uid assertionResponse :
  run (InMemory.verifyAuthentication uid assertionResponse) w
  = if Postgres.is_uuid uid
    then
      match Repository.findUserById uid (db w) with
      | None => (Thrown (UnauthorizedException "User not found"), w)
      | Some user =>
          match find_credential (claimed_credentialId assertionResponse) user with
          | None => (Thrown credential_not_found, w)
          | Some credential =>
              match store w !! key_of uid auth with
              | None => (Thrown not_found_InMemory, w)
              | Some stored =>
                  authentication_result assertionResponse
                    (InMemory.challenge stored) credential (mkVerified true)
                    (with_store (delete (key_of uid auth) (store w)) w)
              end
          end
      end
    else (Thrown (QueryFailedError (invalid_uuid uid)), w).
Proof.
  unfold InMemory.verifyAuthentication, authentication_result.
  rewrite run_by_uuid. destruct (Postgres.is_uuid uid); [|done].
  destruct (Repository.findUserById uid (db w)) as [user|]; [|done]. cbn.
  destruct (find_credential _ user) as [credential|]; [|done].
  rewrite run_bind.
  destruct (store w !! key_of uid auth) as [stored|] eqn:Hs.
  - rewrite (InMemoryFacts.mem_take_found _ _ _ _ Hs). cbn.
    destruct (verifyAuthenticationResponse _) as [v|m]; [|done]. cbn.
    destruct (auth_verified v); [|done]. cbn. unfold saveCredential. cbn.
    by destruct (Postgres.int4 _).
  - by rewrite (InMemoryFacts.mem_take_missing _ _ _ Hs).
Qed.

Lemma redis_verifyAuthentication_run (w : RedisBacked.W) uid
    assertionResponse :
  run (RedisBacked.verifyAuthentication uid assertionResponse) w
  = if Postgres.is_uuid uid
    then
      match Repository.findUserById uid (db w) with
      | None => (Thrown (UnauthorizedException "User not found"), w)
      | Some user =>
          match find_credential (claimed_credentialId assertionResponse) user with
          | None => (Thrown credential_not_found, w)
          | Some credential =>
              match RedisService.live w (key_of uid auth) with
              | None => (Thrown not_found_Redis, w)
              | Some c =>
                  if falsy_string c then (Thrown not_found_Redis, w)
                  else authentication_result assertionResponse c credential
                         (mkVerified true)
                         (with_store (delete (key_of uid auth) (store w)) w)
              end
          end
      end
    else (Thrown (QueryFailedError (invalid_uuid uid)), w).
Proof.
  unfold RedisBacked.verifyAuthentication, authentication_result.
  rewrite run_by_uuid. destruct (Postgres.is_uuid uid); [|done].
  destruct (Repository.findUserById uid (db w)) as [user|]; [|done]. cbn.
  destruct (find_credential _ user) as [credential|]; [|done].
  rewrite run_bind.
  destruct (RedisService.live w (key_of uid auth)) as [c|] eqn:Hl.
  - destruct (falsy_string c) eqn:Hf.
    + by rewrite (RedisFacts.redis_take_empty _ _ _ _ Hl Hf).
    + rewrite (RedisFacts.redis_take_live _ _ _ _ Hl Hf). cbn.
      destruct (verifyAuthenticationResponse _) as [v|m]; [|done]. cbn.
      destruct (auth_verified v); [|done]. cbn. unfold saveCredential. cbn.
      by destruct (Postgres.int4 _).
  - by rewrite (RedisFacts.redis_take_dead _ _ _ Hl).
Qed.

Lemma mem_verifyAuthenticationByEmail_run (w : InMemory.W) mail
    assertionResponse :
  run (InMemory.verifyAuthenticationByEmail mail assertionResponse) w
  = match Repository.findUserByEmail mail (db w) with
    | None => (Thrown (UnauthorizedException "User not found"), w)
    | Some user =>
        match find_credential (claimed_credentialId assertionResponse) user with
        | None => (Thrown credential_not_found, w)
        | Some credential =>
            match store w !! ("auth-email-" +:+ mail) with
            | None => (Thrown not_found_InMemory, w)
            | Some stored =>
                authentication_result assertionResponse
                  (InMemory.challenge stored) credential
                  (mkVerifiedLogin true (publicUser (row user)))
                  (with_store (delete ("auth-email-" +:+ mail) (store w)) w)
            end
        end
    end.
Proof.
  unfold InMemory.verifyAuthenticationByEmail, authentication_result. cbn.
  destruct (Repository.findUserByEmail mail (db w)) as [user|]; [|done]. cbn.
  destruct (find_credential _ user) as [credential|]; [|done]. cbn.
  destruct (store w !! _) as [stored|]; [|done]. cbn.
  destruct (verifyAuthenticationResponse _) as [v|m]; [|done]. cbn.
  destruct (auth_verified v); [|done]. cbn. unfold saveCredential. cbn.
  by destruct (Postgres.int4 _).
Qed.

Lemma redis_verifyAuthenticationByEmail_run (w : RedisBacked.W) mail
    assertionResponse :
  run (RedisBacked.verifyAuthenticationByEmail mail assertionResponse) w
  = match Repository.findUserByEmail mail (db w) with
    | None => (Thrown (UnauthorizedException "User not found"), w)
    | Some user =>
        match find_credential (claimed_credentialId assertionResponse) user with
        | None => (Thrown credential_not_found, w)
        | Some credential =>
            match RedisService.live w ("auth-email-" +:+ mail) with
            | None => (Thrown not_found_Redis, w)
            | Some c =>
                if falsy_string c then (Thrown not_found_Redis, w)
                else authentication_result assertionResponse c credential
                       (mkVerifiedLogin true (publicUser (row user)))
                       (with_store
                          (delete ("auth-email-" +:+ mail) (store w)) w)
            end
        end
    end.
Proof.
  unfold RedisBacked.verifyAuthenticationByEmail, authentication_result. cbn.
  destruct (Repository.findUserByEmail mail (db w)) as [user|]; [|done]. cbn.
  destruct (find_credential _ user) as [credential|]; [|done]. cbn.
  destruct (RedisService.live w _) as [c|]; [|done]. cbn.
  destruct (falsy_string c); [done|]. cbn.
  destruct (verifyAuthenticationResponse _) as [v|m]; [|done]. cbn.
  destruct (auth_verified v); [|done]. cbn. unfold saveCredential. cbn.
  by destruct (Postgres.int4 _).
Qed.

End Unfolded.

(** ** The signature counter *)

(** Rows of a table with a primary key are told apart by the key. *)
Lemma same_key_same_row {A B} (f : A → B) (l : list A) x y :
  NoDup (f <$> l) → x ∈ l → y ∈ l → f x = f y → x = y.
Proof.
  induction l as [|z l IH]; intros Hnd Hx Hy E; [by apply elem_of_nil in Hx|].
  cbn in Hnd. apply NoDup_cons in Hnd as [Hz Hnd].
  apply elem_of_cons in Hx as [->|Hx], Hy as [->|Hy]; try done.
  - exfalso. apply Hz. apply list_elem_of_fmap. by exists y.
  - exfalso. apply Hz. apply list_elem_of_fmap. by exists x.
  - by apply IH.
Qed.

Lemma findUserById_loaded uid d user :
  Repository.findUserById uid d = Some user →
  credentials user = Repository.credentials_of d (row user).
Proof.
  unfold Repository.findUserById.
  destruct (List.find _ (users d)); [|done]. by intros [= <-].
Qed.

Lemma findUserByEmail_loaded mail d user :
  Repository.findUserByEmail mail d = Some user →
  credentials user = Repository.credentials_of d (row user).
Proof.
  unfold Repository.findUserByEmail.
  destruct (List.find _ (users d)); [|done]. by intros [= <-].
Qed.

Lemma find_credential_in_table credId user credential d :
  credentials user = Repository.credentials_of d (row user) →
  find_credential credId user = Some credential →
  credential ∈ creds d.
Proof.
  unfold find_credential, Repository.credentials_of. intros -> F.
  apply find_some in F as [F _]. apply list_elem_of_In in F.
  by apply list_elem_of_filter in F as [_ F].
Qed.

Lemma same_but_counter_refl c : same_but_counter c c.
Proof. done. Qed.

Lemma counters_not_lowered_refl d d' :
  creds d' = creds d → counters_not_lowered d d'.
Proof. intros E c Hc. exists c. by rewrite E. Qed.

Lemma counters_not_lowered_trans d1 d2 d3 :
  counters_not_lowered d1 d2 → counters_not_lowered d2 d3 →
  counters_not_lowered d1 d3.
Proof.
  intros H12 H23 c Hc.
  destruct (H12 c Hc) as (c' & Hc' & S1 & L1).
  destruct (H23 c' Hc') as (c'' & Hc'' & S2 & L2).
  exists c''. split; [done|]. split; [|lia].
  destruct S1 as (? & ? & ? & ? & ? & ? & ?), S2 as (? & ? & ? & ? & ? & ? & ?).
  repeat split; congruence.
Qed.

(** Saving a stored credential with a counter that is not lower keeps every
    row, lowers no counter and keeps the ids a primary key. *)
Lemma updateCredential_not_lowered d credential n :
  primary_key d →
  credential ∈ creds d →
  counter credential ≤ n →
  counters_not_lowered d
    (Repository.updateCredential (set_counter n credential) d)
  ∧ primary_key (Repository.updateCredential (set_counter n credential) d).
Proof.
  unfold primary_key, Repository.updateCredential. cbn.
  intros Hpk Hin Hn. split.
  - intros c Hc.
    destruct (decide (Postgres.uuid_value (id c)
                      = Postgres.uuid_value (id credential))) as [E|E].
    + assert (c = credential) as ->.
      { eapply same_key_same_row; [exact Hpk|done|done|exact E]. }
      exists (set_counter n credential).
      split; [apply elem_of_app; right; by left|done].
    + exists c. split; [|done]. apply elem_of_app. left.
      by apply list_elem_of_filter.
  - rewrite fmap_app. cbn. apply NoDup_app. split; [|split].
    + apply NoDup_fmap_2_strong.
      * intros x y [_ Hx]%list_elem_of_filter [_ Hy]%list_elem_of_filter E.
        eapply same_key_same_row; [exact Hpk|done|done|exact E].
      * apply NoDup_filter.
        eapply (NoDup_fmap_1 (λ c, Postgres.uuid_value (id c))). exact Hpk.
    + intros k (c & -> & Hc)%list_elem_of_fmap Hk.
      apply list_elem_of_filter in Hc as [Hne _].
      apply list_elem_of_singleton in Hk. done.
    + apply NoDup_singleton.
Qed.

Section Counter.
Context `{Libraries}.
Hypothesis rule : counter_rule.

(** The counter the verifier resolves with is not below the stored one. *)
Lemma reported_not_lower assertionResponse c credential verification :
  verifyAuthenticationResponse
    (authenticationOpts assertionResponse c credential)
  = Resolved verification →
  counter credential < newCounter (authenticationInfo verification)
  ∨ (newCounter (authenticationInfo verification) = 0
     ∧ counter credential ≤ 0).
Proof. intros Hv. apply rule in Hv. cbn in Hv. lia. Qed.

Lemma authentication_result_not_lowered {V A} assertionResponse c credential
    (ret : A) (w w1 : World V) :
  primary_key (db w) →
  credential ∈ creds (db w) →
  db w1 = db w →
  let after := (authentication_result assertionResponse c credential ret
                  w1).2 in
  counters_not_lowered (db w) (db after) ∧ primary_key (db after).
Proof.
  intros Hpk Hin Hd. unfold authentication_result.
  destruct (verifyAuthenticationResponse _) as [v|m] eqn:Hv; cbn;
    [|rewrite Hd; split; [by apply counters_not_lowered_refl|done]].
  destruct (auth_verified v); cbn;
    [|rewrite Hd; split; [by apply counters_not_lowered_refl|done]].
  destruct (Postgres.int4 _); cbn;
    [|rewrite Hd; split; [by apply counters_not_lowered_refl|done]].
  rewrite Hd. apply updateCredential_not_lowered; [done|done|].
  apply reported_not_lower in Hv. lia.
Qed.

(** One thing happens: no counter is lower afterwards. *)
Lemma InMemory_happens_not_lowered e (w : InMemory.W) :
  primary_key (db w) →
  counters_not_lowered (db w) (db (InMemory_happens e w))
  ∧ primary_key (db (InMemory_happens e w)).
Proof.
  intros Hpk.
  assert (∀ w' : InMemory.W, db w' = db w →
            counters_not_lowered (db w) (db w') ∧ primary_key (db w')) as Same.
  { intros w' E. split; [apply counters_not_lowered_refl|]; by rewrite E. }
  destruct e as [fresh uid|fresh mail|uid r|mail r|d|];
    cbn [InMemory_happens].
  - rewrite mem_generateAuthenticationOptions_run.
    destruct (Postgres.is_uuid uid); [|by apply Same].
    destruct (Repository.findUserById uid (db w)) as [user|];
      [|by apply Same].
    destruct (credentials user); by apply Same.
  - rewrite mem_generateAuthenticationOptionsByEmail_run.
    destruct (Repository.findUserByEmail mail (db w)) as [user|];
      [|by apply Same].
    destruct (credentials user); by apply Same.
  - rewrite mem_verifyAuthentication_run.
    destruct (Postgres.is_uuid uid); [|by apply Same].
    destruct (Repository.findUserById uid (db w)) as [user|] eqn:Hu;
      [|by apply Same].
    destruct (find_credential _ user) as [credential|] eqn:Hc;
      [|by apply Same].
    destruct (store w !! _); [|by apply Same].
    apply authentication_result_not_lowered; [done| |done].
    eapply find_credential_in_table; [|done].
    by eapply findUserById_loaded.
  - rewrite mem_verifyAuthenticationByEmail_run.
    destruct (Repository.findUserByEmail mail (db w)) as [user|] eqn:Hu;
      [|by apply Same].
    destruct (find_credential _ user) as [credential|] eqn:Hc;
      [|by apply Same].
    destruct (store w !! _); [|by apply Same].
    apply authentication_result_not_lowered; [done| |done].
    eapply find_credential_in_table; [|done].
    by eapply findUserByEmail_loaded.
  - by apply Same.
  - by apply Same.
Qed.

Lemma Redis_happens_not_lowered e (w : RedisBacked.W) :
  primary_key (db w) →
  counters_not_lowered (db w) (db (Redis_happens e w))
  ∧ primary_key (db (Redis_happens e w)).
Proof.
  intros Hpk.
  assert (∀ w' : RedisBacked.W, db w' = db w →
            counters_not_lowered (db w) (db w') ∧ primary_key (db w'))
    as Same.
  { intros w' E. split; [apply counters_not_lowered_refl|]; by rewrite E. }
  destruct e as [fresh uid|fresh mail|uid r|mail r|d|];
    cbn [Redis_happens].
  - rewrite redis_generateAuthenticationOptions_run.
    destruct (Postgres.is_uuid uid); [|by apply Same].
    destruct (Repository.findUserById uid (db w)) as [user|];
      [|by apply Same].
    destruct (credentials user); by apply Same.
  - rewrite redis_generateAuthenticationOptionsByEmail_run.
    destruct (Repository.findUserByEmail mail (db w)) as [user|];
      [|by apply Same].
    destruct (credentials user); by apply Same.
  - rewrite redis_verifyAuthentication_run.
    destruct (Postgres.is_uuid uid); [|by apply Same].
    destruct (Repository.findUserById uid (db w)) as [user|] eqn:Hu;
      [|by apply Same].
    destruct (find_credential _ user) as [credential|] eqn:Hc;
      [|by apply Same].
    destruct (RedisService.live w _) as [c|]; [|by apply Same].
    destruct (falsy_string c); [by apply Same|].
    apply authentication_result_not_lowered; [done| |done].
    eapply find_credential_in_table; [|done].
    by eapply findUserById_loaded.
  - rewrite redis_verifyAuthenticationByEmail_run.
    destruct (Repository.findUserByEmail mail (db w)) as [user|] eqn:Hu;
      [|by apply Same].
    destruct (find_credential _ user) as [credential|] eqn:Hc;
      [|by apply Same].
    destruct (RedisService.live w _) as [c|]; [|by apply Same].
    destruct (falsy_string c); [by apply Same|].
    apply authentication_result_not_lowered; [done| |done].
    eapply find_credential_in_table; [|done].
    by eapply findUserByEmail_loaded.
  - by apply Same.
  - by apply Same.
Qed.

End Counter.

(** How the part of an authentication that follows the taking of the
    challenge can end. *)
Lemma authentication_result_cases `{Libraries} {V A} assertionResponse c
    credential (ret : A) (w1 : World V) :
  (∃ e, authentication_result assertionResponse c credential ret w1
        = (Thrown e, w1))
  ∨ (∃ v,
       verifyAuthenticationResponse
         (authenticationOpts assertionResponse c credential) = Resolved v
       ∧ auth_verified v = true
       ∧ Postgres.int4 (newCounter (authenticationInfo v)) = true
       ∧ authentication_result assertionResponse c credential ret w1
         = (Returned ret,
            with_db (Repository.updateCredential
                       (set_counter (newCounter (authenticationInfo v))
                                    credential) (db w1)) w1)).
Proof.
  unfold authentication_result.
  destruct (verifyAuthenticationResponse _) as [v|m]; [|left; by eexists].
  destruct (auth_verified v) eqn:Hok; [|left; by eexists].
  cbn. destruct (Postgres.int4 _) eqn:Hr; [|left; by eexists].
  right. by exists v.
Qed.



(** The stand-in for the verifier follows the counter rule. *)
Lemma Demo_counter_rule reported : @counter_rule (Demo.libraries reported).
Proof.
  intros opts v. cbn.
  destruct (negb _); [done|].
  pose proof (Z.mod_pos_bound reported 4294967296 eq_refl) as B.
  destruct (_ && _) eqn:E; [done|]. intros [= <-]. cbn. split; [lia|].
  apply andb_false_iff in E as [E|E].
  - apply orb_false_iff in E as [E1 E2]. lia.
  - lia.
Qed.


(** ** Deleting a passkey *)

(** For a parameter PostgreSQL accepts, a row matches exactly when it holds
    the uuid the parameter denotes. *)
Lemma same_id_iff stored parameter :
  Postgres.is_uuid parameter = true →
  Repository.same_id stored parameter = true
  ↔ Postgres.uuid_value stored = Postgres.uuid_value parameter.
Proof.
  unfold Repository.same_id, Postgres.is_uuid, Postgres.uuid_value.
  destruct (Postgres.uuid_in parameter) as [u|]; [|done]. intros _.
  rewrite bool_decide_eq_true.
  destruct (Postgres.uuid_in stored); split; congruence.
Qed.

(** How [deleteCredential] runs. *)
Lemma deleteCredential_run {C} (w : World C) uid cid :
  run (deleteCredential uid cid) w
  = if Postgres.is_uuid cid
    then
      if Postgres.is_uuid uid
      then
        match Repository.findCredential cid uid (db w) with
        | None => (Thrown credential_not_found, w)
        | Some c =>
            (Returned (mkDeleted true),
             with_db (Repository.removeCredential c (db w)) w)
        end
      else (Thrown (QueryFailedError (invalid_uuid uid)), w)
    else (Thrown (QueryFailedError (invalid_uuid cid)), w).
Proof.
  unfold deleteCredential. cbn. unfold query_by_uuid. cbn.
  destruct (Postgres.is_uuid cid); [|done]. cbn.
  destruct (Postgres.is_uuid uid); [|done]. cbn.
  by destruct (Repository.findCredential cid uid (db w)).
Qed.




(** ** The password hash stays inside *)

Lemma find_through_map {A B} (f : A → B) (p : A → bool) (q : B → bool)
    (l : list A) :
  (∀ a, p a = q (f a)) →
  f <$> List.find p l = List.find q (map f l).
Proof.
  intros Hp. induction l as [|a l IH]; [done|]. cbn. rewrite <- Hp.
  by destruct (p a).
Qed.

Lemma load_alike d d' (u u' : option User) :
  creds d = creds d' →
  forget_password <$> u = forget_password <$> u' →
  alike (Repository.load d <$> u) (Repository.load d' <$> u').
Proof.
  intros Hc Hu. destruct u as [u|], u' as [u'|]; try done. cbn in *.
  injection Hu as Hi Hf Hl He Ht. split.
  - unfold forget_password. congruence.
  - unfold Repository.credentials_of. by rewrite Hc, Hi.
Qed.

Lemma findUserById_alike d d' uid :
  same_but_passwords d d' →
  alike (Repository.findUserById uid d) (Repository.findUserById uid d').
Proof.
  intros [Hu Hc]. apply load_alike; [done|].
  rewrite !(find_through_map forget_password _
              (λ u, Repository.same_id (user_id u) uid)) by done.
  by rewrite Hu.
Qed.

Lemma findUserByEmail_alike d d' mail :
  same_but_passwords d d' →
  alike (Repository.findUserByEmail mail d) (Repository.findUserByEmail mail d').
Proof.
  intros [Hu Hc]. apply load_alike; [done|].
  rewrite !(find_through_map forget_password _
              (λ u, String.eqb (email u) mail)) by done.
  by rewrite Hu.
Qed.

Lemma alike_public (a b : LoadedUser) :
  forget_password (row a) = forget_password (row b) →
  user_id (row a) = user_id (row b)
  ∧ email (row a) = email (row b)
  ∧ firstName (row a) = firstName (row b)
  ∧ lastName (row a) = lastName (row b).
Proof. intros E. injection E as -> -> -> -> _. done. Qed.

(** C9. No value returned by [register], [login], [getUser] or
    [verifyAuthenticationByEmail] depends on a stored password hash:
    [register] returns the generated id and the three fields of the
    request; two successful [login]s against databases that differ in
    password hashes only return the same value; [getUser] and
    [verifyAuthenticationByEmail] answer the same (value or exception)
    against such databases. The values have the fields [id], [email],
    [firstName], [lastName] (and, for [getUser], [id], [deviceType],
    [createdAt] of each credential) and no other. *)
Theorem password_hash_never_returned `{Libraries} {C : Type} :
  (∀ (w w' : World C) uuid registerDto r,
     run (register uuid registerDto) w = (Returned r, w') →
     r = mkPublicUser uuid (dto_email registerDto) (dto_firstName registerDto)
                      (dto_lastName registerDto))
  ∧ (∀ (w1 w2 w1' w2' : World C) loginDto r1 r2,
       same_but_passwords (db w1) (db w2) →
       run (login loginDto) w1 = (Returned r1, w1') →
       run (login loginDto) w2 = (Returned r2, w2') →
       r1 = r2)
  ∧ (∀ (w1 w2 : World C) uid,
       same_but_passwords (db w1) (db w2) →
       (run (getUser uid) w1).1 = (run (getUser uid) w2).1)
  ∧ (∀ (w1 w2 : InMemory.W) mail assertionResponse,
       same_but_passwords (db w1) (db w2) →
       store w1 = store w2 →
       now w1 = now w2 →
       (run (InMemory.verifyAuthenticationByEmail mail assertionResponse) w1).1
       = (run (InMemory.verifyAuthenticationByEmail mail assertionResponse)
            w2).1)
  ∧ (∀ (w1 w2 : RedisBacked.W) mail assertionResponse,
       same_but_passwords (db w1) (db w2) →
       store w1 = store w2 →
       now w1 = now w2 →
       (run (RedisBacked.verifyAuthenticationByEmail mail assertionResponse)
          w1).1
       = (run (RedisBacked.verifyAuthenticationByEmail mail assertionResponse)
            w2).1).
Proof.
  split; [|split; [|split; [|split]]].
  - intros w w' uuid registerDto r R. unfold register in R. cbn in R.
    destruct (Repository.findUserByEmail _ (db w)); cbn in R;
      [discriminate R|].
    by injection R as <- _.
  - intros w1 w2 w1' w2' loginDto r1 r2 S R1 R2.
    pose proof (findUserByEmail_alike _ _ (login_email loginDto) S) as A.
    unfold login in R1, R2. cbn in R1, R2.
    destruct (Repository.findUserByEmail _ (db w1)) as [a|],
             (Repository.findUserByEmail _ (db w2)) as [b|];
      cbn in *; try done.
    destruct A as [A _]. apply alike_public in A as (Hi & He & Hf & Hl).
    destruct (bcrypt_compare _ (password (row a))); [|discriminate R1].
    destruct (bcrypt_compare _ (password (row b))); [|discriminate R2].
    injection R1 as <- _. injection R2 as <- _. congruence.
  - intros w1 w2 uid S.
    pose proof (findUserById_alike _ _ uid S) as A.
    unfold getUser. destruct (_ || _); [done|].
    rewrite !run_by_uuid. destruct (Postgres.is_uuid uid); [|done].
    destruct (Repository.findUserById uid (db w1)) as [a|],
             (Repository.findUserById uid (db w2)) as [b|];
      cbn in *; try done.
    destruct A as [A Hc]. apply alike_public in A as (Hi & He & Hf & Hl).
    congruence.
  - intros [d1 s1 t1] [d2 s2 t2] mail assertionResponse S Hs Ht.
    cbn in S, Hs, Ht. subst s2 t2.
    pose proof (findUserByEmail_alike _ _ mail S) as A.
    unfold InMemory.verifyAuthenticationByEmail. cbn.
    destruct (Repository.findUserByEmail mail d1) as [a|],
             (Repository.findUserByEmail mail d2) as [b|];
      cbn in *; try done.
    destruct A as [A Hc]. apply alike_public in A as (Hi & He & Hf & Hl).
    unfold find_credential. rewrite Hc.
    destruct (List.find _ (credentials b)) as [cred|]; [|done]. cbn.
    destruct (s1 !! _) as [stored|]; [|done]. cbn.
    destruct (verifyAuthenticationResponse _) as [v|m]; [|done]. cbn.
    destruct (auth_verified v); [|done]. cbn. unfold saveCredential. cbn.
    destruct (Postgres.int4 _); cbn; congruence.
  - intros [d1 s1 t1] [d2 s2 t2] mail assertionResponse S Hs Ht.
    cbn in S, Hs, Ht. subst s2 t2.
    pose proof (findUserByEmail_alike _ _ mail S) as A.
    unfold RedisBacked.verifyAuthenticationByEmail. cbn.
    destruct (Repository.findUserByEmail mail d1) as [a|],
             (Repository.findUserByEmail mail d2) as [b|];
      cbn in *; try done.
    destruct A as [A Hc]. apply alike_public in A as (Hi & He & Hf & Hl).
    unfold find_credential. rewrite Hc.
    destruct (List.find _ (credentials b)) as [cred|]; [|done]. cbn.
    unfold RedisService.live. cbn.
    destruct (s1 !! _) as [[c exp]|]; [|done]. cbn.
    destruct (t1 <=? exp); [|done]. cbn.
    destruct (falsy_string c); [done|]. cbn.
    destruct (verifyAuthenticationResponse _) as [v|m]; [|done]. cbn.
    destruct (auth_verified v); [|done]. cbn. unfold saveCredential. cbn.
    destruct (Postgres.int4 _); cbn; congruence.
Qed.

(** The same requests before and after Alice changed her password. *)
Lemma password_hash_never_returned_witness :
  let H := Demo.libraries 6 in
  let old : RedisBacked.W := mkWorld (Demo.database 5) ∅ 0 in
  let new : RedisBacked.W := mkWorld (Demo.database_rehashed 5) ∅ 0 in
  let mail := "alice@example.com" in
  let resp := Demo.signed Demo.cred1 "c1" in
  (run (getUser Demo.u1) old).1 = (run (getUser Demo.u1) new).1
  ∧ (run (RedisBacked.verifyAuthenticationByEmail mail resp)
       (run (RedisBacked.generateAuthenticationOptionsByEmail "c1" mail) old).2).1
    = (run (RedisBacked.verifyAuthenticationByEmail mail resp)
         (run (RedisBacked.generateAuthenticationOptionsByEmail "c1" mail)
            new).2).1.
Proof.
  cbn zeta. split.
  - apply (proj1 (proj2 (proj2
             (@password_hash_never_returned (Demo.libraries 6)
                (gmap string RedisService.RedisEntry))))).
    split; reflexivity.
  - apply (proj2 (proj2 (proj2 (proj2
             (@password_hash_never_returned (Demo.libraries 6)
                (gmap string RedisService.RedisEntry)))))).
    + split; reflexivity.
    + reflexivity.
    + reflexivity.
Defined.

(** ** Two requests racing for one challenge *)

(** C5 on the code. In the Redis revision the challenge is read with one
    command ([GET]) and deleted with another ([DEL]), each behind its own
    [await]. When two calls are resumed in turn, both read the challenge
    before either deletes it: whenever one call alone would return, both
    racing calls return that same value. *)
Theorem racing_calls_both_succeed `{Libraries} :
  (∀ (w w' : RedisBacked.W) mail assertionResponse r,
     run (RedisBacked.verifyAuthenticationByEmail mail assertionResponse) w
     = (Returned r, w') →
     let call := RedisBacked.verifyAuthenticationByEmail mail assertionResponse in
     answer (race alternate call call w).1.1 = Some (Returned r)
     ∧ answer (race alternate call call w).1.2 = Some (Returned r))
  ∧ (∀ (w w' : RedisBacked.W) uid assertionResponse r,
       run (RedisBacked.verifyAuthentication uid assertionResponse) w
       = (Returned r, w') →
       let call := RedisBacked.verifyAuthentication uid assertionResponse in
       answer (race alternate call call w).1.1 = Some (Returned r)
       ∧ answer (race alternate call call w).1.2 = Some (Returned r)).
Proof.
  split.
  - intros [d s t] w' mail assertionResponse r R. cbn zeta.
    unfold RedisBacked.verifyAuthenticationByEmail in *.
    unfold race, alternate. cbn in R |- *.
    destruct (Repository.findUserByEmail mail d) as [user|] eqn:Hu;
      cbn in R |- *; [|discriminate R].
    destruct (find_credential _ user) as [cred|] eqn:Hc;
      cbn in R |- *; [|discriminate R].
    unfold RedisService.live in *. cbn in R |- *.
    destruct (s !! _) as [[c exp]|] eqn:Hs; cbn in R |- *; [|discriminate R].
    destruct (t <=? exp) eqn:Ht; cbn in R |- *; [|discriminate R].
    destruct (falsy_string c) eqn:Hf; cbn in R |- *; [discriminate R|].
    destruct (verifyAuthenticationResponse _) as [v|m] eqn:Hv;
      cbn in R |- *; [|discriminate R].
    destruct (auth_verified v) eqn:Hok; cbn in R |- *; [|discriminate R].
    unfold saveCredential in *. cbn in R |- *.
    destruct (Postgres.int4 _) eqn:Hfit; cbn in R |- *; [|discriminate R].
    injection R as <- _.
    repeat (first [rewrite Hu | rewrite Hc | rewrite Hs | rewrite Ht
                  | rewrite Hf | rewrite Hv | rewrite Hok | rewrite Hfit
                  | progress unfold RedisService.live]; cbn).
    done.
  - intros [d s t] w' uid assertionResponse r R. cbn zeta.
    unfold RedisBacked.verifyAuthentication, RedisBacked.getExpectedChallenge
      in *.
    unfold race, alternate, query_by_uuid in *. cbn in R |- *.
    destruct (Postgres.is_uuid uid) eqn:Hid; cbn in R |- *; [|discriminate R].
    destruct (Repository.findUserById uid d) as [user|] eqn:Hu;
      cbn in R |- *; [|discriminate R].
    destruct (find_credential _ user) as [cred|] eqn:Hc;
      cbn in R |- *; [|discriminate R].
    unfold RedisService.live in *. cbn in R |- *.
    destruct (s !! _) as [[c exp]|] eqn:Hs; cbn in R |- *; [|discriminate R].
    destruct (t <=? exp) eqn:Ht; cbn in R |- *; [|discriminate R].
    destruct (falsy_string c) eqn:Hf; cbn in R |- *; [discriminate R|].
    destruct (verifyAuthenticationResponse _) as [v|m] eqn:Hv;
      cbn in R |- *; [|discriminate R].
    destruct (auth_verified v) eqn:Hok; cbn in R |- *; [|discriminate R].
    unfold saveCredential in *. cbn in R |- *.
    destruct (Postgres.int4 _) eqn:Hfit; cbn in R |- *; [|discriminate R].
    injection R as <- _.
    repeat (first [rewrite Hu | rewrite Hc | rewrite Hs | rewrite Ht
                  | rewrite Hf | rewrite Hv | rewrite Hok | rewrite Hfit
                  | progress unfold RedisService.live]; cbn).
    done.
Qed.

(** Two logins of Alice with the same signed response, resumed in turn. *)
Lemma racing_calls_both_succeed_witness :
  let H := Demo.libraries 6 in
  let mail := "alice@example.com" in
  let resp := Demo.signed Demo.cred1 "c1" in
  let w := (run (RedisBacked.generateAuthenticationOptionsByEmail "c1" mail)
              (Demo.redis 5)).2 in
  let call := RedisBacked.verifyAuthenticationByEmail mail resp in
  let r := mkVerifiedLogin true (publicUser Demo.alice) in
  answer (race alternate call call w).1.1 = Some (Returned r)
  ∧ answer (race alternate call call w).1.2 = Some (Returned r).
Proof.
  cbn zeta. pose (H := Demo.libraries 6).
  apply (proj1 (@racing_calls_both_succeed H)
           (run (RedisBacked.generateAuthenticationOptionsByEmail "c1"
                   "alice@example.com") (Demo.redis 5)).2
           (run (RedisBacked.verifyAuthenticationByEmail "alice@example.com"
                   (Demo.signed Demo.cred1 "c1"))
              (run (RedisBacked.generateAuthenticationOptionsByEmail "c1"
                      "alice@example.com") (Demo.redis 5)).2).2
           "alice@example.com" (Demo.signed Demo.cred1 "c1")
           (mkVerifiedLogin true (publicUser Demo.alice))).
  vm_compute. reflexivity.
Defined.

(** The same two calls against the first revision, resumed in the same
    order: the second finds the challenge gone. *)
Lemma InMemory_second_call_finds_nothing :
  let H := Demo.libraries 6 in
  let mail := "alice@example.com" in
  let resp := Demo.signed Demo.cred1 "c1" in
  let w := (run (InMemory.generateAuthenticationOptionsByEmail "c1" mail)
              (Demo.memory 5)).2 in
  let call := InMemory.verifyAuthenticationByEmail mail resp in
  answer (race alternate call call w).1.1
  = Some (Returned (mkVerifiedLogin true (publicUser Demo.alice)))
  ∧ answer (race alternate call call w).1.2 = Some (Thrown not_found_InMemory).
Proof. vm_compute. split; reflexivity. Qed.

(** ** Taking without yielding: at most one of two racing requests returns *)

Section AtMostOnce.
Context {V A B : Type}.
Implicit Types (s : World (gmap string V)).

Lemma settle_store_free {X} (m : Async (World (gmap string V)) X) : ∀ s,
  store_free m →
  store_free (settle m s).1 ∧ store (settle m s).2 = store s.
Proof.
  induction m as [a|e|Y act k IH|Y act k IH]; intros s F; try done.
  cbn. destruct F as [Fa Fk]. destruct (act s) as [x s'] eqn:E.
  destruct (IH x s' (Fk x)) as [F1 F2]. split; [done|].
  rewrite F2. by rewrite <- (Fa s), E.
Qed.

Lemma resume_store_free {X} (m : Async (World (gmap string V)) X) s :
  store_free m →
  store_free (resume m s).1 ∧ store (resume m s).2 = store s.
Proof.
  destruct m as [a|e|Y act k|Y act k]; intros F; try done.
  cbn. destruct F as [Fa Fk]. destruct (act s) as [x s'] eqn:E.
  destruct (settle_store_free (k x) s' (Fk x)) as [F1 F2]. split; [done|].
  rewrite F2. by rewrite <- (Fa s), E.
Qed.

Lemma resume_dead {X} (m : Async (World (gmap string V)) X) s :
  dead m → resume m s = (m, s).
Proof. by destruct m. Qed.

Lemma interleave_cons b sched (p : Async (World (gmap string V)) A)
    (q : Async (World (gmap string V)) B) s :
  interleave (b :: sched) p q s
  = if b then interleave sched p (resume q s).1 (resume q s).2
    else interleave sched (resume p s).1 q (resume p s).2.
Proof. destruct b; cbn; by destruct (resume _ s). Qed.

(** Two requests that both take the record of [k] first, resumed in any
    order: they never both return. *)
Lemma take_first_at_most_once (k : string)
    (p0 : Async (World (gmap string V)) A)
    (q0 : Async (World (gmap string V)) B) :
  takes_first k p0 → takes_first k q0 →
  ∀ sched s,
    ¬ (returned (answer (interleave sched p0 q0 s).1.1) = true
       ∧ returned (answer (interleave sched p0 q0 s).1.2) = true).
Proof.
  intros [Ap Tp] [Aq Tq] sched s.
  assert (∀ sched p q s (tp tq : bool),
            (if tp then store_free p else p = p0 ∨ (store_free p ∧ dead p)) →
            (if tq then store_free q else q = q0 ∨ (store_free q ∧ dead q)) →
            tp && tq = false →
            (tp || tq = true → store s !! k = None) →
            ¬ (returned (answer (interleave sched p q s).1.1) = true
               ∧ returned (answer (interleave sched p q s).1.2) = true))
    as Inv.
  { clear sched s. induction sched as [|b sched IH]; intros p q s tp tq Hp Hq Hx Hs.
    - cbn. intros [Rp Rq].
      assert (tp = true) as ->.
      { destruct tp; [done|]. destruct Hp as [->|[_ D]].
        - by rewrite Ap in Rp.
        - by destruct p. }
      assert (tq = true) as ->; [|done].
      destruct tq; [done|]. destruct Hq as [->|[_ D]].
      + by rewrite Aq in Rq.
      + by destruct q.
    - rewrite interleave_cons. destruct b.
      + (* the second request is resumed *)
        destruct tq.
        * destruct (resume_store_free q s Hq) as [F S].
          apply (IH _ _ _ tp true); [done|done|done|]. rewrite S.
          intros _. apply Hs. by destruct tp.
        * destruct Hq as [->|[F D]].
          -- destruct (Tq s) as [F [[D S]|[I N]]].
             ++ apply (IH _ _ _ tp false); [done|by right|done|]. by rewrite S.
             ++ destruct tp.
                ** destruct I as [x I]. rewrite Hs in I; done.
                ** by apply (IH _ _ _ false true).
          -- rewrite (resume_dead q s D). cbn.
             apply (IH _ _ _ tp false); [done|by right|done|done].
      + (* the first request is resumed *)
        destruct tp.
        * destruct (resume_store_free p s Hp) as [F S].
          apply (IH _ _ _ true tq); [done|done|done|]. rewrite S.
          intros _. by apply Hs.
        * destruct Hp as [->|[F D]].
          -- destruct (Tp s) as [F [[D S]|[I N]]].
             ++ apply (IH _ _ _ false tq); [by right|done|done|]. by rewrite S.
             ++ destruct tq.
                ** destruct I as [x I]. rewrite Hs in I; done.
                ** by apply (IH _ _ _ true false).
          -- rewrite (resume_dead p s D). cbn.
             apply (IH _ _ _ false tq); [by right|done|done|done]. }
  apply (Inv sched p0 q0 s false false); [by left|by left|done|done].
Qed.

End AtMostOnce.

Lemma InMemory_calls_take_first `{Libraries} :
  (∀ mail assertionResponse,
     takes_first ("auth-email-" +:+ mail)
       (InMemory.verifyAuthenticationByEmail mail assertionResponse))
  ∧ (∀ uid assertionResponse,
       takes_first (key_of uid auth)
         (InMemory.verifyAuthentication uid assertionResponse)).
Proof.
  split.
  - intros mail assertionResponse. split; [done|]. intros [d st t].
    unfold InMemory.verifyAuthenticationByEmail. cbn.
    destruct (Repository.findUserByEmail mail d) as [user|]; cbn;
      [|by split; [|left]].
    destruct (find_credential _ user) as [cred|]; cbn; [|by split; [|left]].
    destruct (st !! _) as [stored|] eqn:Hs; cbn; [|by split; [|left]].
    split.
    + split; [done|]. intros [v|m]; cbn; [|done].
      destruct (auth_verified v); cbn; [|done].
      split; [|by intros [x|e]].
      intros s. unfold saveCredential. by destruct (Postgres.int4 _).
    + right. split; [done|]. apply lookup_delete_eq.
  - intros uid assertionResponse. split; [done|]. intros [d st t].
    unfold InMemory.verifyAuthentication, InMemory.getExpectedChallenge,
      query_by_uuid. cbn.
    destruct (Postgres.is_uuid uid); cbn; [|by split; [|left]].
    destruct (Repository.findUserById uid d) as [user|]; cbn;
      [|by split; [|left]].
    destruct (find_credential _ user) as [cred|]; cbn; [|by split; [|left]].
    destruct (st !! _) as [stored|] eqn:Hs; cbn; [|by split; [|left]].
    split.
    + split; [done|]. intros [v|m]; cbn; [|done].
      destruct (auth_verified v); cbn; [|done].
      split; [|by intros [x|e]].
      intros s. unfold saveCredential. by destruct (Postgres.int4 _).
    + right. split; [done|]. apply lookup_delete_eq.
Qed.

(** The first revision gets and deletes the challenge without yielding:
    of two calls racing for the challenge of one key, whatever their
    responses and whatever the order of resumptions, at most one returns. *)
Lemma InMemory_racing_calls_at_most_one `{Libraries} :
  (∀ (w : InMemory.W) mail response1 response2 sched,
     let first := InMemory.verifyAuthenticationByEmail mail response1 in
     let second := InMemory.verifyAuthenticationByEmail mail response2 in
     ¬ (returned (answer (race sched first second w).1.1) = true
        ∧ returned (answer (race sched first second w).1.2) = true))
  ∧ (∀ (w : InMemory.W) uid response1 response2 sched,
       let first := InMemory.verifyAuthentication uid response1 in
       let second := InMemory.verifyAuthentication uid response2 in
       ¬ (returned (answer (race sched first second w).1.1) = true
          ∧ returned (answer (race sched first second w).1.2) = true)).
Proof.
  split.
  - intros w mail response1 response2 sched first second.
    apply (take_first_at_most_once ("auth-email-" +:+ mail) first second);
      apply InMemory_calls_take_first.
  - intros w uid response1 response2 sched first second.
    apply (take_first_at_most_once (key_of uid auth) first second);
      apply InMemory_calls_take_first.
Qed.

(** * More of the service *)

(** ** Accounts: [register], [login], [getUser] *)

Lemma findUserByEmail_None mail d :
  Repository.findUserByEmail mail d = None ↔ mail ∉ email <$> users d.
Proof.
  unfold Repository.findUserByEmail. split.
  - intros E Hin. apply list_elem_of_fmap in Hin as (u & -> & Hu).
    destruct (List.find _ (users d)) eqn:F; [done|].
    apply list_elem_of_In in Hu.
    pose proof (find_none _ _ F u Hu) as N. cbn in N.
    by rewrite String.eqb_refl in N.
  - intros Hn. destruct (List.find _ (users d)) as [u|] eqn:F; [|done].
    exfalso. apply Hn. apply find_some in F as [Hu He].
    apply String.eqb_eq in He. apply list_elem_of_fmap. exists u.
    split; [done|by apply list_elem_of_In].
Qed.

Lemma findUserByEmail_Some mail d user :
  Repository.findUserByEmail mail d = Some user →
  row user ∈ users d ∧ email (row user) = mail
  ∧ credentials user = Repository.credentials_of d (row user).
Proof.
  unfold Repository.findUserByEmail. intros E.
  destruct (List.find _ (users d)) as [u|] eqn:F; [|done].
  injection E as <-. apply find_some in F as [Hu He].
  apply String.eqb_eq in He. by rewrite list_elem_of_In.
Qed.

Lemma find_append {A} (p : A → bool) (l l' : list A) :
  List.find p (l ++ l')
  = match List.find p l with Some x => Some x | None => List.find p l' end.
Proof. induction l as [|a l IH]; [done|]. cbn. by destruct (p a). Qed.

Lemma register_run_taken `{Libraries} {C : Type} (w : World C) uuid
    registerDto :
  dto_email registerDto ∈ email <$> users (db w) →
  run (register uuid registerDto) w
  = (Thrown (BadRequestException "User already exists"), w).
Proof.
  intros Hm. unfold register. cbn.
  destruct (Repository.findUserByEmail _ (db w)) eqn:F; [done|].
  by apply findUserByEmail_None in F.
Qed.

Lemma register_run_fresh `{Libraries} {C : Type} (w : World C) uuid
    registerDto :
  dto_email registerDto ∉ email <$> users (db w) →
  run (register uuid registerDto) w
  = (Returned (mkPublicUser uuid (dto_email registerDto)
                 (dto_firstName registerDto) (dto_lastName registerDto)),
     mkWorld
       (mkDb (users (db w)
              ++ [mkUser uuid (dto_firstName registerDto)
                    (dto_lastName registerDto) (dto_email registerDto)
                    (bcrypt_hash (dto_password registerDto) 10) (now w)])
             (creds (db w)))
       (store w) (now w)).
Proof.
  intros Hm. unfold register. cbn.
  apply findUserByEmail_None in Hm. by rewrite Hm.
Qed.



(** X2. Emails stay unique: when no two stored users share an email, none
    do after [register], whatever the request and the outcome. *)
Theorem register_keeps_emails_unique `{Libraries} {C : Type}
    (w : World C) uuid registerDto :
  NoDup (email <$> users (db w)) →
  NoDup (email <$> users (db (run (register uuid registerDto) w).2)).
Proof.
  intros Hn.
  destruct (decide (dto_email registerDto ∈ email <$> users (db w))) as [Hin|Hin].
  - by rewrite (register_run_taken w uuid registerDto Hin).
  - rewrite (register_run_fresh w uuid registerDto Hin). cbn.
    rewrite fmap_app. apply NoDup_app. split; [done|]. split.
    + intros x Hx Hx'. cbn in Hx'. apply list_elem_of_singleton in Hx'.
      by subst x.
    + cbn. apply NoDup_singleton.
Qed.

(** Eve registers with Alice's address. *)
Lemma register_keeps_emails_unique_witness :
  let H := Demo.libraries 0 in
  NoDup (email <$> users
           (db (run (register Demo.u3
                       (mkRegisterDto "alice@example.com" "apple" "Eve" "Adams"))
                  (Demo.memory 5)).2)).
Proof.
  cbn zeta.
  apply (@register_keeps_emails_unique (Demo.libraries 0)).
  vm_compute. repeat constructor.
  - intros Hin. repeat (apply elem_of_cons in Hin as [Hin|Hin];
      [discriminate Hin|]). by apply elem_of_nil in Hin.
  - intros Hin. by apply elem_of_nil in Hin.
Defined.

(** X3. A user who has just registered can log in with the same password,
    and gets back what [register] returned; this is so for any bcrypt whose
    [compare] accepts what its [hash] produced. *)
Theorem register_then_login `{Libraries} {C : Type}
    (w : World C) uuid registerDto :
  dto_email registerDto ∉ email <$> users (db w) →
  bcrypt_compare (dto_password registerDto)
                 (bcrypt_hash (dto_password registerDto) 10) = true →
  let w1 := (run (register uuid registerDto) w).2 in
  run (login (mkLoginDto (dto_email registerDto) (dto_password registerDto))) w1
  = (Returned (mkPublicUser uuid (dto_email registerDto)
                 (dto_firstName registerDto) (dto_lastName registerDto)), w1).
Proof.
  intros Hin Hb w1. subst w1.
  rewrite (register_run_fresh w uuid registerDto Hin).
  apply findUserByEmail_None in Hin.
  unfold login, Repository.findUserByEmail in *. cbn.
  rewrite find_append.
  destruct (List.find _ (users (db w))) as [u|]; [done|]. cbn.
  rewrite String.eqb_refl. cbn. by rewrite Hb.
Qed.

(** Eve registers and logs in. *)
Lemma register_then_login_witness :
  let H := Demo.libraries 0 in
  let eve := mkRegisterDto "eve@example.com" "apple" "Eve" "Adams" in
  let w1 := (run (register Demo.u3 eve) (Demo.redis 5)).2 in
  run (login (mkLoginDto "eve@example.com" "apple")) w1
  = (Returned (mkPublicUser Demo.u3 "eve@example.com" "Eve" "Adams"), w1).
Proof.
  cbn zeta.
  apply (@register_then_login (Demo.libraries 0) _ (Demo.redis 5) Demo.u3
           (mkRegisterDto "eve@example.com" "apple" "Eve" "Adams")).
  - vm_compute. intros Hin. repeat (apply elem_of_cons in Hin as [Hin|Hin];
      [discriminate Hin|]). by apply elem_of_nil in Hin.
  - reflexivity.
Defined.



(** X5. [getUser] changes nothing. An id that is no uuid makes the lookup
    fail with [QueryFailedError]. When the call returns, the id is a uuid,
    the value carries the id of the stored user, the same uuid as the one
    requested, and lists, in table order, exactly the credentials whose
    [userId] is that uuid, each as [id], [deviceType], [createdAt]. *)
Theorem getUser_lists_own_credentials `{Libraries} {C : Type}
    (w : World C) uid :
  (run (getUser uid) w).2 = w
  ∧ (Postgres.is_uuid uid = false →
     ∃ e, (run (getUser uid) w).1 = Thrown e
          ∧ (e = BadRequestException "Invalid user ID"
             ∨ e = QueryFailedError (invalid_uuid uid)))
  ∧ ∀ view, (run (getUser uid) w).1 = Returned view →
      Postgres.is_uuid uid = true
      ∧ Postgres.uuid_value (uv_id view) = Postgres.uuid_value uid
      ∧ uv_credentials view
        = map (λ c, mkCredentialView (id c) (deviceType c) (createdAt c))
              (filter (λ c, Postgres.uuid_value (userId c)
                            = Postgres.uuid_value uid)
                      (creds (db w))).
Proof.
  unfold getUser. destruct (_ || _).
  { split; [done|]. split; [|done]. intros _. eexists. split; [done|by left]. }
  rewrite run_by_uuid. destruct (Postgres.is_uuid uid) eqn:U.
  - destruct (Repository.findUserById uid (db w)) as [user|] eqn:F; [|done].
    cbn. split; [done|]. split; [done|]. intros view [= <-]. cbn.
    pose proof (findUserById_id _ _ _ F) as Hi. split; [done|].
    split; [done|].
    unfold Repository.findUserById in F.
    destruct (List.find _ (users (db w))) as [u|]; [|done].
    injection F as <-. cbn in *. unfold Repository.credentials_of.
    by rewrite Hi.
  - split; [done|]. split; [|done]. intros _. eexists. split; [done|by right].
Qed.

(** Alice looks at her dashboard, writing her id in braces: the answer
    carries the id as it is stored. *)
Lemma getUser_lists_own_credentials_witness :
  let H := Demo.libraries 0 in
  let uid := "{11111111-1111-4111-8111-111111111111}" in
  let view := mkUserView Demo.u1 "alice@example.com" "Alice" "Liddell"
                [mkCredentialView Demo.k1 "Desktop" 0] in
  (run (getUser uid) (Demo.redis 5)).1 = Returned view
  ∧ uv_id view ≠ uid
  ∧ Postgres.is_uuid uid = true
  ∧ Postgres.uuid_value (uv_id view) = Postgres.uuid_value uid
  ∧ uv_credentials view
    = map (λ c, mkCredentialView (id c) (deviceType c) (createdAt c))
          (filter (λ c, Postgres.uuid_value (userId c)
                        = Postgres.uuid_value uid)
                  (creds (db (Demo.redis 5)))).
Proof.
  intros H uid view. split; [reflexivity|]. split; [discriminate|].
  apply (proj2 (proj2 (@getUser_lists_own_credentials H _
                         (Demo.redis 5) uid))).
  reflexivity.
Defined.
(** ** Beginning a ceremony *)

Lemma findUserById_credentials uid d user :
  Repository.findUserById uid d = Some user →
  credentials user
  = filter (λ c, Postgres.uuid_value (userId c) = Postgres.uuid_value uid)
           (creds d).
Proof.
  intros F. pose proof (findUserById_id _ _ _ F) as Hi.
  unfold Repository.findUserById in F.
  destruct (List.find _ (users d)) as [u|]; [|done].
  injection F as <-. cbn in *. unfold Repository.credentials_of.
  by rewrite Hi.
Qed.

(** X6. [generateAuthenticationOptions(userId)], both revisions. An id that
    is no uuid makes the lookup fail with [QueryFailedError]. For a uuid
    that owns no credential (whether or not such a user exists) the call
    throws "No credentials found for user". Both failures change nothing.
    When the call returns, the id is a uuid that owns a credential, the
    database is untouched and the challenge of the returned options is the
    one now stored under [auth-{userId}]. *)
Theorem begin_authentication_needs_a_passkey `{Libraries} :
  (∀ (w : InMemory.W) fresh uid,
     Postgres.is_uuid uid = false →
     run (InMemory.generateAuthenticationOptions fresh uid) w
     = (Thrown (QueryFailedError (invalid_uuid uid)), w))
  ∧ (∀ (w : InMemory.W) fresh uid,
       Postgres.is_uuid uid = true →
       filter (λ c, Postgres.uuid_value (userId c) = Postgres.uuid_value uid)
              (creds (db w)) = [] →
       run (InMemory.generateAuthenticationOptions fresh uid) w
       = (Thrown (BadRequestException "No credentials found for user"), w))
  ∧ (∀ (w w' : InMemory.W) fresh uid options,
       run (InMemory.generateAuthenticationOptions fresh uid) w
       = (Returned options, w') →
       Postgres.is_uuid uid = true
       ∧ filter (λ c, Postgres.uuid_value (userId c) = Postgres.uuid_value uid)
                (creds (db w)) ≠ []
       ∧ db w' = db w
       ∧ InMemory.challenge <$> store w' !! key_of uid auth
         = Some (ao_challenge options))
  ∧ (∀ (w : RedisBacked.W) fresh uid,
       Postgres.is_uuid uid = false →
       run (RedisBacked.generateAuthenticationOptions fresh uid) w
       = (Thrown (QueryFailedError (invalid_uuid uid)), w))
  ∧ (∀ (w : RedisBacked.W) fresh uid,
       Postgres.is_uuid uid = true →
       filter (λ c, Postgres.uuid_value (userId c) = Postgres.uuid_value uid)
              (creds (db w)) = [] →
       run (RedisBacked.generateAuthenticationOptions fresh uid) w
       = (Thrown (BadRequestException "No credentials found for user"), w))
  ∧ (∀ (w w' : RedisBacked.W) fresh uid options,
       run (RedisBacked.generateAuthenticationOptions fresh uid) w
       = (Returned options, w') →
       Postgres.is_uuid uid = true
       ∧ filter (λ c, Postgres.uuid_value (userId c) = Postgres.uuid_value uid)
                (creds (db w)) ≠ []
       ∧ db w' = db w
       ∧ RedisService.live w' (key_of uid auth) = Some (ao_challenge options)).
Proof.
  split; [|split; [|split; [|split; [|split]]]].
  - intros w fresh uid U. by rewrite mem_generateAuthenticationOptions_run, U.
  - intros w fresh uid U He. rewrite mem_generateAuthenticationOptions_run, U.
    destruct (Repository.findUserById uid (db w)) as [user|] eqn:F; [|done].
    by rewrite (findUserById_credentials _ _ _ F), He.
  - intros w w' fresh uid options R.
    rewrite mem_generateAuthenticationOptions_run in R.
    destruct (Postgres.is_uuid uid); [|done]. split; [done|].
    destruct (Repository.findUserById uid (db w)) as [user|] eqn:F; [|done].
    rewrite <- (findUserById_credentials _ _ _ F).
    destruct (credentials user) as [|c l] eqn:E; [done|].
    injection R as <- <-. cbn. split; [done|]. split; [done|].
    by rewrite lookup_insert_eq.
  - intros w fresh uid U. by rewrite redis_generateAuthenticationOptions_run, U.
  - intros w fresh uid U He. rewrite redis_generateAuthenticationOptions_run, U.
    destruct (Repository.findUserById uid (db w)) as [user|] eqn:F; [|done].
    by rewrite (findUserById_credentials _ _ _ F), He.
  - intros w w' fresh uid options R.
    rewrite redis_generateAuthenticationOptions_run in R.
    destruct (Postgres.is_uuid uid); [|done]. split; [done|].
    destruct (Repository.findUserById uid (db w)) as [user|] eqn:F; [|done].
    rewrite <- (findUserById_credentials _ _ _ F).
    destruct (credentials user) as [|c l] eqn:E; [done|].
    injection R as <- <-. cbn. split; [done|]. split; [done|].
    unfold RedisService.live. cbn. rewrite lookup_insert_eq. cbn.
    by destruct (Z.leb_spec (now w) (now w + 300 * 1000)); [|lia].
Qed.

(** Eve, registered a moment ago, has no passkey yet; nor does a user that
    was never registered; and an id that is no uuid never reaches the
    check. *)
Lemma begin_authentication_needs_a_passkey_witness :
  let H := Demo.libraries 0 in
  let w1 := (run (register Demo.u3
                    (mkRegisterDto "eve@example.com" "apple" "Eve" "Adams"))
               (Demo.memory 5)).2 in
  run (InMemory.generateAuthenticationOptions "c1" Demo.u3) w1
  = (Thrown (BadRequestException "No credentials found for user"), w1)
  ∧ run (RedisBacked.generateAuthenticationOptions "c1" Demo.u404)
        (Demo.redis 5)
    = (Thrown (BadRequestException "No credentials found for user"),
       Demo.redis 5)
  ∧ run (RedisBacked.generateAuthenticationOptions "c1" "u404") (Demo.redis 5)
    = (Thrown (QueryFailedError (invalid_uuid "u404")), Demo.redis 5).
Proof.
  intros H w1. split; [|split].
  - apply (proj1 (proj2 (@begin_authentication_needs_a_passkey H)));
      reflexivity.
  - apply (proj1 (proj2 (proj2 (proj2 (proj2
             (@begin_authentication_needs_a_passkey H))))));
      reflexivity.
  - apply (proj1 (proj2 (proj2 (proj2
             (@begin_authentication_needs_a_passkey H)))));
      reflexivity.
Defined.



(** ** Whole ceremonies *)

Section Ceremonies.
Context `{Libraries}.

Lemma redis_live_missing (w : RedisBacked.W) k :
  store w !! k = None → RedisService.live w k = None.
Proof. unfold RedisService.live. by intros ->. Qed.

Lemma redis_live_just_set (w : RedisBacked.W) k c :
  RedisService.live
    (with_store
       (<[k := RedisService.mkRedisEntry c (now w + 300 * 1000)]> (store w)) w)
    k = Some c.
Proof.
  unfold RedisService.live. cbn. rewrite lookup_insert_eq. cbn.
  by destruct (Z.leb_spec (now w) (now w + 300 * 1000)); [|lia].
Qed.

Lemma find_credential_nonempty credId user credential :
  find_credential credId user = Some credential → credentials user ≠ [].
Proof. unfold find_credential. by destruct (credentials user). Qed.

Lemma authentication_result_returned {C A} assertionResponse c credential
    (ret v : A) (w1 w' : World C) :
  authentication_result assertionResponse c credential ret w1
  = (Returned v, w') →
  ∃ vr,
    verifyAuthenticationResponse
      (authenticationOpts assertionResponse c credential) = Resolved vr
    ∧ auth_verified vr = true ∧ v = ret
    ∧ w' = with_db (Repository.updateCredential
                      (set_counter (newCounter (authenticationInfo vr))
                                   credential) (db w1)) w1.
Proof.
  unfold authentication_result.
  destruct (verifyAuthenticationResponse _) as [vr|m]; [|done].
  destruct (auth_verified vr) eqn:Hv; [|done].
  destruct (Postgres.int4 _); [|done].
  intros [= <- <-]. by exists vr.
Qed.

Lemma authentication_result_thrown {C A} assertionResponse c credential
    (ret : A) e (w1 w' : World C) :
  authentication_result assertionResponse c credential ret w1
  = (Thrown e, w') →
  w' = w1.
Proof.
  unfold authentication_result.
  destruct (verifyAuthenticationResponse _) as [vr|m].
  - destruct (auth_verified vr); [|by intros [= <- <-]].
    destruct (Postgres.int4 _); [done|]. by intros [= <- <-].
  - by intros [= <- <-].
Qed.

Lemma registration_result_returned {C} uuid owner attestationResponse c
    deviceType v (w1 w' : World C) :
  registration_result uuid owner attestationResponse c deviceType w1
  = (Returned v, w') →
  ∃ added,
    v = mkVerified true
    ∧ userId added = user_id owner
    ∧ id added = uuid
    ∧ w' = with_db (Repository.insertCredential added (db w1)) w1.
Proof.
  unfold registration_result.
  destruct (verifyRegistrationResponse _) as [[[] [info|]]|m]; try done.
  cbn. destruct (Postgres.int4 _); [|done]. intros [= <- <-].
  by exists (mkCredential uuid (to_base64url (credentialID info))
               (to_base64 (credentialPublicKey info)) (info_counter info)
               (or_default deviceType "Unknown")
               (Some (default false (credentialBackedUp info)))
               (user_id owner) (now w1)).
Qed.

Lemma registration_result_thrown {C} uuid owner attestationResponse c
    deviceType e (w1 w' : World C) :
  registration_result uuid owner attestationResponse c deviceType w1
  = (Thrown e, w') →
  w' = w1.
Proof.
  unfold registration_result.
  destruct (verifyRegistrationResponse _) as [[[] [info|]]|m]; cbn;
    try destruct (Postgres.int4 _); try done; by intros [= <- <-].
Qed.

(** What each verification method has done when it returns. *)
Lemma mem_verifyAuthentication_returned (w w' : InMemory.W) uid
    assertionResponse v :
  run (InMemory.verifyAuthentication uid assertionResponse) w
  = (Returned v, w') →
  ∃ user credential stored vr,
    Repository.findUserById uid (db w) = Some user
    ∧ find_credential (claimed_credentialId assertionResponse) user
      = Some credential
    ∧ store w !! key_of uid auth = Some stored
    ∧ verifyAuthenticationResponse
        (authenticationOpts assertionResponse (InMemory.challenge stored)
                            credential) = Resolved vr
    ∧ auth_verified vr = true
    ∧ v = mkVerified true
    ∧ w' = with_db (Repository.updateCredential
                      (set_counter (newCounter (authenticationInfo vr))
                                   credential) (db w))
             (with_store (delete (key_of uid auth) (store w)) w).
Proof.
  rewrite mem_verifyAuthentication_run.
  destruct (Postgres.is_uuid uid); [|done].
  destruct (Repository.findUserById uid (db w)) as [user|]; [|done].
  destruct (find_credential _ user) as [credential|] eqn:Hc; [|done].
  destruct (store w !! key_of uid auth) as [stored|]; [|done].
  intros (vr & ? & ? & ? & ?)%authentication_result_returned.
  by exists user, credential, stored, vr.
Qed.

Lemma redis_verifyAuthentication_returned (w w' : RedisBacked.W) uid
    assertionResponse v :
  run (RedisBacked.verifyAuthentication uid assertionResponse) w
  = (Returned v, w') →
  ∃ user credential c vr,
    Repository.findUserById uid (db w) = Some user
    ∧ find_credential (claimed_credentialId assertionResponse) user
      = Some credential
    ∧ RedisService.live w (key_of uid auth) = Some c
    ∧ falsy_string c = false
    ∧ verifyAuthenticationResponse
        (authenticationOpts assertionResponse c credential) = Resolved vr
    ∧ auth_verified vr = true
    ∧ v = mkVerified true
    ∧ w' = with_db (Repository.updateCredential
                      (set_counter (newCounter (authenticationInfo vr))
                                   credential) (db w))
             (with_store (delete (key_of uid auth) (store w)) w).
Proof.
  rewrite redis_verifyAuthentication_run.
  destruct (Postgres.is_uuid uid); [|done].
  destruct (Repository.findUserById uid (db w)) as [user|]; [|done].
  destruct (find_credential _ user) as [credential|] eqn:Hc; [|done].
  destruct (RedisService.live w (key_of uid auth)) as [c|]; [|done].
  destruct (falsy_string c) eqn:Hf; [done|].
  intros (vr & ? & ? & ? & ?)%authentication_result_returned.
  by exists user, credential, c, vr.
Qed.

Lemma mem_verifyAuthenticationByEmail_returned (w w' : InMemory.W) mail
    assertionResponse v :
  run (InMemory.verifyAuthenticationByEmail mail assertionResponse) w
  = (Returned v, w') →
  ∃ user credential stored vr,
    Repository.findUserByEmail mail (db w) = Some user
    ∧ find_credential (claimed_credentialId assertionResponse) user
      = Some credential
    ∧ store w !! ("auth-email-" +:+ mail) = Some stored
    ∧ verifyAuthenticationResponse
        (authenticationOpts assertionResponse (InMemory.challenge stored)
                            credential) = Resolved vr
    ∧ auth_verified vr = true
    ∧ v = mkVerifiedLogin true (publicUser (row user))
    ∧ w' = with_db (Repository.updateCredential
                      (set_counter (newCounter (authenticationInfo vr))
                                   credential) (db w))
             (with_store (delete ("auth-email-" +:+ mail) (store w)) w).
Proof.
  rewrite mem_verifyAuthenticationByEmail_run.
  destruct (Repository.findUserByEmail mail (db w)) as [user|]; [|done].
  destruct (find_credential _ user) as [credential|] eqn:Hc; [|done].
  destruct (store w !! _) as [stored|]; [|done].
  intros (vr & ? & ? & ? & ?)%authentication_result_returned.
  by exists user, credential, stored, vr.
Qed.

Lemma redis_verifyAuthenticationByEmail_returned (w w' : RedisBacked.W) mail
    assertionResponse v :
  run (RedisBacked.verifyAuthenticationByEmail mail assertionResponse) w
  = (Returned v, w') →
  ∃ user credential c vr,
    Repository.findUserByEmail mail (db w) = Some user
    ∧ find_credential (claimed_credentialId assertionResponse) user
      = Some credential
    ∧ RedisService.live w ("auth-email-" +:+ mail) = Some c
    ∧ falsy_string c = false
    ∧ verifyAuthenticationResponse
        (authenticationOpts assertionResponse c credential) = Resolved vr
    ∧ auth_verified vr = true
    ∧ v = mkVerifiedLogin true (publicUser (row user))
    ∧ w' = with_db (Repository.updateCredential
                      (set_counter (newCounter (authenticationInfo vr))
                                   credential) (db w))
             (with_store (delete ("auth-email-" +:+ mail) (store w)) w).
Proof.
  rewrite redis_verifyAuthenticationByEmail_run.
  destruct (Repository.findUserByEmail mail (db w)) as [user|]; [|done].
  destruct (find_credential _ user) as [credential|] eqn:Hc; [|done].
  destruct (RedisService.live w _) as [c|]; [|done].
  destruct (falsy_string c) eqn:Hf; [done|].
  intros (vr & ? & ? & ? & ?)%authentication_result_returned.
  by exists user, credential, c, vr.
Qed.

Lemma mem_verifyRegistration_returned (w w' : InMemory.W) uuid uid
    attestationResponse deviceType v :
  run (InMemory.verifyRegistration uuid uid attestationResponse deviceType) w
  = (Returned v, w') →
  ∃ added,
    v = mkVerified true
    ∧ Postgres.uuid_value (userId added) = Postgres.uuid_value uid
    ∧ id added = uuid
    ∧ w' = with_db (Repository.insertCredential added (db w))
             (with_store (delete (key_of uid reg) (store w)) w).
Proof.
  rewrite mem_verifyRegistration_run.
  destruct (Postgres.is_uuid uid); [|done].
  destruct (Repository.findUserById uid (db w)) as [user|] eqn:Hu; [|done].
  destruct (store w !! key_of uid reg) as [stored|]; [|done].
  intros (added & ? & ? & ? & ?)%registration_result_returned.
  pose proof (findUserById_id _ _ _ Hu) as Hi.
  exists added. cbn in *. repeat split; congruence.
Qed.

Lemma redis_verifyRegistration_returned (w w' : RedisBacked.W) uuid uid
    attestationResponse deviceType v :
  run (RedisBacked.verifyRegistration uuid uid attestationResponse deviceType) w
  = (Returned v, w') →
  ∃ added,
    v = mkVerified true
    ∧ Postgres.uuid_value (userId added) = Postgres.uuid_value uid
    ∧ id added = uuid
    ∧ w' = with_db (Repository.insertCredential added (db w))
             (with_store (delete (key_of uid reg) (store w)) w).
Proof.
  rewrite redis_verifyRegistration_run.
  destruct (Postgres.is_uuid uid); [|done].
  destruct (Repository.findUserById uid (db w)) as [user|] eqn:Hu; [|done].
  destruct (RedisService.live w (key_of uid reg)) as [c|]; [|done].
  destruct (falsy_string c); [done|].
  intros (added & ? & ? & ? & ?)%registration_result_returned.
  pose proof (findUserById_id _ _ _ Hu) as Hi.
  exists added. cbn in *. repeat split; congruence.
Qed.

(** With nothing stored under its key, no verification method returns. *)
Lemma mem_verifyAuthentication_needs_challenge (w : InMemory.W) uid
    assertionResponse :
  store w !! key_of uid auth = None →
  ∃ e, run (InMemory.verifyAuthentication uid assertionResponse) w
       = (Thrown e, w).
Proof.
  intros Hs. rewrite mem_verifyAuthentication_run, Hs.
  destruct (Postgres.is_uuid uid); [|by eexists].
  destruct (Repository.findUserById uid (db w)) as [user|]; [|by eexists].
  destruct (find_credential _ user); by eexists.
Qed.

Lemma redis_verifyAuthentication_needs_challenge (w : RedisBacked.W) uid
    assertionResponse :
  store w !! key_of uid auth = None →
  ∃ e, run (RedisBacked.verifyAuthentication uid assertionResponse) w
       = (Thrown e, w).
Proof.
  intros Hs%redis_live_missing. rewrite redis_verifyAuthentication_run, Hs.
  destruct (Postgres.is_uuid uid); [|by eexists].
  destruct (Repository.findUserById uid (db w)) as [user|]; [|by eexists].
  destruct (find_credential _ user); by eexists.
Qed.

Lemma mem_verifyAuthenticationByEmail_needs_challenge (w : InMemory.W) mail
    assertionResponse :
  store w !! ("auth-email-" +:+ mail) = None →
  ∃ e, run (InMemory.verifyAuthenticationByEmail mail assertionResponse) w
       = (Thrown e, w).
Proof.
  intros Hs. rewrite mem_verifyAuthenticationByEmail_run, Hs.
  destruct (Repository.findUserByEmail mail (db w)) as [user|]; [|by eexists].
  destruct (find_credential _ user); by eexists.
Qed.

Lemma redis_verifyAuthenticationByEmail_needs_challenge (w : RedisBacked.W)
    mail assertionResponse :
  store w !! ("auth-email-" +:+ mail) = None →
  ∃ e, run (RedisBacked.verifyAuthenticationByEmail mail assertionResponse) w
       = (Thrown e, w).
Proof.
  intros Hs%redis_live_missing.
  rewrite redis_verifyAuthenticationByEmail_run, Hs.
  destruct (Repository.findUserByEmail mail (db w)) as [user|]; [|by eexists].
  destruct (find_credential _ user); by eexists.
Qed.

Lemma mem_verifyRegistration_needs_challenge (w : InMemory.W) uuid uid
    attestationResponse deviceType :
  store w !! key_of uid reg = None →
  ∃ e, run (InMemory.verifyRegistration uuid uid attestationResponse
              deviceType) w = (Thrown e, w).
Proof.
  intros Hs. rewrite mem_verifyRegistration_run, Hs.
  destruct (Postgres.is_uuid uid); [|by eexists].
  destruct (Repository.findUserById uid (db w)); by eexists.
Qed.

Lemma redis_verifyRegistration_needs_challenge (w : RedisBacked.W) uuid uid
    attestationResponse deviceType :
  store w !! key_of uid reg = None →
  ∃ e, run (RedisBacked.verifyRegistration uuid uid attestationResponse
              deviceType) w = (Thrown e, w).
Proof.
  intros Hs%redis_live_missing. rewrite redis_verifyRegistration_run, Hs.
  destruct (Postgres.is_uuid uid); [|by eexists].
  destruct (Repository.findUserById uid (db w)); by eexists.
Qed.

Lemma authentication_result_authenticated {V A} key assertionResponse c
    credential (ret : A) (w : World (gmap string V)) vr :
  verifyAuthenticationResponse
    (authenticationOpts assertionResponse c credential) = Resolved vr →
  auth_verified vr = true →
  authenticated key credential (newCounter (authenticationInfo vr)) ret w
    (authentication_result assertionResponse c credential ret
       (with_store (delete key (store w)) w)).
Proof.
  intros Hv Ht. unfold authenticated, authentication_result.
  rewrite Hv, Ht. cbn.
  destruct (Postgres.int4 _); cbn; repeat split; try done.
  cbn. by rewrite Permutation_app_comm.
Qed.

(** X8. A whole authentication, by user id or by e-mail, in both revisions:
    when the user is found, the response names one of the user's passkeys
    and the verifier accepts it for the challenge just minted, the options
    call followed by the verification call leaves no challenge under the
    ceremony's key. When the reported counter fits the [integer] column the
    pair returns [verified: true] (with the public user for the e-mail
    flow), the users are as they were and the table holds that passkey with
    the reported counter next to the rows of the other passkeys; when it
    does not fit, the update fails with [QueryFailedError] and the database
    is as it was. *)
Theorem authentication_ceremony_completes :
  (∀ (w : InMemory.W) fresh uid assertionResponse user credential vr,
     Repository.findUserById uid (db w) = Some user →
     find_credential (claimed_credentialId assertionResponse) user
     = Some credential →
     verifyAuthenticationResponse
       (authenticationOpts assertionResponse fresh credential) = Resolved vr →
     auth_verified vr = true →
     authenticated (key_of uid auth) credential
       (newCounter (authenticationInfo vr)) (mkVerified true) w
       (run (InMemory.generateAuthenticationOptions fresh uid
             ≫= λ _, InMemory.verifyAuthentication uid assertionResponse) w))
  ∧ (∀ (w : RedisBacked.W) fresh uid assertionResponse user credential vr,
       Repository.findUserById uid (db w) = Some user →
       find_credential (claimed_credentialId assertionResponse) user
       = Some credential →
       falsy_string fresh = false →
       verifyAuthenticationResponse
         (authenticationOpts assertionResponse fresh credential) = Resolved vr →
       auth_verified vr = true →
       authenticated (key_of uid auth) credential
         (newCounter (authenticationInfo vr)) (mkVerified true) w
         (run (RedisBacked.generateAuthenticationOptions fresh uid
               ≫= λ _, RedisBacked.verifyAuthentication uid assertionResponse)
            w))
  ∧ (∀ (w : InMemory.W) fresh mail assertionResponse user credential vr,
       Repository.findUserByEmail mail (db w) = Some user →
       find_credential (claimed_credentialId assertionResponse) user
       = Some credential →
       verifyAuthenticationResponse
         (authenticationOpts assertionResponse fresh credential) = Resolved vr →
       auth_verified vr = true →
       authenticated ("auth-email-" +:+ mail) credential
         (newCounter (authenticationInfo vr))
         (mkVerifiedLogin true (publicUser (row user))) w
         (run (InMemory.generateAuthenticationOptionsByEmail fresh mail
               ≫= λ _, InMemory.verifyAuthenticationByEmail mail
                         assertionResponse) w))
  ∧ (∀ (w : RedisBacked.W) fresh mail assertionResponse user credential vr,
       Repository.findUserByEmail mail (db w) = Some user →
       find_credential (claimed_credentialId assertionResponse) user
       = Some credential →
       falsy_string fresh = false →
       verifyAuthenticationResponse
         (authenticationOpts assertionResponse fresh credential) = Resolved vr →
       auth_verified vr = true →
       authenticated ("auth-email-" +:+ mail) credential
         (newCounter (authenticationInfo vr))
         (mkVerifiedLogin true (publicUser (row user))) w
         (run (RedisBacked.generateAuthenticationOptionsByEmail fresh mail
               ≫= λ _, RedisBacked.verifyAuthenticationByEmail mail
                         assertionResponse) w)).
Proof.
  split; [|split; [|split]].
  - intros w fresh uid assertionResponse user credential vr Hu Hc Hv Ht.
    rewrite run_bind, mem_generateAuthenticationOptions_run.
    rewrite (findUserById_is_uuid _ _ _ Hu), Hu.
    pose proof (find_credential_nonempty _ _ _ Hc) as Hne.
    destruct (credentials user) as [|c0 l] eqn:E; [done|].
    rewrite mem_verifyAuthentication_run, (findUserById_is_uuid _ _ _ Hu).
    cbn [snd db with_store store]. rewrite Hu, Hc, lookup_insert_eq.
    cbn [InMemory.challenge].
    pose proof (authentication_result_authenticated (key_of uid auth)
                  assertionResponse fresh credential (mkVerified true) w vr
                  Hv Ht) as R.
    unfold with_store in *. cbn in *. by rewrite delete_insert_eq.
  - intros w fresh uid assertionResponse user credential vr Hu Hc Hf Hv Ht.
    rewrite run_bind, redis_generateAuthenticationOptions_run.
    rewrite (findUserById_is_uuid _ _ _ Hu), Hu.
    pose proof (find_credential_nonempty _ _ _ Hc) as Hne.
    destruct (credentials user) as [|c0 l] eqn:E; [done|].
    rewrite redis_verifyAuthentication_run, (findUserById_is_uuid _ _ _ Hu).
    cbn [snd]. rewrite redis_live_just_set.
    cbn [db with_store store]. rewrite Hu, Hc, Hf.
    pose proof (authentication_result_authenticated (key_of uid auth)
                  assertionResponse fresh credential (mkVerified true) w vr
                  Hv Ht) as R.
    unfold with_store in *. cbn in *. by rewrite delete_insert_eq.
  - intros w fresh mail assertionResponse user credential vr Hu Hc Hv Ht.
    rewrite run_bind, mem_generateAuthenticationOptionsByEmail_run, Hu.
    pose proof (find_credential_nonempty _ _ _ Hc) as Hne.
    destruct (credentials user) as [|c0 l] eqn:E; [done|].
    rewrite mem_verifyAuthenticationByEmail_run.
    cbn [snd db with_store store]. rewrite Hu, Hc, lookup_insert_eq.
    cbn [InMemory.challenge].
    pose proof (authentication_result_authenticated ("auth-email-" +:+ mail)
                  assertionResponse fresh credential
                  (mkVerifiedLogin true (publicUser (row user))) w vr
                  Hv Ht) as R.
    unfold with_store in *. cbn in *. by rewrite delete_insert_eq.
  - intros w fresh mail assertionResponse user credential vr Hu Hc Hf Hv Ht.
    rewrite run_bind, redis_generateAuthenticationOptionsByEmail_run, Hu.
    pose proof (find_credential_nonempty _ _ _ Hc) as Hne.
    destruct (credentials user) as [|c0 l] eqn:E; [done|].
    rewrite redis_verifyAuthenticationByEmail_run.
    cbn [snd]. rewrite redis_live_just_set.
    cbn [db with_store store]. rewrite Hu, Hc, Hf.
    pose proof (authentication_result_authenticated ("auth-email-" +:+ mail)
                  assertionResponse fresh credential
                  (mkVerifiedLogin true (publicUser (row user))) w vr
                  Hv Ht) as R.
    unfold with_store in *. cbn in *. by rewrite delete_insert_eq.
Qed.

End Ceremonies.

(** Alice signs in with her e-mail address and her passkey; her passkey's
    counter goes from 5 to 6. An authenticator that has signed 2^31 times is
    turned away by the database, after its challenge was used up. *)
Lemma authentication_ceremony_completes_witness :
  (let H := Demo.libraries 6 in
   authenticated "auth-email-alice@example.com" (Demo.passkey 5) 6
     (mkVerifiedLogin true
        (mkPublicUser Demo.u1 "alice@example.com" "Alice" "Liddell"))
     (Demo.redis 5)
     (run (RedisBacked.generateAuthenticationOptionsByEmail "c1"
             "alice@example.com"
           ≫= λ _, RedisBacked.verifyAuthenticationByEmail "alice@example.com"
                     (Demo.signed Demo.cred1 "c1")) (Demo.redis 5)))
  ∧ (let H := Demo.libraries 2147483648 in
     authenticated (key_of Demo.u1 auth) (Demo.passkey 5) 2147483648
       (mkVerified true) (Demo.memory 5)
       (run (InMemory.generateAuthenticationOptions "c1" Demo.u1
             ≫= λ _, InMemory.verifyAuthentication Demo.u1
                       (Demo.signed Demo.cred1 "c1")) (Demo.memory 5))).
Proof.
  split.
  - intros H.
    apply (proj2 (proj2 (proj2 (@authentication_ceremony_completes H)))
             (Demo.redis 5) "c1" "alice@example.com"
             (Demo.signed Demo.cred1 "c1")
             (Repository.load (Demo.database 5) Demo.alice)
             (Demo.passkey 5)
             (mkVerifiedAuthentication true (mkAuthenticationInfo 6)));
      reflexivity.
  - intros H.
    apply (proj1 (@authentication_ceremony_completes H)
             (Demo.memory 5) "c1" Demo.u1
             (Demo.signed Demo.cred1 "c1")
             (Repository.load (Demo.database 5) Demo.alice)
             (Demo.passkey 5)
             (mkVerifiedAuthentication true
                (mkAuthenticationInfo 2147483648)));
      reflexivity.
Defined.

(** ** Challenges are used up *)

Section Once.
Context `{Libraries}.

(** X9. When a verification method returns, its challenge is spent: the
    same method called again for the same user (or e-mail address), with
    any response, throws and changes nothing, until new options are asked
    for. All three verification methods, both revisions. *)
Theorem challenge_serves_once :
  (∀ (w w' : InMemory.W) uid assertionResponse v,
     run (InMemory.verifyAuthentication uid assertionResponse) w
     = (Returned v, w') →
     ∀ assertionResponse',
       ∃ e, run (InMemory.verifyAuthentication uid assertionResponse') w'
            = (Thrown e, w'))
  ∧ (∀ (w w' : RedisBacked.W) uid assertionResponse v,
       run (RedisBacked.verifyAuthentication uid assertionResponse) w
       = (Returned v, w') →
       ∀ assertionResponse',
         ∃ e, run (RedisBacked.verifyAuthentication uid assertionResponse') w'
              = (Thrown e, w'))
  ∧ (∀ (w w' : InMemory.W) mail assertionResponse v,
       run (InMemory.verifyAuthenticationByEmail mail assertionResponse) w
       = (Returned v, w') →
       ∀ assertionResponse',
         ∃ e, run (InMemory.verifyAuthenticationByEmail mail
                     assertionResponse') w' = (Thrown e, w'))
  ∧ (∀ (w w' : RedisBacked.W) mail assertionResponse v,
       run (RedisBacked.verifyAuthenticationByEmail mail assertionResponse) w
       = (Returned v, w') →
       ∀ assertionResponse',
         ∃ e, run (RedisBacked.verifyAuthenticationByEmail mail
                     assertionResponse') w' = (Thrown e, w'))
  ∧ (∀ (w w' : InMemory.W) uuid uid attestationResponse deviceType v,
       run (InMemory.verifyRegistration uuid uid attestationResponse
              deviceType) w = (Returned v, w') →
       ∀ uuid' attestationResponse' deviceType',
         ∃ e, run (InMemory.verifyRegistration uuid' uid attestationResponse'
                     deviceType') w' = (Thrown e, w'))
  ∧ (∀ (w w' : RedisBacked.W) uuid uid attestationResponse deviceType v,
       run (RedisBacked.verifyRegistration uuid uid attestationResponse
              deviceType) w = (Returned v, w') →
       ∀ uuid' attestationResponse' deviceType',
         ∃ e, run (RedisBacked.verifyRegistration uuid' uid
                     attestationResponse' deviceType') w' = (Thrown e, w')).
Proof.
  repeat split.
  - intros w w' uid r v R r'.
    apply mem_verifyAuthentication_returned in R
      as (? & ? & ? & ? & _ & _ & _ & _ & _ & _ & ->).
    apply mem_verifyAuthentication_needs_challenge. apply lookup_delete_eq.
  - intros w w' uid r v R r'.
    apply redis_verifyAuthentication_returned in R
      as (? & ? & ? & ? & _ & _ & _ & _ & _ & _ & _ & ->).
    apply redis_verifyAuthentication_needs_challenge. apply lookup_delete_eq.
  - intros w w' mail r v R r'.
    apply mem_verifyAuthenticationByEmail_returned in R
      as (? & ? & ? & ? & _ & _ & _ & _ & _ & _ & ->).
    apply mem_verifyAuthenticationByEmail_needs_challenge.
    apply lookup_delete_eq.
  - intros w w' mail r v R r'.
    apply redis_verifyAuthenticationByEmail_returned in R
      as (? & ? & ? & ? & _ & _ & _ & _ & _ & _ & _ & ->).
    apply redis_verifyAuthenticationByEmail_needs_challenge.
    apply lookup_delete_eq.
  - intros w w' uuid uid r dev v R uuid' r' dev'.
    apply mem_verifyRegistration_returned in R as (? & _ & _ & _ & ->).
    apply mem_verifyRegistration_needs_challenge. apply lookup_delete_eq.
  - intros w w' uuid uid r dev v R uuid' r' dev'.
    apply redis_verifyRegistration_returned in R as (? & _ & _ & _ & ->).
    apply redis_verifyRegistration_needs_challenge. apply lookup_delete_eq.
Qed.

(** X10. When [verifyAuthentication] or [verifyAuthenticationByEmail] stops
    at the verification step (the verifier throws, or answers without
    [verified]), the database is as before, yet the challenge is gone: the
    same call made again at once throws the challenge-not-found error. Both
    revisions. *)
Theorem failed_authentication_consumes_challenge :
  (∀ (w w' : InMemory.W) uid assertionResponse e,
     run (InMemory.verifyAuthentication uid assertionResponse) w
     = (Thrown e, w') →
     authentication_verification_failed e →
     db w' = db w
     ∧ store w' !! key_of uid auth = None
     ∧ run (InMemory.verifyAuthentication uid assertionResponse) w'
       = (Thrown not_found_InMemory, w'))
  ∧ (∀ (w w' : RedisBacked.W) uid assertionResponse e,
       run (RedisBacked.verifyAuthentication uid assertionResponse) w
       = (Thrown e, w') →
       authentication_verification_failed e →
       db w' = db w
       ∧ store w' !! key_of uid auth = None
       ∧ run (RedisBacked.verifyAuthentication uid assertionResponse) w'
         = (Thrown not_found_Redis, w'))
  ∧ (∀ (w w' : InMemory.W) mail assertionResponse e,
       run (InMemory.verifyAuthenticationByEmail mail assertionResponse) w
       = (Thrown e, w') →
       authentication_verification_failed e →
       db w' = db w
       ∧ store w' !! ("auth-email-" +:+ mail) = None
       ∧ run (InMemory.verifyAuthenticationByEmail mail assertionResponse) w'
         = (Thrown not_found_InMemory, w'))
  ∧ (∀ (w w' : RedisBacked.W) mail assertionResponse e,
       run (RedisBacked.verifyAuthenticationByEmail mail assertionResponse) w
       = (Thrown e, w') →
       authentication_verification_failed e →
       db w' = db w
       ∧ store w' !! ("auth-email-" +:+ mail) = None
       ∧ run (RedisBacked.verifyAuthenticationByEmail mail assertionResponse)
           w' = (Thrown not_found_Redis, w')).
Proof.
  split; [|split; [|split]].
  - intros w w' uid r e R F. rewrite mem_verifyAuthentication_run in R.
    destruct (Postgres.is_uuid uid) eqn:U.
    2:{ injection R as <- <-. destruct F as [F|[m F]]; discriminate F. }
    destruct (Repository.findUserById uid (db w)) as [user|] eqn:Hu.
    2:{ injection R as <- <-. destruct F as [F|[m F]]; discriminate F. }
    destruct (find_credential _ user) as [credential|] eqn:Hc.
    2:{ injection R as <- <-. destruct F as [F|[m F]]; discriminate F. }
    destruct (store w !! key_of uid auth) as [stored|].
    2:{ injection R as <- <-. destruct F as [F|[m F]]; discriminate F. }
    apply authentication_result_thrown in R as ->.
    split; [done|]. split; [apply lookup_delete_eq|].
    rewrite mem_verifyAuthentication_run, U. cbn.
    by rewrite Hu, Hc, lookup_delete_eq.
  - intros w w' uid r e R F. rewrite redis_verifyAuthentication_run in R.
    destruct (Postgres.is_uuid uid) eqn:U.
    2:{ injection R as <- <-. destruct F as [F|[m F]]; discriminate F. }
    destruct (Repository.findUserById uid (db w)) as [user|] eqn:Hu.
    2:{ injection R as <- <-. destruct F as [F|[m F]]; discriminate F. }
    destruct (find_credential _ user) as [credential|] eqn:Hc.
    2:{ injection R as <- <-. destruct F as [F|[m F]]; discriminate F. }
    destruct (RedisService.live w (key_of uid auth)) as [c|].
    2:{ injection R as <- <-. destruct F as [F|[m F]]; discriminate F. }
    destruct (falsy_string c).
    { injection R as <- <-. destruct F as [F|[m F]]; discriminate F. }
    apply authentication_result_thrown in R as ->.
    split; [done|]. split; [apply lookup_delete_eq|].
    rewrite redis_verifyAuthentication_run, U, redis_live_missing;
      [|apply lookup_delete_eq].
    cbn. by rewrite Hu, Hc.
  - intros w w' mail r e R F. rewrite mem_verifyAuthenticationByEmail_run in R.
    destruct (Repository.findUserByEmail mail (db w)) as [user|] eqn:Hu.
    2:{ injection R as <- <-. destruct F as [F|[m F]]; discriminate F. }
    destruct (find_credential _ user) as [credential|] eqn:Hc.
    2:{ injection R as <- <-. destruct F as [F|[m F]]; discriminate F. }
    destruct (store w !! _) as [stored|].
    2:{ injection R as <- <-. destruct F as [F|[m F]]; discriminate F. }
    apply authentication_result_thrown in R as ->.
    split; [done|]. split; [apply lookup_delete_eq|].
    rewrite mem_verifyAuthenticationByEmail_run. cbn.
    by rewrite Hu, Hc, lookup_delete_eq.
  - intros w w' mail r e R F.
    rewrite redis_verifyAuthenticationByEmail_run in R.
    destruct (Repository.findUserByEmail mail (db w)) as [user|] eqn:Hu.
    2:{ injection R as <- <-. destruct F as [F|[m F]]; discriminate F. }
    destruct (find_credential _ user) as [credential|] eqn:Hc.
    2:{ injection R as <- <-. destruct F as [F|[m F]]; discriminate F. }
    destruct (RedisService.live w _) as [c|].
    2:{ injection R as <- <-. destruct F as [F|[m F]]; discriminate F. }
    destruct (falsy_string c).
    { injection R as <- <-. destruct F as [F|[m F]]; discriminate F. }
    apply authentication_result_thrown in R as ->.
    split; [done|]. split; [apply lookup_delete_eq|].
    rewrite redis_verifyAuthenticationByEmail_run, redis_live_missing;
      [|apply lookup_delete_eq].
    cbn. by rewrite Hu, Hc.
Qed.

(** X11. Asking for options again replaces the pending challenge: two
    options calls in a row end exactly as the second one alone would (same
    outcome, same world), for all three options methods in both revisions. *)
Theorem options_again_supersede :
  (∀ (w : InMemory.W) c1 c2 uid,
     run (InMemory.generateRegistrationOptions c1 uid
          ≫= λ _, InMemory.generateRegistrationOptions c2 uid) w
     = run (InMemory.generateRegistrationOptions c2 uid) w)
  ∧ (∀ (w : RedisBacked.W) c1 c2 uid,
       run (RedisBacked.generateRegistrationOptions c1 uid
            ≫= λ _, RedisBacked.generateRegistrationOptions c2 uid) w
       = run (RedisBacked.generateRegistrationOptions c2 uid) w)
  ∧ (∀ (w : InMemory.W) c1 c2 uid,
       run (InMemory.generateAuthenticationOptions c1 uid
            ≫= λ _, InMemory.generateAuthenticationOptions c2 uid) w
       = run (InMemory.generateAuthenticationOptions c2 uid) w)
  ∧ (∀ (w : RedisBacked.W) c1 c2 uid,
       run (RedisBacked.generateAuthenticationOptions c1 uid
            ≫= λ _, RedisBacked.generateAuthenticationOptions c2 uid) w
       = run (RedisBacked.generateAuthenticationOptions c2 uid) w)
  ∧ (∀ (w : InMemory.W) c1 c2 mail,
       run (InMemory.generateAuthenticationOptionsByEmail c1 mail
            ≫= λ _, InMemory.generateAuthenticationOptionsByEmail c2 mail) w
       = run (InMemory.generateAuthenticationOptionsByEmail c2 mail) w)
  ∧ (∀ (w : RedisBacked.W) c1 c2 mail,
       run (RedisBacked.generateAuthenticationOptionsByEmail c1 mail
            ≫= λ _, RedisBacked.generateAuthenticationOptionsByEmail c2 mail) w
       = run (RedisBacked.generateAuthenticationOptionsByEmail c2 mail) w).
Proof.
  repeat split; intros w c1 c2 k; rewrite run_bind.
  - rewrite !mem_generateRegistrationOptions_run.
    destruct (Postgres.is_uuid k) eqn:U; [|done].
    destruct (Repository.findUserById k (db w)) as [user|] eqn:Hu; [|done].
    rewrite mem_generateRegistrationOptions_run, U. cbn. rewrite Hu.
    unfold with_store. cbn. by rewrite insert_insert_eq.
  - rewrite !redis_generateRegistrationOptions_run.
    destruct (Postgres.is_uuid k) eqn:U; [|done].
    destruct (Repository.findUserById k (db w)) as [user|] eqn:Hu; [|done].
    rewrite redis_generateRegistrationOptions_run, U. cbn. rewrite Hu.
    unfold with_store. cbn. by rewrite insert_insert_eq.
  - rewrite !mem_generateAuthenticationOptions_run.
    destruct (Postgres.is_uuid k) eqn:U; [|done].
    destruct (Repository.findUserById k (db w)) as [user|] eqn:Hu; [|done].
    destruct (credentials user) as [|c0 l] eqn:E; [done|].
    rewrite mem_generateAuthenticationOptions_run, U. cbn. rewrite Hu, E.
    unfold with_store. cbn. by rewrite insert_insert_eq.
  - rewrite !redis_generateAuthenticationOptions_run.
    destruct (Postgres.is_uuid k) eqn:U; [|done].
    destruct (Repository.findUserById k (db w)) as [user|] eqn:Hu; [|done].
    destruct (credentials user) as [|c0 l] eqn:E; [done|].
    rewrite redis_generateAuthenticationOptions_run, U. cbn. rewrite Hu, E.
    unfold with_store. cbn. by rewrite insert_insert_eq.
  - rewrite !mem_generateAuthenticationOptionsByEmail_run.
    destruct (Repository.findUserByEmail k (db w)) as [user|] eqn:Hu; [|done].
    destruct (credentials user) as [|c0 l] eqn:E; [done|].
    rewrite mem_generateAuthenticationOptionsByEmail_run. cbn. rewrite Hu, E.
    unfold with_store. cbn. by rewrite insert_insert_eq.
  - rewrite !redis_generateAuthenticationOptionsByEmail_run.
    destruct (Repository.findUserByEmail k (db w)) as [user|] eqn:Hu; [|done].
    destruct (credentials user) as [|c0 l] eqn:E; [done|].
    rewrite redis_generateAuthenticationOptionsByEmail_run. cbn.
    rewrite Hu, E.
    unfold with_store. cbn. by rewrite insert_insert_eq.
Qed.

End Once.

(** Alice signs in; the same response sent again is refused. *)
Lemma challenge_serves_once_witness :
  let H := Demo.libraries 6 in
  let w := (run (InMemory.generateAuthenticationOptions "c1" Demo.u1)
              (Demo.memory 5)).2 in
  let w' := (run (InMemory.verifyAuthentication Demo.u1
                    (Demo.signed Demo.cred1 "c1")) w).2 in
  ∃ e, run (InMemory.verifyAuthentication Demo.u1 (Demo.signed Demo.cred1 "c1")) w'
       = (Thrown e, w').
Proof.
  intros H w w'.
  apply (proj1 (@challenge_serves_once H) w w' Demo.u1
           (Demo.signed Demo.cred1 "c1") (mkVerified true)).
  reflexivity.
Defined.

(** Alice's phone answers a challenge the service never issued. *)
Lemma failed_authentication_consumes_challenge_witness :
  let H := Demo.libraries 6 in
  let w := (run (RedisBacked.generateAuthenticationOptionsByEmail "c1"
                   "alice@example.com") (Demo.redis 5)).2 in
  let w' := (run (RedisBacked.verifyAuthenticationByEmail "alice@example.com"
                    (Demo.signed Demo.cred1 "c0")) w).2 in
  db w' = db w
  ∧ store w' !! ("auth-email-" +:+ "alice@example.com") = None
  ∧ run (RedisBacked.verifyAuthenticationByEmail "alice@example.com"
           (Demo.signed Demo.cred1 "c0")) w'
    = (Thrown not_found_Redis, w').
Proof.
  intros H w w'.
  apply (proj2 (proj2 (proj2 (@failed_authentication_consumes_challenge H)))
            w w' "alice@example.com" (Demo.signed Demo.cred1 "c0")
            (BadRequestException
               ("Authentication failed: "
                +:+ ("Unexpected authentication response challenge "
                     +:+ Demo.quoted "c0" +:+ ", expected "
                     +:+ Demo.quoted "c1")))).
  - reflexivity.
  - right. by eexists.
Defined.

(** ** Two registrations racing for one challenge *)

Lemma InMemory_registration_takes_first `{Libraries} uuid uid
    attestationResponse deviceType :
  takes_first (key_of uid reg)
    (InMemory.verifyRegistration uuid uid attestationResponse deviceType).
Proof.
  split; [done|]. intros [d st t].
  unfold InMemory.verifyRegistration, InMemory.getExpectedChallenge,
    query_by_uuid. cbn.
  destruct (Postgres.is_uuid uid); cbn; [|by split; [|left]].
  destruct (Repository.findUserById uid d) as [user|]; cbn;
    [|by split; [|left]].
  destruct (st !! _) as [stored|] eqn:Hs; cbn; [|by split; [|left]].
  split.
  - split; [done|]. intros [v|m]; cbn; [|done].
    destruct (reg_verified v), (registrationInfo v) as [info|]; cbn;
      try done.
    split; [|by intros [x|e]].
    intros s. unfold saveNewCredential. by destruct (Postgres.int4 _).
  - right. split; [done|]. apply lookup_delete_eq.
Qed.

(** X12. In the first revision, which gets and deletes the challenge without
    yielding, two [verifyRegistration] calls racing for the challenge of one
    user never both return, whatever their responses and whatever the order
    in which the event loop resumes them. *)
Theorem InMemory_racing_registrations_at_most_one `{Libraries} :
  ∀ (w : InMemory.W) uid uuid1 uuid2 response1 response2 device1 device2 sched,
    let first := InMemory.verifyRegistration uuid1 uid response1 device1 in
    let second := InMemory.verifyRegistration uuid2 uid response2 device2 in
    ¬ (returned (answer (race sched first second w).1.1) = true
       ∧ returned (answer (race sched first second w).1.2) = true).
Proof.
  intros w uid uuid1 uuid2 response1 response2 device1 device2 sched
    first second.
  apply (take_first_at_most_once (key_of uid reg) first second);
    apply InMemory_registration_takes_first.
Qed.

(** X13. In the Redis revision the challenge is read and deleted behind
    separate [await]s: when two [verifyRegistration] calls with the same
    response are resumed in turn, and one call alone would return, both
    return [verified: true] and each appends its credential, owned by the
    user the requested uuid names, so that one challenge has produced two
    rows. *)
Theorem Redis_racing_registrations_both_persist `{Libraries} :
  ∀ (w w' : RedisBacked.W) uid uuid1 uuid2 attestationResponse deviceType r,
    run (RedisBacked.verifyRegistration uuid1 uid attestationResponse
           deviceType) w = (Returned r, w') →
    let first :=
      RedisBacked.verifyRegistration uuid1 uid attestationResponse deviceType in
    let second :=
      RedisBacked.verifyRegistration uuid2 uid attestationResponse deviceType in
    answer (race alternate first second w).1.1
    = Some (Returned (mkVerified true))
    ∧ answer (race alternate first second w).1.2
      = Some (Returned (mkVerified true))
    ∧ ∃ c1 c2,
        id c1 = uuid1 ∧ id c2 = uuid2
        ∧ credentialId c1 = credentialId c2
        ∧ Postgres.uuid_value (userId c1) = Postgres.uuid_value uid
        ∧ Postgres.uuid_value (userId c2) = Postgres.uuid_value uid
        ∧ creds (db (race alternate first second w).2)
          = creds (db w) ++ [c1; c2].
Proof.
  intros [d s t] w' uid uuid1 uuid2 attestationResponse deviceType r R.
  cbn zeta.
  unfold RedisBacked.verifyRegistration, RedisBacked.getExpectedChallenge in *.
  unfold race, alternate, query_by_uuid in *. cbn in R |- *.
  destruct (Postgres.is_uuid uid) eqn:Hid; cbn in R |- *; [|discriminate R].
  destruct (Repository.findUserById uid d) as [user|] eqn:Hu;
    cbn in R |- *; [|discriminate R].
  pose proof (findUserById_id _ _ _ Hu) as Hi.
  unfold RedisService.live in *. cbn in R |- *.
  destruct (s !! _) as [[c exp]|] eqn:Hs; cbn in R |- *; [|discriminate R].
  destruct (t <=? exp) eqn:Ht; cbn in R |- *; [|discriminate R].
  destruct (falsy_string c) eqn:Hf; cbn in R |- *; [discriminate R|].
  destruct (verifyRegistrationResponse _) as [v|m] eqn:Hv;
    cbn in R |- *; [|discriminate R].
  destruct (reg_verified v) eqn:Hok; cbn in R |- *; [|discriminate R].
  destruct (registrationInfo v) as [info|] eqn:Hinfo; cbn in R |- *;
    [|discriminate R].
  unfold saveNewCredential in *. cbn in R |- *.
  destruct (Postgres.int4 _) eqn:Hfit; cbn in R |- *; [|discriminate R].
  clear R.
  repeat (first [rewrite Hu | rewrite Hs | rewrite Ht
                | rewrite Hf | rewrite Hv | rewrite Hok | rewrite Hinfo
                | rewrite Hfit
                | progress unfold RedisService.live]; cbn).
  split; [done|]. split; [done|].
  rewrite <- app_assoc. cbn.
  set (row1 := mkCredential uuid1 _ _ _ _ _ _ _).
  set (row2 := mkCredential uuid2 _ _ _ _ _ _ _).
  by exists row1, row2.
Qed.

(** Alice's phone sends the same registration response twice at once, her
    id written in braces: both rows are hers, under her id as stored. *)
Lemma Redis_racing_registrations_both_persist_witness :
  let H := Demo.libraries 0 in
  let uid := "{11111111-1111-4111-8111-111111111111}" in
  let w := (run (RedisBacked.generateRegistrationOptions "c1" uid)
              (Demo.redis 5)).2 in
  let first := RedisBacked.verifyRegistration Demo.k8 uid
                 (Demo.signed Demo.cred9 "c1") (Some "iOS Device") in
  let second := RedisBacked.verifyRegistration Demo.k9 uid
                  (Demo.signed Demo.cred9 "c1") (Some "iOS Device") in
  answer (race alternate first second w).1.1
  = Some (Returned (mkVerified true))
  ∧ answer (race alternate first second w).1.2
    = Some (Returned (mkVerified true))
  ∧ length (creds (db (race alternate first second w).2)) = 4%nat
  ∧ userId <$> creds (db (race alternate first second w).2)
    = [Demo.u1; Demo.u2; Demo.u1; Demo.u1].
Proof.
  intros H uid w first second.
  destruct (@Redis_racing_registrations_both_persist H w
              (run first w).2 uid Demo.k8 Demo.k9
              (Demo.signed Demo.cred9 "c1")
              (Some "iOS Device") (mkVerified true) eq_refl)
    as (A1 & A2 & c1 & c2 & _ & _ & _ & _ & _ & E).
  split; [exact A1|]. split; [exact A2|].
  split; [|reflexivity]. fold first second in E. rewrite E. reflexivity.
Defined.

(** The same two requests against the first revision. *)
Lemma InMemory_racing_registrations_at_most_one_witness :
  let H := Demo.libraries 0 in
  let w := (run (InMemory.generateRegistrationOptions "c1" Demo.u1)
              (Demo.memory 5)).2 in
  let first := InMemory.verifyRegistration Demo.k8 Demo.u1
                 (Demo.signed Demo.cred9 "c1") (Some "iOS Device") in
  let second := InMemory.verifyRegistration Demo.k9 Demo.u1
                  (Demo.signed Demo.cred9 "c1") (Some "iOS Device") in
  ¬ (returned (answer (race alternate first second w).1.1) = true
     ∧ returned (answer (race alternate first second w).1.2) = true).
Proof.
  intros H w first second.
  apply (@InMemory_racing_registrations_at_most_one H w Demo.u1 Demo.k8 Demo.k9).
Defined.

(** Two sign-ins of Alice racing against the first revision. *)
Lemma InMemory_racing_calls_at_most_one_witness :
  let H := Demo.libraries 6 in
  let w := (run (InMemory.generateAuthenticationOptions "c1" Demo.u1)
              (Demo.memory 5)).2 in
  let call := InMemory.verifyAuthentication Demo.u1 (Demo.signed Demo.cred1 "c1") in
  ¬ (returned (answer (race alternate call call w).1.1) = true
     ∧ returned (answer (race alternate call call w).1.2) = true).
Proof.
  intros H w call.
  apply (proj2 (@InMemory_racing_calls_at_most_one H) w Demo.u1).
Defined.

(** ** What each request leaves alone *)

Section Footprint.
Context `{Libraries}.

Lemma preserves_bind {St A B} (I : St → St → Prop) (m : Async St A)
    (f : A → Async St B) :
  preserves I m → (∀ x, preserves I (f x)) → preserves I (m ≫= f).
Proof.
  intros Hm Hf. induction m as [a|e|Y act k IH|Y act k IH]; cbn in *.
  - apply Hf.
  - done.
  - destruct Hm as [Ha Hk]. split; [done|]. intros x. by apply IH.
  - destruct Hm as [Ha Hk]. split; [done|]. intros x. by apply IH.
Qed.

Lemma preserves_run {St A} (I : St → St → Prop) (m : Async St A) :
  (∀ s, I s s) → (∀ s1 s2 s3, I s1 s2 → I s2 s3 → I s1 s3) →
  preserves I m → ∀ s, I s (run m s).2.
Proof.
  intros Hr Ht. induction m as [a|e|Y act k IH|Y act k IH]; cbn;
    intros Hm s; try done.
  - destruct Hm as [Ha Hk]. specialize (Ha s).
    destruct (act s) as [x s'] eqn:E. cbn in Ha.
    apply (Ht _ s'); [done|]. by apply IH.
  - destruct Hm as [Ha Hk]. specialize (Ha s).
    destruct (act s) as [x s'] eqn:E. cbn in Ha.
    apply (Ht _ s'); [done|]. by apply IH.
Qed.

(** Walks through a request: every action is looked at, every answer of a
    collaborator considered. *)
Ltac footprint :=
  repeat match goal with
         | |- True => exact I
         | |- _ ∧ _ => split
         | |- ∀ _, _ => intros ?
         | |- preserves _ (match ?x with _ => _ end) => destruct x
         | |- preserves _ (if ?x then _ else _) => destruct x
         | |- preserves _ (match ?x with _ => _ end ≫= _) => destruct x
         | |- preserves _ ((if ?x then _ else _) ≫= _) => destruct x
         | |- preserves _ _ => progress cbn
         | |- context [query_by_uuid] => unfold query_by_uuid
         | |- context [saveCredential] => unfold saveCredential
         | |- context [saveNewCredential] => unfold saveNewCredential
         | |- context [if Postgres.int4 ?x then _ else _] =>
             destruct (Postgres.int4 x)
         | |- context [match List.find ?p ?l with _ => _ end] =>
             destruct (List.find p l)
         end;
  cbn; try done;
  try (first [rewrite lookup_insert_ne | rewrite lookup_delete_ne];
       [done|];
       match goal with
       | Hk : _ ≠ _ |- _ =>
           let E := fresh in intros E; apply Hk; rewrite <- E; reflexivity
       end).

Lemma mem_options_preserve fresh :
  (∀ uid,
     preserves (λ w w' : InMemory.W,
                  same_db w w' ∧ same_store_but (key_of uid reg) w w')
       (InMemory.generateRegistrationOptions fresh uid))
  ∧ (∀ uid,
       preserves (λ w w' : InMemory.W,
                    same_db w w' ∧ same_store_but (key_of uid auth) w w')
         (InMemory.generateAuthenticationOptions fresh uid))
  ∧ (∀ mail,
       preserves (λ w w' : InMemory.W,
                    same_db w w'
                    ∧ same_store_but ("auth-email-" +:+ mail) w w')
         (InMemory.generateAuthenticationOptionsByEmail fresh mail)).
Proof.
  unfold same_db, same_store_but.
  unfold InMemory.generateRegistrationOptions,
    InMemory.generateAuthenticationOptions,
    InMemory.generateAuthenticationOptionsByEmail.
  footprint.
Qed.

Lemma redis_options_preserve fresh :
  (∀ uid,
     preserves (λ w w' : RedisBacked.W,
                  same_db w w' ∧ same_store_but (key_of uid reg) w w')
       (RedisBacked.generateRegistrationOptions fresh uid))
  ∧ (∀ uid,
       preserves (λ w w' : RedisBacked.W,
                    same_db w w' ∧ same_store_but (key_of uid auth) w w')
         (RedisBacked.generateAuthenticationOptions fresh uid))
  ∧ (∀ mail,
       preserves (λ w w' : RedisBacked.W,
                    same_db w w'
                    ∧ same_store_but ("auth-email-" +:+ mail) w w')
         (RedisBacked.generateAuthenticationOptionsByEmail fresh mail)).
Proof.
  unfold same_db, same_store_but.
  unfold RedisBacked.generateRegistrationOptions,
    RedisBacked.generateAuthenticationOptions,
    RedisBacked.generateAuthenticationOptionsByEmail.
  footprint.
Qed.

Lemma mem_verifications_preserve :
  (∀ uuid uid attestationResponse deviceType,
     preserves (λ w w' : InMemory.W,
                  rows_kept w w' ∧ same_store_but (key_of uid reg) w w')
       (InMemory.verifyRegistration uuid uid attestationResponse deviceType))
  ∧ (∀ uid assertionResponse,
       preserves (λ w w' : InMemory.W,
                    same_users w w' ∧ same_store_but (key_of uid auth) w w')
         (InMemory.verifyAuthentication uid assertionResponse))
  ∧ (∀ mail assertionResponse,
       preserves (λ w w' : InMemory.W,
                    same_users w w'
                    ∧ same_store_but ("auth-email-" +:+ mail) w w')
         (InMemory.verifyAuthenticationByEmail mail assertionResponse)).
Proof.
  unfold rows_kept, same_users, same_store_but.
  unfold InMemory.verifyRegistration, InMemory.verifyAuthentication,
    InMemory.verifyAuthenticationByEmail, InMemory.getExpectedChallenge.
  footprint; first [by exists []; rewrite app_nil_r | by eexists].
Qed.

Lemma redis_verifications_preserve :
  (∀ uuid uid attestationResponse deviceType,
     preserves (λ w w' : RedisBacked.W,
                  rows_kept w w' ∧ same_store_but (key_of uid reg) w w')
       (RedisBacked.verifyRegistration uuid uid attestationResponse
          deviceType))
  ∧ (∀ uid assertionResponse,
       preserves (λ w w' : RedisBacked.W,
                    same_users w w' ∧ same_store_but (key_of uid auth) w w')
         (RedisBacked.verifyAuthentication uid assertionResponse))
  ∧ (∀ mail assertionResponse,
       preserves (λ w w' : RedisBacked.W,
                    same_users w w'
                    ∧ same_store_but ("auth-email-" +:+ mail) w w')
         (RedisBacked.verifyAuthenticationByEmail mail assertionResponse)).
Proof.
  unfold rows_kept, same_users, same_store_but.
  unfold RedisBacked.verifyRegistration, RedisBacked.verifyAuthentication,
    RedisBacked.verifyAuthenticationByEmail, RedisBacked.getExpectedChallenge.
  footprint; first [by exists []; rewrite app_nil_r | by eexists].
Qed.

Lemma db_and_keys_run {V A} k (m : Async (World (gmap string V)) A) w :
  preserves (λ w w', same_db w w' ∧ same_store_but k w w') m →
  same_db w (run m w).2 ∧ same_store_but k w (run m w).2.
Proof.
  intros P.
  apply (preserves_run (λ w w', same_db w w' ∧ same_store_but k w w') m);
    [done| |done].
  unfold same_db, same_store_but. intros s1 s2 s3 [D1 S1] [D2 S2].
  split; [congruence|]. intros k' Hk. by rewrite S2, S1.
Qed.

Lemma users_and_keys_run {V A} k (m : Async (World (gmap string V)) A) w :
  preserves (λ w w', same_users w w' ∧ same_store_but k w w') m →
  same_users w (run m w).2 ∧ same_store_but k w (run m w).2.
Proof.
  intros P.
  apply (preserves_run (λ w w', same_users w w' ∧ same_store_but k w w') m);
    [done| |done].
  unfold same_users, same_store_but. intros s1 s2 s3 [D1 S1] [D2 S2].
  split; [congruence|]. intros k' Hk. by rewrite S2, S1.
Qed.

Lemma rows_and_keys_run {V A} k (m : Async (World (gmap string V)) A) w :
  preserves (λ w w', rows_kept w w' ∧ same_store_but k w w') m →
  rows_kept w (run m w).2 ∧ same_store_but k w (run m w).2.
Proof.
  intros P.
  apply (preserves_run (λ w w', rows_kept w w' ∧ same_store_but k w w') m);
    [| |done].
  - intros s. split; [|done]. split; [done|]. exists []. by rewrite app_nil_r.
  - unfold rows_kept, same_store_but.
    intros s1 s2 s3 [[U1 [a1 C1]] S1] [[U2 [a2 C2]] S2].
    split; [split; [congruence|]|].
    + exists (a1 ++ a2). by rewrite C2, C1, app_assoc.
    + intros k' Hk. by rewrite S2, S1.
Qed.

(** X14. The options methods write nothing but their own challenge: after
    [generateRegistrationOptions], [generateAuthenticationOptions] or
    [generateAuthenticationOptionsByEmail], whether it returned or threw,
    the database is as before and so is what the challenge store holds
    under every other key. Both revisions. *)
Theorem options_write_only_their_challenge :
  (∀ (w : InMemory.W) fresh uid,
     let w' := (run (InMemory.generateRegistrationOptions fresh uid) w).2 in
     same_db w w' ∧ same_store_but (key_of uid reg) w w')
  ∧ (∀ (w : InMemory.W) fresh uid,
       let w' := (run (InMemory.generateAuthenticationOptions fresh uid) w).2 in
       same_db w w' ∧ same_store_but (key_of uid auth) w w')
  ∧ (∀ (w : InMemory.W) fresh mail,
       let w' :=
         (run (InMemory.generateAuthenticationOptionsByEmail fresh mail) w).2 in
       same_db w w' ∧ same_store_but ("auth-email-" +:+ mail) w w')
  ∧ (∀ (w : RedisBacked.W) fresh uid,
       let w' := (run (RedisBacked.generateRegistrationOptions fresh uid) w).2 in
       same_db w w' ∧ same_store_but (key_of uid reg) w w')
  ∧ (∀ (w : RedisBacked.W) fresh uid,
       let w' :=
         (run (RedisBacked.generateAuthenticationOptions fresh uid) w).2 in
       same_db w w' ∧ same_store_but (key_of uid auth) w w')
  ∧ (∀ (w : RedisBacked.W) fresh mail,
       let w' :=
         (run (RedisBacked.generateAuthenticationOptionsByEmail fresh mail)
            w).2 in
       same_db w w' ∧ same_store_but ("auth-email-" +:+ mail) w w').
Proof.
  split; [|split; [|split; [|split; [|split]]]]; intros w fresh k;
    cbn zeta; apply db_and_keys_run;
    first [apply (mem_options_preserve fresh)
          | apply (redis_options_preserve fresh)].
Qed.

(** X15. The verification methods never touch the users table nor a
    challenge other than their own, whether they return or throw; and
    [verifyRegistration] alters and removes no stored credential: the
    credentials table afterwards is the one before with rows appended. Both
    revisions. *)
Theorem verification_keeps_rows_and_other_challenges :
  (∀ (w : InMemory.W) uuid uid attestationResponse deviceType,
     let w' := (run (InMemory.verifyRegistration uuid uid attestationResponse
                       deviceType) w).2 in
     rows_kept w w' ∧ same_store_but (key_of uid reg) w w')
  ∧ (∀ (w : RedisBacked.W) uuid uid attestationResponse deviceType,
       let w' := (run (RedisBacked.verifyRegistration uuid uid
                         attestationResponse deviceType) w).2 in
       rows_kept w w' ∧ same_store_but (key_of uid reg) w w')
  ∧ (∀ (w : InMemory.W) uid assertionResponse,
       let w' :=
         (run (InMemory.verifyAuthentication uid assertionResponse) w).2 in
       same_users w w' ∧ same_store_but (key_of uid auth) w w')
  ∧ (∀ (w : RedisBacked.W) uid assertionResponse,
       let w' :=
         (run (RedisBacked.verifyAuthentication uid assertionResponse) w).2 in
       same_users w w' ∧ same_store_but (key_of uid auth) w w')
  ∧ (∀ (w : InMemory.W) mail assertionResponse,
       let w' :=
         (run (InMemory.verifyAuthenticationByEmail mail assertionResponse)
            w).2 in
       same_users w w' ∧ same_store_but ("auth-email-" +:+ mail) w w')
  ∧ (∀ (w : RedisBacked.W) mail assertionResponse,
       let w' :=
         (run (RedisBacked.verifyAuthenticationByEmail mail assertionResponse)
            w).2 in
       same_users w w' ∧ same_store_but ("auth-email-" +:+ mail) w w').
Proof.
  split; [|split; [|split; [|split; [|split]]]]; intros w **; cbn zeta.
  - apply rows_and_keys_run, mem_verifications_preserve.
  - apply rows_and_keys_run, redis_verifications_preserve.
  - apply users_and_keys_run, mem_verifications_preserve.
  - apply users_and_keys_run, redis_verifications_preserve.
  - apply users_and_keys_run, mem_verifications_preserve.
  - apply users_and_keys_run, redis_verifications_preserve.
Qed.

Lemma filter_all {A} (P : A → Prop) `{∀ x, Decision (P x)} (l : list A) :
  (∀ x, x ∈ l → P x) → filter P l = l.
Proof.
  induction l as [|a l IH]; intros Hl; [done|].
  rewrite filter_cons_True; [|apply Hl; by left].
  f_equal. apply IH. intros x Hx. apply Hl. by right.
Qed.

Lemma same_but_counter_all l : Forall2 same_but_counter l l.
Proof. induction l; constructor; done. Qed.

(** Saving a stored credential with a new counter changes that row's
    counter and nothing else, when ids are a primary key; the row may be
    listed elsewhere afterwards. *)
Lemma updateCredential_counter_only d credential n :
  primary_key d →
  credential ∈ creds d →
  ∃ rows,
    creds (Repository.updateCredential (set_counter n credential) d) ≡ₚ rows
    ∧ Forall2 same_but_counter (creds d) rows.
Proof.
  unfold primary_key, Repository.updateCredential. cbn. intros Hpk Hin.
  apply list_elem_of_split in Hin as (l1 & l2 & E). rewrite E in *.
  rewrite fmap_app in Hpk. cbn in Hpk.
  apply NoDup_app in Hpk as (N1 & N12 & N2).
  apply NoDup_cons in N2 as [Nc N2].
  exists (l1 ++ set_counter n credential :: l2). split.
  - rewrite filter_app, filter_cons_False by (by intros F; apply F).
    rewrite !filter_all.
    + rewrite <- app_assoc. f_equiv. symmetry. apply Permutation_cons_append.
    + intros x Hx Ex. apply Nc. rewrite <- Ex.
      apply list_elem_of_fmap. by exists x.
    + intros x Hx Ex. apply (N12 (Postgres.uuid_value (id x))).
      * apply list_elem_of_fmap. by exists x.
      * rewrite Ex. by left.
  - apply Forall2_app; [apply same_but_counter_all|].
    constructor; [done|apply same_but_counter_all].
Qed.

Lemma authentication_result_counter_only {V A} assertionResponse c credential
    (ret : A) (w w1 : World V) :
  primary_key (db w) →
  credential ∈ creds (db w) →
  db w1 = db w →
  ∃ rows,
    creds (db (authentication_result assertionResponse c credential ret
                 w1).2) ≡ₚ rows
    ∧ Forall2 same_but_counter (creds (db w)) rows.
Proof.
  intros Hpk Hin Hd. unfold authentication_result.
  destruct (verifyAuthenticationResponse _) as [vr|m]; cbn;
    [|rewrite Hd; eexists; split; [done|apply same_but_counter_all]].
  destruct (auth_verified vr); cbn;
    [|rewrite Hd; eexists; split; [done|apply same_but_counter_all]].
  destruct (Postgres.int4 _); cbn;
    [|rewrite Hd; eexists; split; [done|apply same_but_counter_all]].
  rewrite Hd. by apply updateCredential_counter_only.
Qed.

(** X16. With credential ids a primary key (no two rows hold the same
    uuid), the authentication methods change nothing in the credentials
    table but counters: afterwards the table lists, in some order, as many
    rows as before, each with the id, credential id, public key, device
    type, backup flag, owner and creation time of the row it stands for.
    Both revisions, whether the call returns or throws. *)
Theorem authentication_changes_counters_only :
  (∀ (w : InMemory.W) uid assertionResponse,
     primary_key (db w) →
     ∃ rows,
       creds (db (run (InMemory.verifyAuthentication uid assertionResponse)
                    w).2) ≡ₚ rows
       ∧ Forall2 same_but_counter (creds (db w)) rows)
  ∧ (∀ (w : RedisBacked.W) uid assertionResponse,
       primary_key (db w) →
       ∃ rows,
         creds (db (run (RedisBacked.verifyAuthentication uid
                           assertionResponse) w).2) ≡ₚ rows
         ∧ Forall2 same_but_counter (creds (db w)) rows)
  ∧ (∀ (w : InMemory.W) mail assertionResponse,
       primary_key (db w) →
       ∃ rows,
         creds (db (run (InMemory.verifyAuthenticationByEmail mail
                           assertionResponse) w).2) ≡ₚ rows
         ∧ Forall2 same_but_counter (creds (db w)) rows)
  ∧ (∀ (w : RedisBacked.W) mail assertionResponse,
       primary_key (db w) →
       ∃ rows,
         creds (db (run (RedisBacked.verifyAuthenticationByEmail mail
                           assertionResponse) w).2) ≡ₚ rows
         ∧ Forall2 same_but_counter (creds (db w)) rows).
Proof.
  assert (∀ {V} (w : World V),
            ∃ rows, creds (db w) ≡ₚ rows
                    ∧ Forall2 same_but_counter (creds (db w)) rows) as Same.
  { intros V w. eexists. split; [done|apply same_but_counter_all]. }
  split; [|split; [|split]].
  - intros w uid r Hpk. rewrite mem_verifyAuthentication_run.
    destruct (Postgres.is_uuid uid); [|apply Same].
    destruct (Repository.findUserById uid (db w)) as [user|] eqn:Hu;
      [|apply Same].
    destruct (find_credential _ user) as [credential|] eqn:Hc; [|apply Same].
    destruct (store w !! _); [|apply Same].
    apply authentication_result_counter_only; [done| |done].
    eapply find_credential_in_table; [|done].
    by eapply findUserById_loaded.
  - intros w uid r Hpk. rewrite redis_verifyAuthentication_run.
    destruct (Postgres.is_uuid uid); [|apply Same].
    destruct (Repository.findUserById uid (db w)) as [user|] eqn:Hu;
      [|apply Same].
    destruct (find_credential _ user) as [credential|] eqn:Hc; [|apply Same].
    destruct (RedisService.live w _) as [c|]; [|apply Same].
    destruct (falsy_string c); [apply Same|].
    apply authentication_result_counter_only; [done| |done].
    eapply find_credential_in_table; [|done].
    by eapply findUserById_loaded.
  - intros w mail r Hpk. rewrite mem_verifyAuthenticationByEmail_run.
    destruct (Repository.findUserByEmail mail (db w)) as [user|] eqn:Hu;
      [|apply Same].
    destruct (find_credential _ user) as [credential|] eqn:Hc; [|apply Same].
    destruct (store w !! _); [|apply Same].
    apply authentication_result_counter_only; [done| |done].
    eapply find_credential_in_table; [|done].
    by eapply findUserByEmail_loaded.
  - intros w mail r Hpk. rewrite redis_verifyAuthenticationByEmail_run.
    destruct (Repository.findUserByEmail mail (db w)) as [user|] eqn:Hu;
      [|apply Same].
    destruct (find_credential _ user) as [credential|] eqn:Hc; [|apply Same].
    destruct (RedisService.live w _) as [c|]; [|apply Same].
    destruct (falsy_string c); [apply Same|].
    apply authentication_result_counter_only; [done| |done].
    eapply find_credential_in_table; [|done].
    by eapply findUserByEmail_loaded.
Qed.

End Footprint.

(** Alice signs in; Bob's passkey and the rest of hers are as before,
    and hers is now listed after his. *)
Lemma authentication_changes_counters_only_witness :
  let H := Demo.libraries 6 in
  let w := (run (InMemory.generateAuthenticationOptions "c1" Demo.u1)
              (Demo.memory 5)).2 in
  let w' := (run (InMemory.verifyAuthentication Demo.u1
                    (Demo.signed Demo.cred1 "c1")) w).2 in
  creds (db w') = [Demo.passkey_of_bob; Demo.passkey 6]
  ∧ ∃ rows, creds (db w') ≡ₚ rows
            ∧ Forall2 same_but_counter (creds (db w)) rows.
Proof.
  intros H w w'. split; [reflexivity|].
  apply (proj1 (@authentication_changes_counters_only H) w Demo.u1
           (Demo.signed Demo.cred1 "c1")).
  apply (bool_decide_unpack _). vm_compute. reflexivity.
Defined.

(** ** Challenge keys *)

(** X17. Challenge keys tell ceremonies apart: the keys [`${type}-${userId}`]
    of two ceremonies coincide only for the same user and the same type, the
    keys [`auth-email-${email}`] only for the same address; and the key of
    the e-mail flow is the key [getExpectedChallenge] would use for
    authenticating a user whose id is ["email-" + email], and for no other
    user or type. *)
Theorem challenge_keys_tell_ceremonies_apart :
  (∀ uid uid' t t', key_of uid t = key_of uid' t' ↔ uid = uid' ∧ t = t')
  ∧ (∀ mail mail',
       "auth-email-" +:+ mail = "auth-email-" +:+ mail' ↔ mail = mail')
  ∧ (∀ mail uid t,
       "auth-email-" +:+ mail = key_of uid t
       ↔ t = auth ∧ uid = "email-" +:+ mail).
Proof.
  unfold key_of. split; [|split].
  - intros uid uid' t t'. split; [|by intros [-> ->]].
    destruct t, t'; cbn; intros E; by simplify_eq.
  - intros mail mail'. split; [|by intros ->]. cbn. intros E. by simplify_eq.
  - intros mail uid t. split.
    + destruct t; cbn; intros E; by simplify_eq.
    + by intros [-> ->].
Qed.

Lemma challenge_keys_tell_ceremonies_apart_witness :
  key_of "u1" reg ≠ key_of "u1" auth
  ∧ "auth-email-" +:+ "alice@example.com" = key_of "email-alice@example.com" auth.
Proof.
  split.
  - intros E.
    by destruct (proj1 (proj1 challenge_keys_tell_ceremonies_apart
                          "u1" "u1" reg auth) E).
  - apply (proj2 (proj2 challenge_keys_tell_ceremonies_apart)
             "alice@example.com" "email-alice@example.com" auth).
    split; reflexivity.
Defined.

(** ** A deleted passkey *)

Section Deleted.
Context `{Libraries}.

Lemma deleteCredential_returned {C} (w w' : World C) uid cid r :
  run (deleteCredential uid cid) w = (Returned r, w') →
  Postgres.is_uuid cid = true ∧ Postgres.is_uuid uid = true
  ∧ w' = with_db (mkDb (users (db w))
                    (filter (λ x, Postgres.uuid_value (id x)
                                  ≠ Postgres.uuid_value cid)
                            (creds (db w)))) w.
Proof.
  rewrite deleteCredential_run.
  destruct (Postgres.is_uuid cid); [|done].
  destruct (Postgres.is_uuid uid); [|done].
  destruct (Repository.findCredential cid uid (db w)) as [c|] eqn:F; [|done].
  intros [= <- <-]. split; [done|]. split; [done|].
  apply find_some in F as [_ Hc].
  apply andb_true_iff in Hc as [[_ Hi]%same_id_true _].
  unfold Repository.removeCredential. by rewrite Hi.
Qed.

Lemma find_credential_removed credId user d cid :
  credentials user
  = Repository.credentials_of
      (mkDb (users d)
            (filter (λ x, Postgres.uuid_value (id x) ≠ Postgres.uuid_value cid)
                    (creds d))) (row user) →
  (∀ x, x ∈ creds d → credentialId x = credId → id x = cid) →
  find_credential credId user = None.
Proof.
  unfold find_credential. intros -> Hu. unfold Repository.credentials_of. cbn.
  destruct (List.find _ _) as [x|] eqn:F; [|done]. exfalso.
  apply find_some in F as [Hin Hx]. apply String.eqb_eq in Hx.
  apply list_elem_of_In, list_elem_of_filter in Hin as [_ Hin].
  apply list_elem_of_filter in Hin as [Hne Hin]. apply Hne.
  by rewrite (Hu x Hin Hx).
Qed.

(** X18. A deleted passkey is gone: after [deleteCredential] returned, the
    same call made again throws "Credential not found" and changes nothing;
    no [getUser] lists a credential with that id; and, when no other row
    carried the deleted row's credential id, [verifyAuthentication] for that
    user with a response claiming this credential id does not return (both
    revisions), while the pending challenge stays. *)
Theorem deleted_passkey_is_gone :
  (∀ {C} (w w' : World C) uid cid r,
     run (deleteCredential uid cid) w = (Returned r, w') →
     run (deleteCredential uid cid) w' = (Thrown credential_not_found, w')
     ∧ ∀ uid' view,
         (run (getUser uid') w').1 = Returned view →
         ∀ cv, cv ∈ uv_credentials view → cv_id cv ≠ cid)
  ∧ (∀ (w w' : InMemory.W) uid cid r assertionResponse,
       run (deleteCredential uid cid) w = (Returned r, w') →
       (∀ x, x ∈ creds (db w) →
             credentialId x = claimed_credentialId assertionResponse →
             id x = cid) →
       ∃ e, run (InMemory.verifyAuthentication uid assertionResponse) w'
            = (Thrown e, w')
            ∧ (e = credential_not_found
               ∨ e = UnauthorizedException "User not found"))
  ∧ (∀ (w w' : RedisBacked.W) uid cid r assertionResponse,
       run (deleteCredential uid cid) w = (Returned r, w') →
       (∀ x, x ∈ creds (db w) →
             credentialId x = claimed_credentialId assertionResponse →
             id x = cid) →
       ∃ e, run (RedisBacked.verifyAuthentication uid assertionResponse) w'
            = (Thrown e, w')
            ∧ (e = credential_not_found
               ∨ e = UnauthorizedException "User not found")).
Proof.
  split; [|split].
  - intros C w w' uid cid r (Uc & Uu & ->)%deleteCredential_returned.
    split.
    + rewrite deleteCredential_run, Uc, Uu.
      unfold Repository.findCredential. cbn.
      destruct (List.find _ (filter _ _)) as [c'|] eqn:F'; [|done].
      exfalso. apply find_some in F' as [Hin Hc].
      apply andb_true_iff in Hc as [[_ Hc]%same_id_true _].
      by apply list_elem_of_In, list_elem_of_filter in Hin as [Hne _].
    + intros uid' view. unfold getUser. destruct (_ || _); [done|].
      rewrite run_by_uuid. destruct (Postgres.is_uuid uid'); [|done].
      unfold Repository.findUserById. cbn.
      destruct (List.find _ (users (db w))) as [u|]; [|done].
      cbn. intros [= <-] cv. cbn. unfold Repository.credentials_of. cbn.
      intros (x & <- & Hx)%list_elem_of_In%in_map_iff. cbn.
      apply list_elem_of_In, list_elem_of_filter in Hx as [_ Hx].
      apply list_elem_of_filter in Hx as [Hne _].
      intros E. apply Hne. by rewrite E.
  - intros w w' uid cid r resp
      (Uc & Uu & ->)%deleteCredential_returned Hu.
    rewrite mem_verifyAuthentication_run, Uu.
    destruct (Repository.findUserById uid _) as [user|] eqn:Fu;
      [|eexists; split; [done|by right]].
    rewrite (find_credential_removed _ user (db w) cid);
      [eexists; split; [done|by left]| |done].
    by rewrite (findUserById_loaded _ _ _ Fu).
  - intros w w' uid cid r resp
      (Uc & Uu & ->)%deleteCredential_returned Hu.
    rewrite redis_verifyAuthentication_run, Uu.
    destruct (Repository.findUserById uid _) as [user|] eqn:Fu;
      [|eexists; split; [done|by right]].
    rewrite (find_credential_removed _ user (db w) cid);
      [eexists; split; [done|by left]| |done].
    by rewrite (findUserById_loaded _ _ _ Fu).
Qed.

End Deleted.

(** Alice removes her passkey and then tries to remove it again. *)
Lemma deleted_passkey_is_gone_witness :
  let H := Demo.libraries 6 in
  let w' := (run (deleteCredential Demo.u1 Demo.k1) (Demo.memory 5)).2 in
  run (deleteCredential Demo.u1 Demo.k1) w'
  = (Thrown credential_not_found, w').
Proof.
  intros H w'.
  apply (proj1 (@deleted_passkey_is_gone H) _ (Demo.memory 5) w' Demo.u1 Demo.k1
           (mkDeleted true)).
  reflexivity.
Defined.

(** ** The sweep of the first revision *)

(** X19. The timer's sweep of the first revision deletes exactly the
    challenges stored more than 300000 ms ago: an entry is there afterwards
    if and only if it was there before and is at most that old; the sweep
    touches neither the database nor the clock and sweeping twice at one
    instant is sweeping once. So a challenge issued by
    [generateRegistrationOptions] survives a sweep [d] ms later exactly when
    [d ≤ 300000]. *)
Theorem sweep_drops_what_is_older_than_five_minutes `{Libraries} :
  (∀ (w : InMemory.W) k e,
     store (InMemory.sweep w) !! k = Some e
     ↔ store w !! k = Some e ∧ now w - InMemory.timestamp e ≤ 300000)
  ∧ (∀ w : InMemory.W,
       db (InMemory.sweep w) = db w ∧ now (InMemory.sweep w) = now w)
  ∧ (∀ w : InMemory.W, InMemory.sweep (InMemory.sweep w) = InMemory.sweep w)
  ∧ (∀ (w : InMemory.W) fresh uid user d,
       Repository.findUserById uid (db w) = Some user →
       store (InMemory.sweep
                (tick d (run (InMemory.generateRegistrationOptions fresh uid)
                           w).2))
       !! key_of uid reg
       = if d <=? 300000
         then Some (InMemory.mkEntry fresh (now w) None) else None).
Proof.
  split; [|split; [|split]].
  - intros w k e. unfold InMemory.sweep. cbn.
    rewrite map_lookup_filter_Some. by unfold InMemory.expirationTime.
  - done.
  - intros w. unfold InMemory.sweep, with_store. cbn. f_equal.
    apply map_filter_id. intros k e Hk.
    by apply map_lookup_filter_Some in Hk as [_ Hk].
  - intros w fresh uid user d Hu.
    rewrite mem_generateRegistrationOptions_run.
    rewrite (findUserById_is_uuid _ _ _ Hu), Hu.
    rewrite InMemoryFacts.mem_sweep_lookup. cbn. rewrite lookup_insert_eq.
    cbn. unfold InMemory.expirationTime.
    case_decide; destruct (Z.leb_spec d 300000); done || lia.
Qed.

Lemma sweep_drops_what_is_older_than_five_minutes_witness :
  let H := Demo.libraries 0 in
  store (InMemory.sweep
           (tick 300001 (run (InMemory.generateRegistrationOptions "c1"
                                Demo.u1) (Demo.memory 5)).2))
  !! key_of Demo.u1 reg = None.
Proof.
  intros H.
  apply (proj2 (proj2 (proj2
           (@sweep_drops_what_is_older_than_five_minutes H)))
           (Demo.memory 5) "c1" Demo.u1
           (Repository.load (Demo.database 5) Demo.alice) 300001).
  reflexivity.
Defined.

(** ** The Redis service on its own *)

Section Redis.
Import RedisService RedisClient.

(** X20. [setChallenge], [getChallenge], [exists] and [deleteChallenge]
    round trip: [d] ms after a [setChallenge] with a positive TTL (300 s when
    none is given), [getChallenge] returns the challenge if [d] is at most
    the TTL and [null] later, and [exists] answers [true] in exactly the
    first case; a TTL that is not positive makes [setChallenge] throw and
    store nothing; after [deleteChallenge] the key holds nothing, and
    deleting again changes nothing. *)
Theorem redis_challenge_round_trip :
  (∀ (w : W) key c ttl d,
     0 < default 300 ttl →
     let w1 := tick d (run (setChallenge key c ttl) w).2 in
     run (getChallenge key) w1
     = (Returned (if d <=? default 300 ttl * 1000 then Some c else None), w1)
     ∧ run (exists_ key) w1
       = (Returned (d <=? default 300 ttl * 1000), w1))
  ∧ (∀ (w : W) key c ttl,
       default 300 ttl ≤ 0 →
       ∃ message,
         run (setChallenge key c ttl) w = (Thrown (ReplyError message), w))
  ∧ (∀ (w : W) key,
       let w1 := (run (deleteChallenge key) w).2 in
       run (getChallenge key) w1 = (Returned None, w1)
       ∧ run (exists_ key) w1 = (Returned false, w1)
       ∧ run (deleteChallenge key) w1 = (Returned tt, w1)).
Proof.
  split; [|split].
  - intros w key c ttl d Hp. cbn zeta.
    rewrite (RedisFacts.redis_put_accepted _ _ _ _ Hp).
    unfold getChallenge, exists_, GET, EXISTS, live. cbn.
    rewrite lookup_insert_eq. cbn.
    destruct (Z.leb_spec (now w + d) (now w + default 300 ttl * 1000));
      destruct (Z.leb_spec d (default 300 ttl * 1000)); done || lia.
  - intros w key c ttl Hp. eexists.
    apply (RedisFacts.redis_put_refused _ _ _ _ Hp).
  - intros w key. unfold deleteChallenge, getChallenge, exists_, GET, EXISTS,
      DEL, live. cbn. rewrite lookup_delete_eq. cbn.
    split; [done|]. split; [done|].
    unfold with_store. cbn. by rewrite delete_delete_eq.
Qed.

End Redis.

Lemma redis_challenge_round_trip_witness :
  let w1 := tick 300001 (run (RedisService.setChallenge "reg-u1" "c1" None)
                           (Demo.redis 5)).2 in
  run (RedisService.getChallenge "reg-u1") w1 = (Returned None, w1)
  ∧ run (RedisClient.exists_ "reg-u1") w1 = (Returned false, w1).
Proof.
  intros w1.
  apply (proj1 redis_challenge_round_trip (Demo.redis 5) "reg-u1" "c1" None
           300001).
  reflexivity.
Defined.

(** X21. The reconnection delay [Math.min(times * 50, 2000)] given to
    ioredis: it is never more than 2000 ms, never negative for a
    non-negative attempt number, does not decrease with the attempt number,
    grows by 50 ms per attempt (linearly) up to the 40th attempt and is
    2000 ms from then on. *)
Theorem retry_delay_is_linear_then_capped :
  ∀ times times',
    RedisClient.retryStrategy times ≤ 2000
    ∧ (0 ≤ times → 0 ≤ RedisClient.retryStrategy times)
    ∧ (times ≤ times' →
       RedisClient.retryStrategy times ≤ RedisClient.retryStrategy times')
    ∧ (times ≤ 40 → RedisClient.retryStrategy times = 50 * times)
    ∧ (40 ≤ times → RedisClient.retryStrategy times = 2000).
Proof. intros times times'. unfold RedisClient.retryStrategy. lia. Qed.

Lemma retry_delay_is_linear_then_capped_witness :
  RedisClient.retryStrategy 3 = 50 * 3 ∧ RedisClient.retryStrategy 41 = 2000.
Proof.
  split.
  - apply (proj1 (proj2 (proj2 (proj2
             (retry_delay_is_linear_then_capped 3 3))))). lia.
  - apply (proj2 (proj2 (proj2 (proj2
             (retry_delay_is_linear_then_capped 41 41))))). lia.
Defined.

(** ** The device label of the dashboard *)

Section Labels.
Local Arguments String.append !_ _ /.

Lemma prefix_spec needle : ∀ hay,
  String.prefix needle hay = true ↔ ∃ post, hay = needle +:+ post.
Proof.
  induction needle as [|a needle IH]; intros [|b hay]; cbn.
  - split; [intros _; by exists EmptyString|done].
  - split; [intros _; by exists (String b hay)|done].
  - split; [done|by intros [post ?]].
  - destruct (Ascii.ascii_dec a b) as [->|Hne].
    + rewrite IH. split; intros [post E]; exists post; by simplify_eq.
    + split; [done|]. intros [post E]. by simplify_eq.
Qed.

Lemma includes_spec needle : ∀ hay,
  Dashboard.includes needle hay = true
  ↔ ∃ pre post, hay = pre +:+ needle +:+ post.
Proof.
  induction hay as [|a hay IH].
  - change (Dashboard.includes needle EmptyString)
      with (String.prefix needle EmptyString || false).
    rewrite orb_false_r, prefix_spec. split.
    + intros [post E]. by exists EmptyString, post.
    + intros (pre & post & E). exists post.
      destruct pre; [done|discriminate E].
  - change (Dashboard.includes needle (String a hay))
      with (String.prefix needle (String a hay)
            || Dashboard.includes needle hay).
    rewrite orb_true_iff, prefix_spec, IH. split.
    + intros [[post E]|(pre & post & E)].
      * by exists EmptyString, post.
      * exists (String a pre), post. cbn. by rewrite E.
    + intros (pre & post & E). destruct pre as [|b pre]; cbn in E.
      * left. by exists post.
      * right. exists pre, post. by simplify_eq.
Qed.

(** X22. The label [handleAddPasskey] sends with a registration: it is "iOS
    Device" exactly when the user agent contains "iPhone" or "iPad" (even if
    it also contains "Android"), "Android Device" exactly when it contains
    "Android" and neither of those, "Desktop" otherwise; it is never empty,
    so [verifyRegistration]'s [deviceType || "Unknown"] stores the label
    itself. *)
Theorem dashboard_label_is_stored_as_sent :
  ∀ userAgent,
    let contains needle := ∃ pre post, userAgent = pre +:+ needle +:+ post in
    (Dashboard.deviceType userAgent = "iOS Device"
     ↔ contains "iPhone" ∨ contains "iPad")
    ∧ (Dashboard.deviceType userAgent = "Android Device"
       ↔ ¬ (contains "iPhone" ∨ contains "iPad") ∧ contains "Android")
    ∧ (Dashboard.deviceType userAgent = "Desktop"
       ↔ ¬ contains "iPhone" ∧ ¬ contains "iPad" ∧ ¬ contains "Android")
    ∧ or_default (Some (Dashboard.deviceType userAgent)) "Unknown"
      = Dashboard.deviceType userAgent.
Proof.
  intros userAgent contains. unfold Dashboard.deviceType.
  assert (∀ needle, Dashboard.includes needle userAgent = true
                    ↔ contains needle) as S
    by (intros; apply includes_spec).
  pose proof (S "iPhone") as S1. pose proof (S "iPad") as S2.
  pose proof (S "Android") as S3.
  destruct (Dashboard.includes "iPhone" userAgent),
    (Dashboard.includes "iPad" userAgent),
    (Dashboard.includes "Android" userAgent); cbn;
    repeat split; try done; try discriminate; intuition discriminate.
Qed.

End Labels.

Lemma dashboard_label_is_stored_as_sent_witness :
  Dashboard.deviceType "Mozilla/5.0 (iPad; CPU OS 17_0 like Mac OS X)"
  = "iOS Device".
Proof.
  apply (proj1 (dashboard_label_is_stored_as_sent
                  "Mozilla/5.0 (iPad; CPU OS 17_0 like Mac OS X)")).
  right. by exists "Mozilla/5.0 (", "; CPU OS 17_0 like Mac OS X)".
Defined.

(** ** What the stored entry's timestamp and user id are used for *)

(** X23. Verification in the first revision reads nothing of a stored
    entry but its challenge: with another timestamp and another [userId] in
    the entry, [verifyRegistration], [verifyAuthentication] and
    [verifyAuthenticationByEmail] give the same outcome and leave the same
    database. In particular the [userId] that
    [generateAuthenticationOptionsByEmail] stores "to use it during
    verification" is never used. *)
Theorem entry_metadata_is_never_read `{Libraries} :
  (∀ (w : InMemory.W) uuid uid attestationResponse deviceType c t1 u1 t2 u2,
     let put e := with_store (<[key_of uid reg := e]> (store w)) w in
     let call :=
       InMemory.verifyRegistration uuid uid attestationResponse deviceType in
     (run call (put (InMemory.mkEntry c t1 u1))).1
     = (run call (put (InMemory.mkEntry c t2 u2))).1
     ∧ db (run call (put (InMemory.mkEntry c t1 u1))).2
       = db (run call (put (InMemory.mkEntry c t2 u2))).2)
  ∧ (∀ (w : InMemory.W) uid assertionResponse c t1 u1 t2 u2,
       let put e := with_store (<[key_of uid auth := e]> (store w)) w in
       let call := InMemory.verifyAuthentication uid assertionResponse in
       (run call (put (InMemory.mkEntry c t1 u1))).1
       = (run call (put (InMemory.mkEntry c t2 u2))).1
       ∧ db (run call (put (InMemory.mkEntry c t1 u1))).2
         = db (run call (put (InMemory.mkEntry c t2 u2))).2)
  ∧ (∀ (w : InMemory.W) mail assertionResponse c t1 u1 t2 u2,
       let put e :=
         with_store (<["auth-email-" +:+ mail := e]> (store w)) w in
       let call := InMemory.verifyAuthenticationByEmail mail assertionResponse in
       (run call (put (InMemory.mkEntry c t1 u1))).1
       = (run call (put (InMemory.mkEntry c t2 u2))).1
       ∧ db (run call (put (InMemory.mkEntry c t1 u1))).2
         = db (run call (put (InMemory.mkEntry c t2 u2))).2).
Proof.
  split; [|split].
  - intros w uuid uid r dev c t1 u1 t2 u2 put call. unfold put, call.
    rewrite !mem_verifyRegistration_run. cbn.
    destruct (Postgres.is_uuid uid); [|done].
    destruct (Repository.findUserById uid (db w)); [|done].
    rewrite !lookup_insert_eq. cbn. unfold with_store. cbn.
    by rewrite !delete_insert_eq.
  - intros w uid r c t1 u1 t2 u2 put call. unfold put, call.
    rewrite !mem_verifyAuthentication_run. cbn.
    destruct (Postgres.is_uuid uid); [|done].
    destruct (Repository.findUserById uid (db w)) as [user|]; [|done].
    destruct (find_credential _ user); [|done].
    rewrite !lookup_insert_eq. cbn. unfold with_store. cbn.
    by rewrite !delete_insert_eq.
  - intros w mail r c t1 u1 t2 u2 put call. unfold put, call.
    rewrite !mem_verifyAuthenticationByEmail_run. cbn.
    destruct (Repository.findUserByEmail mail (db w)) as [user|]; [|done].
    destruct (find_credential _ user); [|done].
    rewrite !lookup_insert_eq. cbn. unfold with_store. cbn.
    by rewrite !delete_insert_eq.
Qed.

(** ** The two revisions side by side *)

Section SideBySide.
Context `{Libraries}.

Lemma agree_lookup (m : InMemory.W) (r : RedisBacked.W) k :
  agree m r →
  match store m !! k with
  | Some e =>
      RedisService.live r k = Some (InMemory.challenge e)
      ∧ falsy_string (InMemory.challenge e) = false
  | None => RedisService.live r k = None
  end.
Proof.
  intros (_ & _ & S). specialize (S k). unfold RedisService.live.
  destruct (store m !! k) as [e|], (store r !! k) as [x|]; try done.
  destruct S as (-> & L & F). split; [|done].
  by destruct (Z.leb_spec (now r) (RedisService.expireAt x)); [|lia].
Qed.

Lemma agree_delete (m : InMemory.W) (r : RedisBacked.W) k :
  agree m r →
  agree (with_store (delete k (store m)) m) (with_store (delete k (store r)) r).
Proof.
  intros (D & N & S). split; [done|]. split; [done|]. cbn. intros k'.
  destruct (decide (k' = k)) as [->|Hne].
  - by rewrite !lookup_delete_eq.
  - rewrite !lookup_delete_ne by done. apply S.
Qed.

Lemma agree_insert (m : InMemory.W) (r : RedisBacked.W) k c u :
  agree m r → falsy_string c = false →
  agree (with_store (<[k := InMemory.mkEntry c (now m) u]> (store m)) m)
        (with_store
           (<[k := RedisService.mkRedisEntry c (now r + 300 * 1000)]> (store r))
           r).
Proof.
  intros (D & N & S) F. split; [done|]. split; [done|]. cbn. intros k'.
  destruct (decide (k' = k)) as [->|Hne].
  - rewrite !lookup_insert_eq. cbn. split; [done|]. split; [lia|done].
  - rewrite !lookup_insert_ne by done. apply S.
Qed.

Lemma agree_db (m : InMemory.W) (r : RedisBacked.W) d :
  agree m r → agree (with_db d m) (with_db d r).
Proof. by intros (D & N & S). Qed.

Lemma authentication_result_agree {A} assertionResponse c credential (ret : A)
    (m : InMemory.W) (r : RedisBacked.W) :
  agree m r →
  same_answer
    (authentication_result assertionResponse c credential ret m).1
    (authentication_result assertionResponse c credential ret r).1
  ∧ agree (authentication_result assertionResponse c credential ret m).2
          (authentication_result assertionResponse c credential ret r).2.
Proof.
  intros G. unfold authentication_result.
  destruct (verifyAuthenticationResponse _) as [vr|msg]; cbn;
    [|by split; [left|]].
  destruct (auth_verified vr); cbn; [|by split; [left|]].
  destruct (Postgres.int4 _); cbn; [|by split; [left|]].
  split; [done|]. destruct G as (D & N & S). rewrite D.
  by apply agree_db.
Qed.

Lemma registration_result_agree uuid owner attestationResponse c deviceType
    (m : InMemory.W) (r : RedisBacked.W) :
  agree m r →
  same_answer
    (registration_result uuid owner attestationResponse c deviceType m).1
    (registration_result uuid owner attestationResponse c deviceType r).1
  ∧ agree (registration_result uuid owner attestationResponse c deviceType m).2
          (registration_result uuid owner attestationResponse c deviceType r).2.
Proof.
  intros G. unfold registration_result.
  destruct (verifyRegistrationResponse _) as [[[] [info|]]|msg]; cbn;
    try (by split; [left|]).
  destruct (Postgres.int4 _); cbn; [|by split; [left|]].
  split; [done|]. destruct G as (D & N & S). rewrite D, N.
  by apply agree_db.
Qed.

(** X24. The second revision answers like the first. Take a deployment of
    each in the same situation: the same database and clock, and the same
    challenges pending, all of them non-empty and not yet expired in Redis.
    Then every method of the service gives the same answer in both (the
    challenge-not-found message is worded differently) and leaves the two
    in the same situation again; for the options methods, provided the
    challenge minted is not the empty string. *)
Theorem revisions_answer_alike (m : InMemory.W) (r : RedisBacked.W) :
  agree m r →
  (∀ fresh uid,
     falsy_string fresh = false →
     same_answer (run (InMemory.generateRegistrationOptions fresh uid) m).1
                 (run (RedisBacked.generateRegistrationOptions fresh uid) r).1
     ∧ agree (run (InMemory.generateRegistrationOptions fresh uid) m).2
             (run (RedisBacked.generateRegistrationOptions fresh uid) r).2)
  ∧ (∀ fresh uid,
       falsy_string fresh = false →
       same_answer
         (run (InMemory.generateAuthenticationOptions fresh uid) m).1
         (run (RedisBacked.generateAuthenticationOptions fresh uid) r).1
       ∧ agree (run (InMemory.generateAuthenticationOptions fresh uid) m).2
               (run (RedisBacked.generateAuthenticationOptions fresh uid) r).2)
  ∧ (∀ fresh mail,
       falsy_string fresh = false →
       same_answer
         (run (InMemory.generateAuthenticationOptionsByEmail fresh mail) m).1
         (run (RedisBacked.generateAuthenticationOptionsByEmail fresh mail)
            r).1
       ∧ agree
           (run (InMemory.generateAuthenticationOptionsByEmail fresh mail) m).2
           (run (RedisBacked.generateAuthenticationOptionsByEmail fresh mail)
              r).2)
  ∧ (∀ uuid uid attestationResponse deviceType,
       same_answer
         (run (InMemory.verifyRegistration uuid uid attestationResponse
                 deviceType) m).1
         (run (RedisBacked.verifyRegistration uuid uid attestationResponse
                 deviceType) r).1
       ∧ agree
           (run (InMemory.verifyRegistration uuid uid attestationResponse
                   deviceType) m).2
           (run (RedisBacked.verifyRegistration uuid uid attestationResponse
                   deviceType) r).2)
  ∧ (∀ uid assertionResponse,
       same_answer
         (run (InMemory.verifyAuthentication uid assertionResponse) m).1
         (run (RedisBacked.verifyAuthentication uid assertionResponse) r).1
       ∧ agree
           (run (InMemory.verifyAuthentication uid assertionResponse) m).2
           (run (RedisBacked.verifyAuthentication uid assertionResponse) r).2)
  ∧ (∀ mail assertionResponse,
       same_answer
         (run (InMemory.verifyAuthenticationByEmail mail assertionResponse)
            m).1
         (run (RedisBacked.verifyAuthenticationByEmail mail assertionResponse)
            r).1
       ∧ agree
           (run (InMemory.verifyAuthenticationByEmail mail assertionResponse)
              m).2
           (run (RedisBacked.verifyAuthenticationByEmail mail
                   assertionResponse) r).2)
  ∧ (∀ uuid registerDto,
       same_answer (run (register uuid registerDto) m).1
                   (run (register uuid registerDto) r).1
       ∧ agree (run (register uuid registerDto) m).2
               (run (register uuid registerDto) r).2)
  ∧ (∀ loginDto,
       same_answer (run (login loginDto) m).1 (run (login loginDto) r).1
       ∧ agree (run (login loginDto) m).2 (run (login loginDto) r).2)
  ∧ (∀ uid,
       same_answer (run (getUser uid) m).1 (run (getUser uid) r).1
       ∧ agree (run (getUser uid) m).2 (run (getUser uid) r).2)
  ∧ (∀ uid cid,
       same_answer (run (deleteCredential uid cid) m).1
                   (run (deleteCredential uid cid) r).1
       ∧ agree (run (deleteCredential uid cid) m).2
               (run (deleteCredential uid cid) r).2).
Proof.
  intros G. pose proof G as (D & N & S).
  repeat match goal with |- _ ∧ _ => split end.
  - intros fresh uid F.
    rewrite mem_generateRegistrationOptions_run,
      redis_generateRegistrationOptions_run, D.
    destruct (Postgres.is_uuid uid); [|by split; [left|]].
    destruct (Repository.findUserById uid (db r)); cbn; [|by split; [left|]].
    split; [done|]. by apply agree_insert.
  - intros fresh uid F.
    rewrite mem_generateAuthenticationOptions_run,
      redis_generateAuthenticationOptions_run, D.
    destruct (Postgres.is_uuid uid); [|by split; [left|]].
    destruct (Repository.findUserById uid (db r)) as [user|]; cbn;
      [|by split; [left|]].
    destruct (credentials user); cbn; [by split; [left|]|].
    split; [done|]. by apply agree_insert.
  - intros fresh mail F.
    rewrite mem_generateAuthenticationOptionsByEmail_run,
      redis_generateAuthenticationOptionsByEmail_run, D.
    destruct (Repository.findUserByEmail mail (db r)) as [user|]; cbn;
      [|by split; [left|]].
    destruct (credentials user); cbn; [by split; [left|]|].
    split; [done|]. by apply agree_insert.
  - intros uuid uid resp dev.
    rewrite mem_verifyRegistration_run, redis_verifyRegistration_run, D.
    destruct (Postgres.is_uuid uid); [|by split; [left|]].
    destruct (Repository.findUserById uid (db r)) as [user|]; cbn;
      [|by split; [left|]].
    pose proof (agree_lookup m r (key_of uid reg) G) as L.
    destruct (store m !! key_of uid reg) as [e|].
    + destruct L as [-> ->]. apply registration_result_agree.
      by apply agree_delete.
    + rewrite L. cbn. by split; [right|].
  - intros uid resp.
    rewrite mem_verifyAuthentication_run, redis_verifyAuthentication_run, D.
    destruct (Postgres.is_uuid uid); [|by split; [left|]].
    destruct (Repository.findUserById uid (db r)) as [user|]; cbn;
      [|by split; [left|]].
    destruct (find_credential _ user) as [credential|]; cbn;
      [|by split; [left|]].
    pose proof (agree_lookup m r (key_of uid auth) G) as L.
    destruct (store m !! key_of uid auth) as [e|].
    + destruct L as [-> ->]. apply authentication_result_agree.
      by apply agree_delete.
    + rewrite L. cbn. by split; [right|].
  - intros mail resp.
    rewrite mem_verifyAuthenticationByEmail_run,
      redis_verifyAuthenticationByEmail_run, D.
    destruct (Repository.findUserByEmail mail (db r)) as [user|]; cbn;
      [|by split; [left|]].
    destruct (find_credential _ user) as [credential|]; cbn;
      [|by split; [left|]].
    pose proof (agree_lookup m r ("auth-email-" +:+ mail) G) as L.
    destruct (store m !! ("auth-email-" +:+ mail)) as [e|].
    + destruct L as [-> ->]. apply authentication_result_agree.
      by apply agree_delete.
    + rewrite L. cbn. by split; [right|].
  - intros uuid dto. unfold register. cbn. rewrite D.
    destruct (Repository.findUserByEmail _ (db r)); cbn; [by split; [left|]|].
    split; [done|]. rewrite ?D, ?N. by apply agree_db.
  - intros dto. unfold login. cbn. rewrite D.
    destruct (Repository.findUserByEmail _ (db r)) as [user|]; cbn;
      [|by split; [left|]].
    destruct (bcrypt_compare _ _); cbn; by split; [try left|].
  - intros uid. unfold getUser. destruct (_ || _); cbn; [by split; [left|]|].
    unfold query_by_uuid. cbn. rewrite D.
    destruct (Postgres.is_uuid uid); cbn; [|by split; [left|]].
    destruct (Repository.findUserById uid (db r)); cbn; by split; [try left|].
  - intros uid cid. rewrite !deleteCredential_run, D.
    destruct (Postgres.is_uuid cid); [|by split; [left|]].
    destruct (Postgres.is_uuid uid); [|by split; [left|]].
    destruct (Repository.findCredential cid uid (db r)); cbn;
      [|by split; [left|]].
    split; [done|]. rewrite ?D, ?N. by apply agree_db.
Qed.

End SideBySide.

(** Alice asks both deployments for options and answers both: each has her
    challenge pending, each returns [verified: true], and the two are in
    the same situation again afterwards. *)
Lemma revisions_answer_alike_witness :
  let H := Demo.libraries 6 in
  let m := (run (InMemory.generateAuthenticationOptions "c1" Demo.u1)
              (Demo.memory 5)).2 in
  let r := (run (RedisBacked.generateAuthenticationOptions "c1" Demo.u1)
              (Demo.redis 5)).2 in
  let response := Demo.signed Demo.cred1 "c1" in
  InMemory.challenge <$> store m !! key_of Demo.u1 auth = Some "c1"
  ∧ RedisService.live r (key_of Demo.u1 auth) = Some "c1"
  ∧ (run (InMemory.verifyAuthentication Demo.u1 response) m).1
    = Returned (mkVerified true)
  ∧ same_answer
      (run (InMemory.verifyAuthentication Demo.u1 response) m).1
      (run (RedisBacked.verifyAuthentication Demo.u1 response) r).1
  ∧ agree (run (InMemory.verifyAuthentication Demo.u1 response) m).2
          (run (RedisBacked.verifyAuthentication Demo.u1 response) r).2.
Proof.
  intros H m r response.
  split; [reflexivity|]. split; [reflexivity|]. split; [reflexivity|].
  assert (agree (Demo.memory 5) (Demo.redis 5)) as G0.
  { split; [reflexivity|]. split; [reflexivity|]. intros k. cbn.
    by rewrite !lookup_empty. }
  assert (agree m r) as G.
  { apply (proj1 (proj2 (@revisions_answer_alike H (Demo.memory 5)
                           (Demo.redis 5) G0)) "c1" Demo.u1 eq_refl). }
  apply (proj1 (proj2 (proj2 (proj2 (proj2
           (@revisions_answer_alike H m r G)))))).
Defined.
